(** * v.in.ogr: the polygon-to-topology import pipeline of [main.c]

    A shallow embedding of the parts of [vector/v.in.ogr/main.c] that the
    specification talks about: the feature iterator
    ([OGR_iterator_init], [OGR_iterator_reset], [ogr_getnextfeature]), the
    split-distance calibration, the import and centroid passes of [main],
    the boundary cleaning sequence, the centroid write-out and the snapping
    estimate at the end of [main].  After these come the parts of [main.c]
    around them: the choice of the layers, the comparison of their
    projections ([get_layer_proj], [cmp_layer_srs]) and the check against
    the location, the spatial filters ([create_spatial_filter]) and the
    statements that make and fill the attribute tables.

    C [int]s are integers of [Z]; the counters of the program ([cat],
    [curr_layer], ...) never leave the range of [int] on inputs the program
    can hold in memory, and signed overflow has no defined behaviour in C,
    so no wrap-around is written.  C [double]s are real numbers of [R]:
    rounding is outside the model. *)

From Stdlib Require Import String ZArith List Bool Lia Reals Lra DecimalString.
Import ListNotations.
Local Open Scope Z_scope.

(** ** Results of code that may stop the program *)

(** [G_fatal_error] ends the run; loops of the form [while (1)] are run
    with fuel. *)
Inductive result (A : Type) : Type :=
| Ret (a : A)
| Fatal (msg : string)
| OutOfFuel.
Arguments Ret {A} a.
Arguments Fatal {A} msg.
Arguments OutOfFuel {A}.

(** ** Helpers on lists indexed by C integers *)

Definition nthZ {A : Type} (l : list A) (i : Z) : option A :=
  if 0 <=? i then nth_error l (Z.to_nat i) else None.

Fixpoint set_nth {A : Type} (l : list A) (n : nat) (x : A) : list A :=
  match l, n with
  | [], _ => []
  | _ :: tl, O => x :: tl
  | y :: tl, S n' => y :: set_nth tl n' x
  end.

Definition setZ {A : Type} (l : list A) (i : Z) (x : A) : list A :=
  if 0 <=? i then set_nth l (Z.to_nat i) x else l.

Lemma set_nth_length {A : Type} (l : list A) n x :
  length (set_nth l n x) = length l.
Proof.
  revert n; induction l as [|y tl IH]; intros [|n]; simpl; auto.
Qed.

Lemma nth_error_set_nth_same {A : Type} (l : list A) n x :
  (n < length l)%nat -> nth_error (set_nth l n x) n = Some x.
Proof.
  revert n; induction l as [|y tl IH]; intros [|n] H; simpl in *; try lia; auto.
  apply IH; lia.
Qed.

Lemma nth_error_set_nth_other {A : Type} (l : list A) n m x :
  n <> m -> nth_error (set_nth l n x) m = nth_error l m.
Proof.
  revert n m; induction l as [|y tl IH]; intros [|n] [|m] H; simpl; auto.
  congruence.
Qed.

Lemma setZ_length {A : Type} (l : list A) i x : length (setZ l i x) = length l.
Proof.
  unfold setZ; destruct (0 <=? i); auto using set_nth_length.
Qed.

Lemma nthZ_setZ_same {A : Type} (l : list A) i x :
  0 <= i < Z.of_nat (length l) -> nthZ (setZ l i x) i = Some x.
Proof.
  intros H; unfold nthZ, setZ.
  destruct (Z.leb_spec 0 i); try lia.
  apply nth_error_set_nth_same; lia.
Qed.

Lemma nthZ_setZ_other {A : Type} (l : list A) i j x :
  i <> j -> nthZ (setZ l i x) j = nthZ l j.
Proof.
  intros H; unfold nthZ, setZ.
  destruct (Z.leb_spec 0 j); auto.
  destruct (Z.leb_spec 0 i); auto.
  apply nth_error_set_nth_other; lia.
Qed.

Lemma nthZ_Some_range {A : Type} (l : list A) i x :
  nthZ l i = Some x -> 0 <= i < Z.of_nat (length l).
Proof.
  unfold nthZ; destruct (Z.leb_spec 0 i); try discriminate.
  intros E. assert (Hn : (Z.to_nat i < length l)%nat).
  { apply nth_error_Some; congruence. }
  lia.
Qed.

Lemma nthZ_in_range {A : Type} (l : list A) i :
  0 <= i < Z.of_nat (length l) -> exists x, nthZ l i = Some x.
Proof.
  intros H; unfold nthZ. destruct (Z.leb_spec 0 i); try lia.
  destruct (nth_error l (Z.to_nat i)) eqn:E; eauto.
  apply nth_error_None in E; lia.
Qed.

(** ** The feature iterator *)

Module Iterator.

Section Source.

(** The feature source is GDAL/OGR, outside this program.  A feature is an
    opaque value here; the two kinds of filter a layer carries are a
    geometry ([SFilter]) and a where-clause (a string), and what they
    let through is the source's business. *)
Variable Feature : Type.
Variable SFilter : Type.
Variable sf_pass : SFilter -> Feature -> bool.
Variable af_pass : string -> Feature -> bool.
(** [OGR_L_SetAttributeFilter] refuses a clause it cannot parse. *)
Variable af_valid : string -> bool.
(** [GDAL_VERSION_NUM >= 2020000], fixed when the program is built. *)
Variable gdal_ge_2_2 : bool.

Record OGRLayer : Type := mkLayer {
  L_name : string;
  L_features : list Feature;          (* the layer's features, in order *)
  L_rest : list Feature;              (* what its own cursor has not read *)
  L_spatial : option SFilter;
  L_attr : option string
}.

Record DataSource : Type := mkDS {
  DS_layers : list OGRLayer;
  DS_stream : list (option Z * Feature);  (* features with owning layer *)
  DS_rest : list (option Z * Feature)     (* what the shared cursor has not read *)
}.

(** [OGROpen]: what opening a data source name yields. *)
Variable OGROpen : string -> option DataSource.

Definition set_layer (ds : DataSource) (i : Z) (l : OGRLayer) : DataSource :=
  mkDS (setZ (DS_layers ds) i l) (DS_stream ds) (DS_rest ds).

Definition set_rest (ds : DataSource) (r : list (option Z * Feature)) : DataSource :=
  mkDS (DS_layers ds) (DS_stream ds) r.

(** A layer handle is the index of the layer; [None] is [NULL]. *)
Definition ds_getlayerbyindex (ds : DataSource) (i : Z) : option Z :=
  match nthZ (DS_layers ds) i with Some _ => Some i | None => None end.

Definition handle_layer (ds : DataSource) (h : option Z) : option OGRLayer :=
  match h with Some i => nthZ (DS_layers ds) i | None => None end.

Definition OGR_L_GetName (ds : DataSource) (h : Z) : string :=
  match nthZ (DS_layers ds) h with Some l => L_name l | None => EmptyString end.

(** What the calls below do to the layer behind a handle; a call on
    [NULL] or on a handle that names no layer changes nothing. *)
Definition modify_layer (ds : DataSource) (h : option Z)
    (f : OGRLayer -> OGRLayer) : DataSource :=
  match handle_layer ds h, h with
  | Some l, Some i => set_layer ds i (f l)
  | _, _ => ds
  end.

Definition OGR_L_SetSpatialFilter (ds : DataSource) (h : option Z)
    (g : option SFilter) : DataSource :=
  modify_layer ds h
    (fun l => mkLayer (L_name l) (L_features l) (L_rest l) g (L_attr l)).

(** The boolean is [true] for [OGRERR_NONE]. *)
Definition OGR_L_SetAttributeFilter (ds : DataSource) (h : option Z)
    (q : option string) : DataSource * bool :=
  match handle_layer ds h with
  | Some _ =>
      if match q with Some s => af_valid s | None => true end
      then (modify_layer ds h
              (fun l => mkLayer (L_name l) (L_features l) (L_rest l) (L_spatial l) q),
            true)
      else (ds, false)
  | None => (ds, false)
  end.

Definition OGR_L_ResetReading (ds : DataSource) (h : option Z) : DataSource :=
  modify_layer ds h
    (fun l => mkLayer (L_name l) (L_features l) (L_features l) (L_spatial l) (L_attr l)).

Definition passes (l : OGRLayer) (f : Feature) : bool :=
  match L_spatial l with Some g => sf_pass g f | None => true end &&
  match L_attr l with Some q => af_pass q f | None => true end.

Fixpoint next_passing (l : OGRLayer) (rest : list Feature)
    : option Feature * list Feature :=
  match rest with
  | [] => (None, [])
  | f :: tl => if passes l f then (Some f, tl) else next_passing l tl
  end.

Definition OGR_L_GetNextFeature (ds : DataSource) (h : option Z)
    : option Feature * DataSource :=
  match handle_layer ds h with
  | Some l0 =>
      let (r, rest') := next_passing l0 (L_rest l0) in
      (r, modify_layer ds h
            (fun l => mkLayer (L_name l) (L_features l) rest' (L_spatial l) (L_attr l)))
  | None => (None, ds)
  end.

Definition GDALDatasetResetReading (ds : DataSource) : DataSource :=
  set_rest ds (DS_stream ds).

(** A feature of the shared cursor is let through by the filters of the
    layer it belongs to. *)
Definition visible (ds : DataSource) (e : option Z * Feature) : bool :=
  match handle_layer ds (fst e) with
  | Some l => passes l (snd e)
  | None => true
  end.

Fixpoint next_visible (ds : DataSource) (rest : list (option Z * Feature))
    : option (Feature * option Z) * list (option Z * Feature) :=
  match rest with
  | [] => (None, [])
  | e :: tl => if visible ds e then (Some (snd e, fst e), tl) else next_visible ds tl
  end.

Definition GDALDatasetGetNextFeature (ds : DataSource)
    : option (Feature * option Z) * DataSource :=
  let (r, rest') := next_visible ds (DS_rest ds) in (r, set_rest ds rest').

(** *** [struct OGR_iterator] *)

Record OGR_iterator : Type := mkIter {
  dsn : string;
  nlayers : Z;
  has_nonempty_layers : bool;
  ogr_interleaved_reading : bool;
  Ogr_layer : option Z;
  Ogr_featuredefn : option Z;   (* the layer whose definition it is *)
  requested_layer : Z;
  curr_layer : Z;
  done : bool
}.

Definition with_layer (it : OGR_iterator) (h : option Z) : OGR_iterator :=
  mkIter (dsn it) (nlayers it) (has_nonempty_layers it) (ogr_interleaved_reading it)
         h (Ogr_featuredefn it) (requested_layer it) (curr_layer it) (done it).

Definition with_featuredefn (it : OGR_iterator) (h : option Z) : OGR_iterator :=
  mkIter (dsn it) (nlayers it) (has_nonempty_layers it) (ogr_interleaved_reading it)
         (Ogr_layer it) h (requested_layer it) (curr_layer it) (done it).

Definition with_curr (it : OGR_iterator) (c : Z) : OGR_iterator :=
  mkIter (dsn it) (nlayers it) (has_nonempty_layers it) (ogr_interleaved_reading it)
         (Ogr_layer it) (Ogr_featuredefn it) (requested_layer it) c (done it).

Definition with_nonempty (it : OGR_iterator) (b : bool) : OGR_iterator :=
  mkIter (dsn it) (nlayers it) b (ogr_interleaved_reading it)
         (Ogr_layer it) (Ogr_featuredefn it) (requested_layer it) (curr_layer it) (done it).

Definition with_requested (it : OGR_iterator) (r : Z) : OGR_iterator :=
  mkIter (dsn it) (nlayers it) (has_nonempty_layers it) (ogr_interleaved_reading it)
         (Ogr_layer it) (Ogr_featuredefn it) r (curr_layer it) (done it).

Definition with_done (it : OGR_iterator) (d : bool) : OGR_iterator :=
  mkIter (dsn it) (nlayers it) (has_nonempty_layers it) (ogr_interleaved_reading it)
         (Ogr_layer it) (Ogr_featuredefn it) (requested_layer it) (curr_layer it) d.

Definition OGR_iterator_init (name : string) (n : Z) (interleaved : bool)
    : OGR_iterator :=
  mkIter name n false interleaved None None (-1) (-1) false.

Definition OGR_iterator_reset (it : OGR_iterator) (ds : DataSource)
    : OGR_iterator * DataSource :=
  (mkIter (dsn it) (nlayers it) false (ogr_interleaved_reading it)
          None (Ogr_featuredefn it) (-1) (-1) false,
   if gdal_ge_2_2 then GDALDatasetResetReading ds else ds).

(** The loop [for (i = 0; i < nlayers; i++)] that clears the filters:
    [n] layers are left to do, starting at [i]. *)
Fixpoint clear_filters (n : nat) (i : Z) (ds : DataSource) : DataSource :=
  match n with
  | O => ds
  | S n' =>
      let h := ds_getlayerbyindex ds i in
      let ds1 := OGR_L_SetSpatialFilter ds h None in
      let ds2 := fst (OGR_L_SetAttributeFilter ds1 h None) in
      clear_filters n' (i + 1) ds2
  end.

(** The block guarded by [OGR_iter->requested_layer != layer]. *)
Definition reset_reading (it : OGR_iterator) (ds : DataSource) (layer : Z)
    (poSpatialFilter : option SFilter) (attr_filter : option string)
    : result (OGR_iterator * DataSource) :=
  if negb (ogr_interleaved_reading it) then
    let it1 := with_curr it layer in
    let it2 := with_layer it1 (ds_getlayerbyindex ds (curr_layer it1)) in
    let it3 := with_featuredefn it2 (Ogr_layer it2) in
    let ds1 := OGR_L_ResetReading ds (Ogr_layer it3) in
    Ret (with_done (with_requested it3 layer) false, ds1)
  else
    let ds1 := clear_filters (Z.to_nat (nlayers it)) 0 ds in
    let it1 :=
      if (0 <? nlayers it)
      then with_layer it (ds_getlayerbyindex ds1 (nlayers it - 1))
      else it in
    if gdal_ge_2_2 then
      let ds2 := GDALDatasetResetReading ds1 in
      let it2 := with_layer it1 (ds_getlayerbyindex ds2 layer) in
      let it3 := with_featuredefn it2 (Ogr_layer it2) in
      let ds3 := OGR_L_SetSpatialFilter ds2 (Ogr_layer it3) poSpatialFilter in
      let (ds4, ok) := OGR_L_SetAttributeFilter ds3 (Ogr_layer it3) attr_filter in
      if ok then Ret (with_done (with_requested it3 layer) false, ds4)
      else Fatal "Error setting attribute filter"
    else
      match OGROpen (dsn it) with
      | None => Fatal "Unable to re-open data source"
      | Some ds2 =>
          let it2 := with_layer it1 (ds_getlayerbyindex ds2 layer) in
          let it3 := with_nonempty (with_curr it2 0) false in
          let it4 := with_layer it3 (ds_getlayerbyindex ds2 layer) in
          let it5 := with_featuredefn it4 (Ogr_layer it4) in
          let ds3 := OGR_L_SetSpatialFilter ds2 (Ogr_layer it5) poSpatialFilter in
          let (ds4, ok) := OGR_L_SetAttributeFilter ds3 (Ogr_layer it5) attr_filter in
          if ok then
            let it6 := with_layer it5 (ds_getlayerbyindex ds4 (curr_layer it5)) in
            Ret (with_done (with_requested it6 layer) false, ds4)
          else Fatal "Error setting attribute filter"
      end.

(** [ln && *ln && strcmp(ln, layer_name) == 0] *)
Definition name_matches (ln layer_name : string) : bool :=
  negb (String.eqb ln EmptyString) && String.eqb ln layer_name.

Definition owner_matches (ds : DataSource) (h : option Z) (layer_name : string) : bool :=
  match h with
  | Some i => name_matches (OGR_L_GetName ds i) layer_name
  | None => false
  end.

(** The [while (1)] of the GDAL 2.2+ branch.  [destroyed] collects the
    features handed to [OGR_F_Destroy]. *)
Fixpoint fetch_dataset (fuel : nat) (layer_name : string) (it : OGR_iterator)
    (ds : DataSource) (destroyed : list Feature)
    : result (option Feature * OGR_iterator * DataSource * list Feature) :=
  match fuel with
  | O => OutOfFuel
  | S fuel' =>
      let (r, ds1) := GDALDatasetGetNextFeature ds in
      match r with
      | None => Ret (None, with_done (with_layer it None) true, ds1, destroyed)
      | Some (f, owner) =>
          if owner_matches ds1 owner layer_name
          then Ret (Some f, with_layer it owner, ds1, destroyed)
          else fetch_dataset fuel' layer_name (with_layer it None) ds1 (destroyed ++ [f])
      end
  end.

(** The [while (1)] of the older branch. *)
Fixpoint fetch_layers (fuel : nat) (layer : Z) (it : OGR_iterator)
    (ds : DataSource) (destroyed : list Feature)
    : result (option Feature * OGR_iterator * DataSource * list Feature) :=
  match fuel with
  | O => OutOfFuel
  | S fuel' =>
      let (r, ds1) := OGR_L_GetNextFeature ds (Ogr_layer it) in
      match r with
      | Some f =>
          let it1 := with_nonempty it true in
          if negb (curr_layer it1 =? layer)
          then fetch_layers fuel' layer it1 ds1 (destroyed ++ [f])
          else Ret (Some f, it1, ds1, destroyed)
      | None =>
          let it1 := with_curr it (curr_layer it + 1) in
          if curr_layer it1 =? nlayers it1 then
            if negb (has_nonempty_layers it1) then
              Ret (None, with_done (with_layer it1 None) true, ds1, destroyed)
            else
              let it2 := with_nonempty (with_curr it1 0) false in
              let it3 := with_layer it2 (ds_getlayerbyindex ds1 (curr_layer it2)) in
              fetch_layers fuel' layer (with_featuredefn it3 (Ogr_layer it3)) ds1 destroyed
          else
            let it3 := with_layer it1 (ds_getlayerbyindex ds1 (curr_layer it1)) in
            fetch_layers fuel' layer (with_featuredefn it3 (Ogr_layer it3)) ds1 destroyed
      end
  end.

(** What follows the reset block in [ogr_getnextfeature]. *)
Definition fetch (fuel : nat) (it : OGR_iterator) (ds : DataSource)
    (layer : Z) (layer_name : string)
    : result (option Feature * OGR_iterator * DataSource * list Feature) :=
  if done it then Ret (None, it, ds, [])
  else if negb (ogr_interleaved_reading it) then
    let (r, ds1) := OGR_L_GetNextFeature ds (Ogr_layer it) in
    match r with
    | None => Ret (None, with_done (with_layer it None) true, ds1, [])
    | Some f => Ret (Some f, it, ds1, [])
    end
  else if gdal_ge_2_2 then fetch_dataset fuel layer_name it ds []
  else fetch_layers fuel layer it ds [].

Definition ogr_getnextfeature (fuel : nat) (it : OGR_iterator) (ds : DataSource)
    (layer : Z) (layer_name : string)
    (poSpatialFilter : option SFilter) (attr_filter : option string)
    : result (option Feature * OGR_iterator * DataSource * list Feature) :=
  if negb (requested_layer it =? layer) then
    match reset_reading it ds layer poSpatialFilter attr_filter with
    | Ret (it1, ds1) => fetch fuel it1 ds1 layer layer_name
    | Fatal msg => Fatal msg
    | OutOfFuel => OutOfFuel
    end
  else fetch fuel it ds layer layer_name.

(** *** End of stream is remembered *)

Lemma fetch_dataset_requested fuel name it ds d r it' ds' d' :
  fetch_dataset fuel name it ds d = Ret (r, it', ds', d') ->
  requested_layer it' = requested_layer it /\ (r = None -> done it' = true).
Proof.
  revert it ds d; induction fuel as [|fuel IH]; intros it ds d; simpl.
  - discriminate.
  - destruct (GDALDatasetGetNextFeature ds) as [[[f owner]|] ds1].
    + destruct (owner_matches ds1 owner name).
      * intros E; inversion E; subst; simpl; split; [reflexivity | discriminate].
      * intros E; apply IH in E; exact E.
    + intros E; inversion E; subst; simpl; auto.
Qed.

Lemma fetch_layers_requested fuel layer it ds d r it' ds' d' :
  fetch_layers fuel layer it ds d = Ret (r, it', ds', d') ->
  requested_layer it' = requested_layer it /\ (r = None -> done it' = true).
Proof.
  revert it ds d; induction fuel as [|fuel IH]; intros it ds d; simpl.
  - discriminate.
  - destruct (OGR_L_GetNextFeature ds (Ogr_layer it)) as [[f|] ds1].
    + destruct (negb (curr_layer it =? layer)).
      * intros E; apply IH in E; exact E.
      * intros E; inversion E; subst; simpl; split; [reflexivity | discriminate].
    + destruct (curr_layer it + 1 =? nlayers it).
      * destruct (negb (has_nonempty_layers it)).
        -- intros E; inversion E; subst; simpl; auto.
        -- intros E; apply IH in E; exact E.
      * intros E; apply IH in E; exact E.
Qed.

Lemma fetch_requested fuel it ds layer name r it' ds' d' :
  fetch fuel it ds layer name = Ret (r, it', ds', d') ->
  requested_layer it' = requested_layer it /\ (r = None -> done it' = true).
Proof.
  unfold fetch. destruct (done it) eqn:Hd.
  - intros E; inversion E; subst; auto.
  - destruct (negb (ogr_interleaved_reading it)).
    + destruct (OGR_L_GetNextFeature ds (Ogr_layer it)) as [[f|] ds1];
        intros E; inversion E; subst; simpl; split; auto; discriminate.
    + destruct gdal_ge_2_2.
      * apply fetch_dataset_requested.
      * apply fetch_layers_requested.
Qed.

Lemma reset_reading_requested it ds layer sf af it1 ds1 :
  reset_reading it ds layer sf af = Ret (it1, ds1) ->
  requested_layer it1 = layer /\ done it1 = false.
Proof.
  unfold reset_reading.
  destruct (negb (ogr_interleaved_reading it)).
  - intros E; inversion E; subst; simpl; auto.
  - destruct gdal_ge_2_2.
    + destruct (OGR_L_SetAttributeFilter _ _ af) as [ds4 [|]];
        intros E; inversion E; subst; simpl; auto.
    + destruct (OGROpen (dsn it)) as [ds2|]; try discriminate.
      destruct (OGR_L_SetAttributeFilter _ _ af) as [ds4 [|]];
        intros E; inversion E; subst; simpl; auto.
Qed.

Lemma getnext_none_state fuel it ds layer name sf af it' ds' d :
  ogr_getnextfeature fuel it ds layer name sf af = Ret (None, it', ds', d) ->
  requested_layer it' = layer /\ done it' = true.
Proof.
  unfold ogr_getnextfeature.
  destruct (Z.eqb_spec (requested_layer it) layer) as [Heq|Hne]; simpl.
  - intros E; apply fetch_requested in E. destruct E as [E1 E2].
    split; [congruence | auto].
  - destruct (reset_reading it ds layer sf af) as [[it1 ds1]| |] eqn:Hr;
      try discriminate.
    apply reset_reading_requested in Hr. destruct Hr as [Hr _].
    intros E; apply fetch_requested in E. destruct E as [E1 E2].
    split; [congruence | auto].
Qed.

(** C9.  Once [ogr_getnextfeature] has returned [NULL] for a layer, a
    further call for the same layer returns [NULL] again and leaves the
    iterator and the data source as they were: nothing is read and nothing
    is destroyed, whatever the fuel, the name and the filters passed.  The
    flag that makes it so is cleared by [OGR_iterator_reset] and by a call
    for another layer that gets through its reset block. *)
Theorem end_of_stream_is_sticky fuel it ds layer name sf af it' ds' d :
  ogr_getnextfeature fuel it ds layer name sf af = Ret (None, it', ds', d) ->
  (forall fuel2 name2 sf2 af2,
      ogr_getnextfeature fuel2 it' ds' layer name2 sf2 af2
      = Ret (None, it', ds', [])) /\
  done (fst (OGR_iterator_reset it' ds')) = false /\
  (forall layer2 sf2 af2 it2 ds2,
      layer2 <> layer ->
      reset_reading it' ds' layer2 sf2 af2 = Ret (it2, ds2) ->
      done it2 = false).
Proof.
  intros E. apply getnext_none_state in E. destruct E as [Hreq Hdone].
  split; [|split].
  - intros fuel2 name2 sf2 af2. unfold ogr_getnextfeature.
    rewrite Hreq, Z.eqb_refl. simpl. unfold fetch. rewrite Hdone. reflexivity.
  - reflexivity.
  - intros layer2 sf2 af2 it2 ds2 _ Hr.
    apply reset_reading_requested in Hr. tauto.
Qed.

(** *** What a change of layer does *)

Lemma modify_layer_nth ds h f j :
  nthZ (DS_layers (modify_layer ds h f)) j =
  if match h with Some i => i =? j | None => false end
  then option_map f (nthZ (DS_layers ds) j)
  else nthZ (DS_layers ds) j.
Proof.
  unfold modify_layer. destruct h as [i|]; simpl; [|reflexivity].
  destruct (nthZ (DS_layers ds) i) as [l|] eqn:E; simpl.
  - destruct (Z.eqb_spec i j) as [->|Hne].
    + rewrite nthZ_setZ_same by (eapply nthZ_Some_range; eauto).
      rewrite E; reflexivity.
    + apply nthZ_setZ_other; assumption.
  - destruct (Z.eqb_spec i j) as [->|Hne]; [rewrite E|]; reflexivity.
Qed.

Lemma modify_layer_stream ds h f :
  DS_stream (modify_layer ds h f) = DS_stream ds /\
  DS_rest (modify_layer ds h f) = DS_rest ds /\
  length (DS_layers (modify_layer ds h f)) = length (DS_layers ds).
Proof.
  unfold modify_layer. destruct (handle_layer ds h), h; simpl; auto.
  rewrite setZ_length; auto.
Qed.

Lemma getlayer_in_range ds i :
  0 <= i < Z.of_nat (length (DS_layers ds)) -> ds_getlayerbyindex ds i = Some i.
Proof.
  intros H. unfold ds_getlayerbyindex.
  destruct (nthZ_in_range (DS_layers ds) i H) as [l ->]; reflexivity.
Qed.

Lemma getlayer_handle ds i :
  handle_layer ds (ds_getlayerbyindex ds i) = nthZ (DS_layers ds) i.
Proof.
  unfold ds_getlayerbyindex.
  destruct (nthZ (DS_layers ds) i) eqn:E; simpl; auto.
Qed.

Definition cleared (l : OGRLayer) : OGRLayer :=
  mkLayer (L_name l) (L_features l) (L_rest l) None None.

Lemma clear_one_nth ds i j :
  let h := ds_getlayerbyindex ds i in
  nthZ (DS_layers (fst (OGR_L_SetAttributeFilter
                          (OGR_L_SetSpatialFilter ds h None) h None))) j =
  if i =? j then option_map cleared (nthZ (DS_layers ds) j)
  else nthZ (DS_layers ds) j.
Proof.
  simpl. unfold OGR_L_SetAttributeFilter, OGR_L_SetSpatialFilter, ds_getlayerbyindex.
  destruct (nthZ (DS_layers ds) i) as [l|] eqn:E.
  - simpl. rewrite modify_layer_nth. simpl. rewrite Z.eqb_refl, E. simpl.
    rewrite !modify_layer_nth. simpl.
    destruct (Z.eqb_spec i j) as [->|Hne]; [|reflexivity].
    rewrite E; reflexivity.
  - unfold modify_layer; cbn.
    destruct (Z.eqb_spec i j) as [->|Hne]; [rewrite E|]; reflexivity.
Qed.

Lemma setspatial_stream ds h g :
  DS_stream (OGR_L_SetSpatialFilter ds h g) = DS_stream ds /\
  DS_rest (OGR_L_SetSpatialFilter ds h g) = DS_rest ds /\
  length (DS_layers (OGR_L_SetSpatialFilter ds h g)) = length (DS_layers ds).
Proof. apply modify_layer_stream. Qed.

Lemma setattr_stream ds h q :
  DS_stream (fst (OGR_L_SetAttributeFilter ds h q)) = DS_stream ds /\
  DS_rest (fst (OGR_L_SetAttributeFilter ds h q)) = DS_rest ds /\
  length (DS_layers (fst (OGR_L_SetAttributeFilter ds h q))) = length (DS_layers ds).
Proof.
  unfold OGR_L_SetAttributeFilter.
  destruct (handle_layer ds h); simpl; auto.
  destruct (match q with Some s => af_valid s | None => true end); simpl; auto.
  apply modify_layer_stream.
Qed.

Lemma clear_one_stream ds i :
  let h := ds_getlayerbyindex ds i in
  let ds' := fst (OGR_L_SetAttributeFilter (OGR_L_SetSpatialFilter ds h None) h None) in
  DS_stream ds' = DS_stream ds /\ DS_rest ds' = DS_rest ds /\
  length (DS_layers ds') = length (DS_layers ds).
Proof.
  intros h ds'. subst ds'.
  destruct (setattr_stream (OGR_L_SetSpatialFilter ds h None) h None) as (A & B & C).
  destruct (setspatial_stream ds h None) as (A' & B' & C').
  repeat split; congruence.
Qed.

Lemma clear_filters_nth n : forall i ds j,
  nthZ (DS_layers (clear_filters n i ds)) j =
  if (i <=? j) && (j <? i + Z.of_nat n)
  then option_map cleared (nthZ (DS_layers ds) j)
  else nthZ (DS_layers ds) j.
Proof.
  induction n as [|n IH]; intros i ds j.
  - simpl. destruct (Z.leb_spec i j), (Z.ltb_spec j (i + 0)); simpl; auto; lia.
  - cbn [clear_filters]. rewrite IH, clear_one_nth.
    destruct (Z.eqb_spec i j) as [->|Hne].
    + destruct (Z.leb_spec (j + 1) j); try lia. cbn [andb].
      destruct (Z.leb_spec j j), (Z.ltb_spec j (j + Z.of_nat (S n)));
        cbn [andb]; auto; lia.
    + destruct (Z.leb_spec (i + 1) j), (Z.ltb_spec j (i + 1 + Z.of_nat n)),
        (Z.leb_spec i j), (Z.ltb_spec j (i + Z.of_nat (S n)));
        cbn [andb]; auto; lia.
Qed.

Lemma clear_filters_stream n : forall i ds,
  DS_stream (clear_filters n i ds) = DS_stream ds /\
  DS_rest (clear_filters n i ds) = DS_rest ds /\
  length (DS_layers (clear_filters n i ds)) = length (DS_layers ds).
Proof.
  induction n as [|n IH]; intros i ds; simpl; auto.
  destruct (IH (i + 1)
              (fst (OGR_L_SetAttributeFilter
                      (OGR_L_SetSpatialFilter ds (ds_getlayerbyindex ds i) None)
                      (ds_getlayerbyindex ds i) None))) as (A & B & C).
  destruct (clear_one_stream ds i) as (A' & B' & C').
  simpl in A', B', C'. repeat split; congruence.
Qed.

Definition no_filters (l : OGRLayer) : Prop :=
  L_spatial l = None /\ L_attr l = None.

(** A data source as [OGROpen] hands it out: no filter set, every cursor
    at its start. *)
Definition pristine (ds : DataSource) : Prop :=
  DS_rest ds = DS_stream ds /\
  forall i l, nthZ (DS_layers ds) i = Some l ->
              no_filters l /\ L_rest l = L_features l.

Definition filter_acceptable (q : option string) : Prop :=
  match q with Some s => af_valid s = true | None => True end.

Lemma set_filters_state ds layer sf af :
  0 <= layer < Z.of_nat (length (DS_layers ds)) ->
  filter_acceptable af ->
  exists ds4,
    OGR_L_SetAttributeFilter
      (OGR_L_SetSpatialFilter ds (ds_getlayerbyindex ds layer) sf)
      (ds_getlayerbyindex ds layer) af = (ds4, true) /\
    DS_stream ds4 = DS_stream ds /\ DS_rest ds4 = DS_rest ds /\
    length (DS_layers ds4) = length (DS_layers ds) /\
    forall j,
      nthZ (DS_layers ds4) j =
      if layer =? j
      then option_map (fun l => mkLayer (L_name l) (L_features l) (L_rest l) sf af)
                      (nthZ (DS_layers ds) j)
      else nthZ (DS_layers ds) j.
Proof.
  intros Hr Haf. rewrite (getlayer_in_range ds layer Hr).
  destruct (nthZ_in_range _ _ Hr) as [l0 El0].
  unfold OGR_L_SetAttributeFilter, OGR_L_SetSpatialFilter.
  cbn [handle_layer]. rewrite modify_layer_nth. cbn. rewrite Z.eqb_refl, El0. cbn.
  assert (Hv : match af with Some s => af_valid s | None => true end = true).
  { destruct af; auto. }
  rewrite Hv. eexists; split; [reflexivity|].
  set (f1 := fun l : OGRLayer => mkLayer (L_name l) (L_features l) (L_rest l) sf (L_attr l)).
  set (f2 := fun l : OGRLayer => mkLayer (L_name l) (L_features l) (L_rest l) (L_spatial l) af).
  destruct (modify_layer_stream ds (Some layer) f1) as (A & B & C).
  destruct (modify_layer_stream (modify_layer ds (Some layer) f1) (Some layer) f2)
    as (A' & B' & C').
  repeat split; try congruence.
  intros j. rewrite !modify_layer_nth.
  destruct (Z.eqb_spec layer j) as [->|]; auto.
  rewrite El0; reflexivity.
Qed.

(** C8.  A call of [ogr_getnextfeature] for a layer other than the one
    requested before goes through the reset block before it reads.  In
    interleaved mode, afterwards no layer but the requested one carries a
    filter, the requested layer carries the filters passed to the call, and
    reading starts over (the shared cursor stands at the start of the stream
    with GDAL 2.2+; the data source is opened afresh, every cursor at its
    start, with older GDAL).  With independent cursors the cursor of the
    requested layer is put back to its start and nothing else changes.  In
    both modes the end-of-stream flag is cleared. *)
Theorem layer_change_resets_reading fuel it ds layer name sf af :
  requested_layer it <> layer ->
  nlayers it = Z.of_nat (length (DS_layers ds)) ->
  0 <= layer < nlayers it ->
  filter_acceptable af ->
  (gdal_ge_2_2 = false -> ogr_interleaved_reading it = true ->
   exists ds0, OGROpen (dsn it) = Some ds0 /\ pristine ds0 /\
               length (DS_layers ds0) = length (DS_layers ds)) ->
  exists it1 ds1,
    reset_reading it ds layer sf af = Ret (it1, ds1) /\
    ogr_getnextfeature fuel it ds layer name sf af = fetch fuel it1 ds1 layer name /\
    requested_layer it1 = layer /\ done it1 = false /\
    if ogr_interleaved_reading it then
      (forall i l, i <> layer -> nthZ (DS_layers ds1) i = Some l -> no_filters l) /\
      (exists l, nthZ (DS_layers ds1) layer = Some l /\
                 L_spatial l = sf /\ L_attr l = af) /\
      (if gdal_ge_2_2
       then DS_rest ds1 = DS_stream ds /\ DS_stream ds1 = DS_stream ds
       else (forall i l, nthZ (DS_layers ds1) i = Some l -> L_rest l = L_features l) /\
            curr_layer it1 = 0 /\ has_nonempty_layers it1 = false)
    else
      (exists l0, nthZ (DS_layers ds) layer = Some l0 /\
                  nthZ (DS_layers ds1) layer =
                  Some (mkLayer (L_name l0) (L_features l0) (L_features l0)
                                (L_spatial l0) (L_attr l0))) /\
      (forall i, i <> layer -> nthZ (DS_layers ds1) i = nthZ (DS_layers ds) i) /\
      DS_rest ds1 = DS_rest ds /\
      Ogr_layer it1 = Some layer.
Proof.
  intros Hne Hn Hr Haf Hopen.
  assert (Hsw : forall it1 ds1,
             reset_reading it ds layer sf af = Ret (it1, ds1) ->
             ogr_getnextfeature fuel it ds layer name sf af
             = fetch fuel it1 ds1 layer name).
  { intros it1 ds1 E. unfold ogr_getnextfeature.
    destruct (Z.eqb_spec (requested_layer it) layer); [contradiction|].
    simpl. rewrite E. reflexivity. }
  assert (Hrange : 0 <= layer < Z.of_nat (length (DS_layers ds))) by lia.
  unfold reset_reading in *.
  destruct (ogr_interleaved_reading it) eqn:Hmode; cbn [negb] in *.
  - (* interleaved *)
    set (ds1 := clear_filters (Z.to_nat (nlayers it)) 0 ds) in *.
    destruct (clear_filters_stream (Z.to_nat (nlayers it)) 0 ds) as (Cs & Cr & Cl).
    fold ds1 in Cs, Cr, Cl.
    destruct gdal_ge_2_2 eqn:Hg.
    + set (ds2 := GDALDatasetResetReading ds1) in *.
      assert (Hr2 : 0 <= layer < Z.of_nat (length (DS_layers ds2))).
      { unfold ds2; simpl. lia. }
      destruct (set_filters_state ds2 layer sf af Hr2 Haf)
        as (ds4 & E4 & S4 & R4 & L4 & N4).
      cbn [with_layer with_featuredefn Ogr_layer] in *.
      rewrite E4 in *.
      eexists; eexists; split; [reflexivity|]. split; [apply Hsw; reflexivity|].
      cbn. split; [reflexivity|]. split; [reflexivity|].
      split; [|split; [|split]].
      * intros i l Hi Ei. rewrite N4 in Ei.
        destruct (Z.eqb_spec layer i); [congruence|].
        unfold ds2 in Ei; cbn in Ei. unfold ds1 in Ei.
        rewrite clear_filters_nth in Ei.
        destruct (nthZ (DS_layers ds) i) as [l0|] eqn:E0.
        -- apply nthZ_Some_range in E0.
           destruct (Z.leb_spec 0 i), (Z.ltb_spec i (0 + Z.of_nat (Z.to_nat (nlayers it))));
             try lia.
           cbn in Ei. inversion Ei; subst. split; reflexivity.
        -- destruct ((0 <=? i) && (i <? 0 + Z.of_nat (Z.to_nat (nlayers it))));
             discriminate.
      * destruct (nthZ_in_range _ _ Hr2) as [l2 El2].
        exists (mkLayer (L_name l2) (L_features l2) (L_rest l2) sf af).
        rewrite N4, Z.eqb_refl, El2. auto.
      * rewrite R4. unfold ds2; cbn. assumption.
      * rewrite S4. unfold ds2; cbn. assumption.
    + destruct (Hopen eq_refl eq_refl) as (ds0 & Eo & (P1 & P2) & Pl).
      rewrite Eo in *.
      assert (Hr0 : 0 <= layer < Z.of_nat (length (DS_layers ds0))) by lia.
      destruct (set_filters_state ds0 layer sf af Hr0 Haf)
        as (ds4 & E4 & S4 & R4 & L4 & N4).
      cbn [with_layer with_featuredefn with_curr with_nonempty Ogr_layer] in *.
      rewrite E4 in *.
      eexists; eexists; split; [reflexivity|]. split; [apply Hsw; reflexivity|].
      cbn. split; [reflexivity|]. split; [reflexivity|].
      split; [|split; [|split; [|split; reflexivity]]].
      * intros i l Hi Ei. rewrite N4 in Ei.
        destruct (Z.eqb_spec layer i); [congruence|].
        apply P2 in Ei. tauto.
      * destruct (nthZ_in_range _ _ Hr0) as [l2 El2].
        exists (mkLayer (L_name l2) (L_features l2) (L_rest l2) sf af).
        rewrite N4, Z.eqb_refl, El2. auto.
      * intros i l Ei. rewrite N4 in Ei.
        destruct (Z.eqb_spec layer i) as [->|].
        -- destruct (nthZ (DS_layers ds0) i) as [l0|] eqn:E0; [|discriminate].
           cbn in Ei. inversion Ei; subst; cbn. apply P2 in E0. tauto.
        -- apply P2 in Ei. tauto.
  - (* independent cursors *)
    cbn [with_curr with_layer with_featuredefn curr_layer Ogr_layer] in *.
    rewrite (getlayer_in_range ds layer Hrange) in *.
    eexists; eexists; split; [reflexivity|]. split; [apply Hsw; reflexivity|].
    cbn. split; [reflexivity|]. split; [reflexivity|].
    split; [|split; [|split; [|reflexivity]]].
    + destruct (nthZ_in_range _ _ Hrange) as [l0 El0].
      exists l0. split; [assumption|].
      unfold OGR_L_ResetReading. rewrite modify_layer_nth, Z.eqb_refl, El0.
      reflexivity.
    + intros i Hi. unfold OGR_L_ResetReading. rewrite modify_layer_nth.
      destruct (Z.eqb_spec layer i); [congruence|reflexivity].
    + unfold OGR_L_ResetReading.
      destruct (modify_layer_stream ds (Some layer)
                  (fun l => mkLayer (L_name l) (L_features l) (L_features l)
                                    (L_spatial l) (L_attr l))) as (_ & B & _).
      exact B.
Qed.

(** *** Interleaved reading through the shared cursor (GDAL 2.2+) *)

(** What the shared cursor still has to hand out. *)
Definition pending (ds : DataSource) : list (option Z * Feature) :=
  filter (visible ds) (DS_rest ds).

Definition other_layer (ds : DataSource) (layer_name : string)
    (e : option Z * Feature) : Prop :=
  owner_matches ds (fst e) layer_name = false.

Lemma next_visible_filter ds rest :
  match next_visible ds rest with
  | (Some (f, o), rest') =>
      filter (visible ds) rest = (o, f) :: filter (visible ds) rest' /\
      (length rest' < length rest)%nat
  | (None, rest') => filter (visible ds) rest = [] /\ rest' = []
  end.
Proof.
  induction rest as [|[o f] tl IH]; simpl; auto.
  destruct (visible ds (o, f)) eqn:V; simpl.
  - split; [reflexivity | lia].
  - destruct (next_visible ds tl) as [[[f' o']|] rest']; simpl in *.
    + destruct IH; split; [assumption | lia].
    + assumption.
Qed.

Lemma visible_set_rest ds r e : visible (set_rest ds r) e = visible ds e.
Proof. reflexivity. Qed.

Lemma dataset_next_spec ds :
  match GDALDatasetGetNextFeature ds with
  | (Some (f, o), ds1) =>
      pending ds = (o, f) :: pending ds1 /\
      (length (DS_rest ds1) < length (DS_rest ds))%nat /\
      DS_layers ds1 = DS_layers ds
  | (None, ds1) =>
      pending ds = [] /\ DS_rest ds1 = [] /\ DS_layers ds1 = DS_layers ds
  end.
Proof.
  unfold GDALDatasetGetNextFeature, pending.
  pose proof (next_visible_filter ds (DS_rest ds)) as H.
  destruct (next_visible ds (DS_rest ds)) as [[[f o]|] rest']; simpl.
  - destruct H as [H1 H2]. repeat split; auto.
  - destruct H as [H1 H2]. repeat split; auto.
Qed.

Lemma owner_matches_layers ds ds' h name :
  DS_layers ds' = DS_layers ds ->
  owner_matches ds' h name = owner_matches ds h name.
Proof.
  intros E. unfold owner_matches, OGR_L_GetName. rewrite E. reflexivity.
Qed.

Lemma fetch_dataset_spec fuel name : forall it ds d r it' ds' d',
  fetch_dataset fuel name it ds d = Ret (r, it', ds', d') ->
  DS_layers ds' = DS_layers ds /\
  match r with
  | Some f =>
      exists pre o,
        pending ds = pre ++ (o, f) :: pending ds' /\
        Forall (other_layer ds name) pre /\
        owner_matches ds o name = true /\
        d' = d ++ map snd pre /\
        Ogr_layer it' = o
  | None =>
      Forall (other_layer ds name) (pending ds) /\
      d' = d ++ map snd (pending ds) /\
      DS_rest ds' = [] /\ done it' = true
  end.
Proof.
  induction fuel as [|fuel IH]; intros it ds d r it' ds' d'; simpl.
  - discriminate.
  - pose proof (dataset_next_spec ds) as Hn.
    destruct (GDALDatasetGetNextFeature ds) as [[[f o]|] ds1].
    + destruct Hn as (Hp & _ & Hl).
      destruct (owner_matches ds1 o name) eqn:Hm.
      * intros E; inversion E; subst. split; [assumption|].
        exists [], o. simpl. rewrite app_nil_r.
        repeat split; auto.
        rewrite <- (owner_matches_layers ds ds' o name Hl). assumption.
      * intros E. apply IH in E. destruct E as (Hl' & E).
        split; [congruence|].
        assert (Ho : other_layer ds name (o, f)).
        { unfold other_layer; simpl.
          rewrite <- (owner_matches_layers ds ds1 o name Hl). assumption. }
        assert (Hsame : forall e, other_layer ds1 name e <-> other_layer ds name e).
        { intros e; unfold other_layer.
          rewrite (owner_matches_layers ds ds1 (fst e) name Hl). tauto. }
        destruct r as [f'|].
        -- destruct E as (pre & o' & E1 & E2 & E3 & E4 & E5).
           exists ((o, f) :: pre), o'. rewrite Hp, E1. simpl.
           repeat split; auto.
           ++ constructor; [assumption|].
              eapply Forall_impl; [|exact E2]. intros e; apply Hsame.
           ++ rewrite <- (owner_matches_layers ds ds1 o' name Hl). assumption.
           ++ rewrite E4, <- app_assoc. reflexivity.
        -- destruct E as (E1 & E2 & E3 & E4). rewrite Hp.
           repeat split; auto.
           ++ constructor; [assumption|].
              eapply Forall_impl; [|exact E1]. intros e; apply Hsame.
           ++ rewrite E2, <- app_assoc. reflexivity.
    + destruct Hn as (Hp & Hr & Hl).
      intros E; inversion E; subst. split; [assumption|].
      rewrite Hp. simpl. rewrite app_nil_r. repeat split; auto.
Qed.

Lemma fetch_dataset_terminates fuel name : forall it ds d,
  (length (DS_rest ds) < fuel)%nat ->
  exists out, fetch_dataset fuel name it ds d = Ret out.
Proof.
  induction fuel as [|fuel IH]; intros it ds d Hf; [lia|]. simpl.
  pose proof (dataset_next_spec ds) as Hn.
  destruct (GDALDatasetGetNextFeature ds) as [[[f o]|] ds1].
  - destruct (owner_matches ds1 o name); [eauto|].
    apply IH. destruct Hn as (_ & Hlen & _). lia.
  - eauto.
Qed.

(** *** Interleaved reading layer by layer (GDAL before 2.2) *)

(** [l'] is [l] after some reading: only its cursor has moved on. *)
Definition layer_advanced (l l' : OGRLayer) : Prop :=
  L_name l' = L_name l /\ L_features l' = L_features l /\
  L_spatial l' = L_spatial l /\ L_attr l' = L_attr l /\
  exists pre, L_rest l = pre ++ L_rest l'.

Definition advanced (ds ds' : DataSource) : Prop :=
  forall i,
    match nthZ (DS_layers ds) i with
    | Some l => exists l', nthZ (DS_layers ds') i = Some l' /\ layer_advanced l l'
    | None => nthZ (DS_layers ds') i = None
    end.

Lemma layer_advanced_refl l : layer_advanced l l.
Proof. repeat split; auto. exists []; reflexivity. Qed.

Lemma layer_advanced_trans l1 l2 l3 :
  layer_advanced l1 l2 -> layer_advanced l2 l3 -> layer_advanced l1 l3.
Proof.
  intros (A1 & A2 & A3 & A4 & p & A5) (B1 & B2 & B3 & B4 & q & B5).
  repeat split; try congruence.
  exists (p ++ q). rewrite A5, B5, app_assoc. reflexivity.
Qed.

Lemma advanced_refl ds : advanced ds ds.
Proof.
  intros i. destruct (nthZ (DS_layers ds) i) as [l|]; auto.
  exists l; split; auto using layer_advanced_refl.
Qed.

Lemma advanced_trans ds1 ds2 ds3 :
  advanced ds1 ds2 -> advanced ds2 ds3 -> advanced ds1 ds3.
Proof.
  intros A B i. specialize (A i). specialize (B i).
  destruct (nthZ (DS_layers ds1) i) as [l1|].
  - destruct A as (l2 & E2 & A). rewrite E2 in B.
    destruct B as (l3 & E3 & B). exists l3; split; auto.
    eapply layer_advanced_trans; eauto.
  - rewrite A in B. assumption.
Qed.

Lemma advanced_getlayer ds ds' i :
  advanced ds ds' -> ds_getlayerbyindex ds' i = ds_getlayerbyindex ds i.
Proof.
  intros A. specialize (A i). unfold ds_getlayerbyindex.
  destruct (nthZ (DS_layers ds) i).
  - destruct A as (l' & -> & _). reflexivity.
  - rewrite A. reflexivity.
Qed.

Lemma passes_advanced l l' f : layer_advanced l l' -> passes l' f = passes l f.
Proof.
  intros (_ & _ & A3 & A4 & _). unfold passes. rewrite A3, A4. reflexivity.
Qed.

Lemma in_rest_advanced ds ds' i l' f :
  advanced ds ds' -> nthZ (DS_layers ds') i = Some l' -> In f (L_rest l') ->
  exists l, nthZ (DS_layers ds) i = Some l /\ In f (L_rest l) /\
            passes l f = passes l' f.
Proof.
  intros A E Hin. specialize (A i).
  destruct (nthZ (DS_layers ds) i) as [l|].
  - destruct A as (l2 & E2 & A). rewrite E in E2. inversion E2; subst l2.
    exists l. split; [reflexivity|]. split.
    + destruct A as (_ & _ & _ & _ & pre & ->). apply in_or_app; auto.
    + symmetry; apply passes_advanced; assumption.
  - congruence.
Qed.

Lemma next_passing_spec l rest :
  match next_passing l rest with
  | (Some f, rest') =>
      (exists pre, rest = pre ++ f :: rest') /\ passes l f = true /\
      (length rest' < length rest)%nat
  | (None, rest') =>
      rest' = [] /\ Forall (fun f => passes l f = false) rest
  end.
Proof.
  induction rest as [|f tl IH]; simpl; auto.
  destruct (passes l f) eqn:P.
  - split; [exists []; reflexivity|]. split; [assumption | simpl; lia].
  - destruct (next_passing l tl) as [[f'|] rest'].
    + destruct IH as ((pre & ->) & P' & Hl).
      split; [exists (f :: pre); reflexivity|]. split; [assumption | simpl in *; lia].
    + destruct IH as (-> & F). split; auto.
Qed.

Lemma next_passing_none l rest :
  Forall (fun f => passes l f = false) rest -> fst (next_passing l rest) = None.
Proof.
  induction 1 as [|f tl P _ IH]; simpl; auto. rewrite P. assumption.
Qed.

(** Reading layer [i] now gives [NULL]. *)
Definition yields_nothing (ds : DataSource) (i : Z) : Prop :=
  fst (OGR_L_GetNextFeature ds (ds_getlayerbyindex ds i)) = None.

Lemma yields_nothing_iff ds i :
  yields_nothing ds i <->
  match nthZ (DS_layers ds) i with
  | Some l => Forall (fun f => passes l f = false) (L_rest l)
  | None => True
  end.
Proof.
  unfold yields_nothing, OGR_L_GetNextFeature. rewrite getlayer_handle.
  destruct (nthZ (DS_layers ds) i) as [l|]; [|simpl; tauto].
  pose proof (next_passing_spec l (L_rest l)) as H.
  pose proof (next_passing_none l (L_rest l)) as H'.
  destruct (next_passing l (L_rest l)) as [[f|] rest']; simpl in *.
  - split; [discriminate|]. intros F. apply H' in F. discriminate.
  - split; [intros _; apply H | reflexivity].
Qed.

Lemma yields_nothing_advanced ds ds' i :
  advanced ds ds' -> yields_nothing ds i -> yields_nothing ds' i.
Proof.
  intros A. rewrite !yields_nothing_iff. specialize (A i).
  destruct (nthZ (DS_layers ds) i) as [l|].
  - destruct A as (l' & -> & A). intros F.
    pose proof (passes_advanced l l') as P.
    destruct A as (A1 & A2 & A3 & A4 & pre & E). rewrite E in F.
    apply Forall_app in F. destruct F as [_ F].
    eapply Forall_impl; [|exact F]. intros f Hf. cbv beta in Hf.
    rewrite P; [assumption|]. repeat split; auto. exists pre; assumption.
  - rewrite A. tauto.
Qed.

Lemma read_step ds c r ds1 :
  OGR_L_GetNextFeature ds (ds_getlayerbyindex ds c) = (r, ds1) ->
  advanced ds ds1 /\
  match r with
  | Some f =>
      exists l, nthZ (DS_layers ds) c = Some l /\ In f (L_rest l) /\
                passes l f = true
  | None => yields_nothing ds1 c
  end.
Proof.
  unfold OGR_L_GetNextFeature. rewrite getlayer_handle.
  unfold ds_getlayerbyindex.
  destruct (nthZ (DS_layers ds) c) as [l0|] eqn:E.
  - pose proof (next_passing_spec l0 (L_rest l0)) as H.
    destruct (next_passing l0 (L_rest l0)) as [r0 rest'] eqn:Enp.
    intros Heq; inversion Heq; subst r0 ds1; clear Heq.
    set (ds1 := modify_layer ds (Some c)
                  (fun l => mkLayer (L_name l) (L_features l) rest'
                                    (L_spatial l) (L_attr l))).
    assert (Hadv : forall pre, L_rest l0 = pre ++ rest' -> advanced ds ds1).
    { intros pre Hpre i. unfold ds1. rewrite modify_layer_nth.
      destruct (Z.eqb_spec c i) as [<-|Hne].
      - rewrite E. cbn. eexists; split; [reflexivity|].
        repeat split; auto. exists pre; assumption.
      - destruct (nthZ (DS_layers ds) i) as [l|]; auto.
        exists l; split; auto using layer_advanced_refl. }
    destruct r as [f|].
    + destruct H as ((pre & Hpre) & P & _). split.
      * apply (Hadv (pre ++ [f])). rewrite Hpre, <- app_assoc. reflexivity.
      * exists l0. repeat split; auto. rewrite Hpre. apply in_or_app; simpl; auto.
    + destruct H as (-> & F). split.
      * apply (Hadv (L_rest l0)). rewrite app_nil_r. reflexivity.
      * apply yields_nothing_iff. unfold ds1. rewrite modify_layer_nth, Z.eqb_refl, E.
        cbn. constructor.
  - intros Heq; inversion Heq; subst. split; [apply advanced_refl|].
    apply yields_nothing_iff. rewrite E. exact I.
Qed.

(** What holds of the iterator between two calls in this mode: the handle
    is that of [curr_layer], and as long as the current pass has met no
    feature, the layers it has gone through give [NULL]. *)
Definition legacy_wf (it : OGR_iterator) (ds : DataSource) : Prop :=
  0 <= curr_layer it < nlayers it /\
  Ogr_layer it = ds_getlayerbyindex ds (curr_layer it) /\
  (has_nonempty_layers it = false ->
   forall i, 0 <= i < curr_layer it -> yields_nothing ds i).

(** The features of [fs] were read from layers other than [layer]. *)
Definition from_other_layers (ds : DataSource) (layer : Z) (fs : list Feature) : Prop :=
  forall f, In f fs ->
    exists i l, i <> layer /\ nthZ (DS_layers ds) i = Some l /\ In f (L_rest l).

Lemma from_other_layers_advanced ds ds1 layer fs :
  advanced ds ds1 -> from_other_layers ds1 layer fs -> from_other_layers ds layer fs.
Proof.
  intros A H f Hin. destruct (H f Hin) as (i & l1 & Hi & E1 & In1).
  destruct (in_rest_advanced ds ds1 i l1 f A E1 In1) as (l & El & Inl & _).
  exists i, l; auto.
Qed.

Lemma fetch_layers_spec fuel layer : forall it ds d r it' ds' d',
  legacy_wf it ds ->
  fetch_layers fuel layer it ds d = Ret (r, it', ds', d') ->
  advanced ds ds' /\ nlayers it' = nlayers it /\
  (exists extra, d' = d ++ extra /\ from_other_layers ds layer extra) /\
  match r with
  | Some f =>
      legacy_wf it' ds' /\ curr_layer it' = layer /\
      exists l, nthZ (DS_layers ds) layer = Some l /\ In f (L_rest l) /\
                passes l f = true
  | None =>
      done it' = true /\ forall i, 0 <= i < nlayers it -> yields_nothing ds' i
  end.
Proof.
  induction fuel as [|fuel IH]; intros it ds d r it' ds' d' (Hc & Hh & Hf);
    cbn [fetch_layers]; [discriminate|].
  rewrite Hh.
  destruct (OGR_L_GetNextFeature ds (ds_getlayerbyindex ds (curr_layer it)))
    as [[f|] ds1] eqn:Eread;
    apply read_step in Eread; destruct Eread as (Hadv & Hread).
  - (* a feature was read *)
    cbn [with_nonempty curr_layer].
    assert (Hwf1 : legacy_wf (with_nonempty it true) ds1).
    { split; [cbn; lia|]. split; cbn.
      - rewrite (advanced_getlayer _ _ _ Hadv). assumption.
      - discriminate. }
    destruct (Z.eqb_spec (curr_layer it) layer) as [Heq|Hne]; cbn [negb].
    + intros E; inversion E; subst r it' ds' d'; clear E.
      split; [assumption|]. split; [reflexivity|]. split.
      * exists []. rewrite app_nil_r. split; [reflexivity|]. intros ? [].
      * split; [assumption|]. split; [assumption|]. rewrite <- Heq. assumption.
    + intros E. apply IH in E; [|assumption].
      destruct E as (Hadv' & Hn & (extra & Hd & Hex) & Hr).
      split; [eapply advanced_trans; eauto|]. split; [assumption|]. split.
      * exists (f :: extra). split.
        -- rewrite Hd, <- app_assoc. reflexivity.
        -- intros g [<-|Hin].
           ++ destruct Hread as (l & El & Inl & _). exists (curr_layer it), l; auto.
           ++ eapply from_other_layers_advanced; eauto.
      * destruct r as [g|]; [|exact Hr].
        destruct Hr as (Hwf' & Hcl & l1 & El1 & In1 & P1).
        split; [assumption|]. split; [assumption|].
        destruct (in_rest_advanced ds ds1 layer l1 g Hadv El1 In1) as (l & El & Inl & Pl).
        exists l. repeat split; auto. congruence.
  - (* the layer gave NULL *)
    cbn [with_curr curr_layer nlayers has_nonempty_layers].
    assert (Hsofar : has_nonempty_layers it = false ->
                     forall i, 0 <= i < curr_layer it + 1 -> yields_nothing ds1 i).
    { intros Hfl i Hi. destruct (Z.eq_dec i (curr_layer it)) as [->|Hne].
      - assumption.
      - eapply yields_nothing_advanced; [eassumption|]. apply Hf; [assumption | lia]. }
    assert (Hfinish : forall it1 r it' ds' d',
               legacy_wf it1 ds1 -> nlayers it1 = nlayers it ->
               fetch_layers fuel layer it1 ds1 d = Ret (r, it', ds', d') ->
               advanced ds ds' /\ nlayers it' = nlayers it /\
               (exists extra, d' = d ++ extra /\ from_other_layers ds layer extra) /\
               match r with
               | Some f =>
                   legacy_wf it' ds' /\ curr_layer it' = layer /\
                   exists l, nthZ (DS_layers ds) layer = Some l /\ In f (L_rest l) /\
                             passes l f = true
               | None =>
                   done it' = true /\
                   forall i, 0 <= i < nlayers it -> yields_nothing ds' i
               end).
    { intros it1 r0 it0 ds0 d0 Hwf1 Hn1 E. apply IH in E; [|assumption].
      destruct E as (Hadv' & Hn & (extra & Hd & Hex) & Hr).
      split; [eapply advanced_trans; eauto|]. split; [congruence|]. split.
      - exists extra. split; [assumption|].
        eapply from_other_layers_advanced; eauto.
      - destruct r0 as [g|].
        + destruct Hr as (Hwf' & Hcl & l1 & El1 & In1 & P1).
          split; [assumption|]. split; [assumption|].
          destruct (in_rest_advanced ds ds1 layer l1 g Hadv El1 In1)
            as (l & El & Inl & Pl).
          exists l. repeat split; auto. congruence.
        + rewrite Hn1 in Hr. exact Hr. }
    destruct (Z.eqb_spec (curr_layer it + 1) (nlayers it)) as [Hlast|Hmore].
    + destruct (has_nonempty_layers it) eqn:Hfl; cbn [negb].
      * apply Hfinish; [|reflexivity].
        split; [cbn; lia|]. split; cbn; [reflexivity|]. intros _ i Hi. lia.
      * intros E; inversion E; subst r it' ds' d'; clear E.
        split; [assumption|]. split; [reflexivity|]. split.
        -- exists []. rewrite app_nil_r. split; [reflexivity|]. intros ? [].
        -- split; [reflexivity|]. intros i Hi. apply Hsofar; [reflexivity | lia].
    + apply Hfinish; [|reflexivity].
      split; [cbn; lia|]. split; cbn; [reflexivity | assumption].
Qed.







(** ... and a call that returns a feature leaves it in such a state. *)
Lemma legacy_wf_preserved fuel layer it ds d f it' ds' d' :
  legacy_wf it ds ->
  fetch_layers fuel layer it ds d = Ret (Some f, it', ds', d') ->
  legacy_wf it' ds'.
Proof.
  intros Hwf E. apply fetch_layers_spec in E; [|assumption].
  destruct E as (_ & _ & _ & Hwf' & _). exact Hwf'.
Qed.





(** *** Reading a layer to its end *)

(** The loops of [main] over the features of a layer,
    [while ((Ogr_feature = ogr_getnextfeature(...)) != NULL)]: they stop at
    the first [NULL].  [calls] bounds the number of calls; the features
    returned are collected in the order in which they come. *)
Fixpoint read_layer (calls fuel : nat) (it : OGR_iterator) (ds : DataSource)
    (layer : Z) (layer_name : string)
    (poSpatialFilter : option SFilter) (attr_filter : option string)
    : result (list Feature * OGR_iterator * DataSource) :=
  match calls with
  | O => OutOfFuel
  | S calls' =>
      match ogr_getnextfeature fuel it ds layer layer_name
                               poSpatialFilter attr_filter with
      | Ret (Some f, it1, ds1, _) =>
          match read_layer calls' fuel it1 ds1 layer layer_name
                           poSpatialFilter attr_filter with
          | Ret (fs, it2, ds2) => Ret (f :: fs, it2, ds2)
          | Fatal msg => Fatal msg
          | OutOfFuel => OutOfFuel
          end
      | Ret (None, it1, ds1, _) => Ret ([], it1, ds1)
      | Fatal msg => Fatal msg
      | OutOfFuel => OutOfFuel
      end
  end.

(** What a pair of filters lets through. *)
Definition accepted (sf : option SFilter) (af : option string) (f : Feature) : bool :=
  match sf with Some g => sf_pass g f | None => true end &&
  match af with Some q => af_pass q f | None => true end.

(** The feature of the shared stream belongs to the layer of index [layer]. *)
Definition owned_by (layer : Z) (e : option Z * Feature) : bool :=
  match fst e with Some i => i =? layer | None => false end.

(** [layer] is the one layer of the data source that bears the name
    [name], and the name is not empty. *)
Definition names_layer (ds : DataSource) (name : string) (layer : Z) : Prop :=
  name <> EmptyString /\
  forall i, OGR_L_GetName ds i = name <-> i = layer.

(** The shared stream and the layers tell the same story: a layer holds
    the features of the stream that belong to it, in the order of the
    stream. *)
Definition consistent (ds : DataSource) : Prop :=
  forall i l, nthZ (DS_layers ds) i = Some l ->
              L_features l = map snd (filter (owned_by i) (DS_stream ds)).

(** The iterator reads layer [layer] through the cursor of that layer. *)
Definition own_cursor (it : OGR_iterator) (layer : Z) : Prop :=
  ogr_interleaved_reading it = false /\ requested_layer it = layer /\
  done it = false /\ Ogr_layer it = Some layer.

(** The iterator reads layer [layer] through the cursor of the data
    source. *)
Definition shared_cursor (it : OGR_iterator) (layer : Z) : Prop :=
  ogr_interleaved_reading it = true /\ requested_layer it = layer /\
  done it = false.

Lemma next_passing_filter l rest :
  match next_passing l rest with
  | (Some f, rest') =>
      filter (passes l) rest = f :: filter (passes l) rest' /\
      (length rest' < length rest)%nat
  | (None, rest') => filter (passes l) rest = [] /\ rest' = []
  end.
Proof.
  induction rest as [|f tl IH]; simpl; auto.
  destruct (passes l f) eqn:P.
  - split; [reflexivity | lia].
  - destruct (next_passing l tl) as [[f'|] rest'].
    + destruct IH; split; [assumption | lia].
    + assumption.
Qed.

(** The first call for a layer reads in the state left by the reset
    block, and so does the loop. *)
Lemma read_layer_after_reset calls fuel it ds layer name sf af it1 ds1 :
  requested_layer it <> layer ->
  reset_reading it ds layer sf af = Ret (it1, ds1) ->
  read_layer calls fuel it ds layer name sf af
  = read_layer calls fuel it1 ds1 layer name sf af.
Proof.
  intros Hne Hr. destruct calls as [|calls]; [reflexivity|].
  cbn [read_layer].
  assert (E : ogr_getnextfeature fuel it ds layer name sf af
              = ogr_getnextfeature fuel it1 ds1 layer name sf af).
  { unfold ogr_getnextfeature.
    destruct (Z.eqb_spec (requested_layer it) layer); [contradiction|].
    cbn [negb]. rewrite Hr.
    apply reset_reading_requested in Hr. destruct Hr as [-> _].
    rewrite Z.eqb_refl. reflexivity. }
  rewrite E. reflexivity.
Qed.

Lemma read_layer_own_cursor fuel layer name sf af : forall calls it ds l,
  own_cursor it layer ->
  nthZ (DS_layers ds) layer = Some l ->
  (length (L_rest l) < calls)%nat ->
  exists it' ds',
    read_layer calls fuel it ds layer name sf af
    = Ret (filter (passes l) (L_rest l), it', ds') /\
    done it' = true /\ requested_layer it' = layer /\
    ogr_interleaved_reading it' = false /\ nlayers it' = nlayers it /\
    DS_stream ds' = DS_stream ds /\ DS_rest ds' = DS_rest ds /\
    forall j, nthZ (DS_layers ds') j =
              if layer =? j
              then Some (mkLayer (L_name l) (L_features l) []
                                 (L_spatial l) (L_attr l))
              else nthZ (DS_layers ds) j.
Proof.
  induction calls as [|calls IH]; intros it ds l (Hm & Hq & Hd & Hh) El Hc; [lia|].
  cbn [read_layer]. unfold ogr_getnextfeature, fetch.
  rewrite Hq, Z.eqb_refl, Hd, Hm, Hh. cbn [negb].
  unfold OGR_L_GetNextFeature. cbn [handle_layer]. rewrite El.
  pose proof (next_passing_filter l (L_rest l)) as Hn.
  destruct (next_passing l (L_rest l)) as [[f|] rest'].
  - destruct Hn as (Hf & Hlen).
    set (g := fun l0 : OGRLayer =>
                mkLayer (L_name l0) (L_features l0) rest' (L_spatial l0) (L_attr l0)).
    destruct (modify_layer_stream ds (Some layer) g) as (Ms & Mr & _).
    assert (E1 : nthZ (DS_layers (modify_layer ds (Some layer) g)) layer = Some (g l)).
    { rewrite modify_layer_nth, Z.eqb_refl, El. reflexivity. }
    destruct (IH it (modify_layer ds (Some layer) g) (g l))
      as (it' & ds' & E & H1 & H2 & H3 & H4 & H5 & H6 & H7).
    + repeat split; assumption.
    + assumption.
    + cbn. lia.
    + rewrite E. exists it', ds'. rewrite Hf.
      split; [reflexivity|]. repeat split; try congruence.
      intros j. rewrite H7, modify_layer_nth.
      destruct (layer =? j); reflexivity.
  - destruct Hn as (Hf & ->). rewrite Hf.
    set (g := fun l0 : OGRLayer =>
                mkLayer (L_name l0) (L_features l0) [] (L_spatial l0) (L_attr l0)).
    destruct (modify_layer_stream ds (Some layer) g) as (Ms & Mr & _).
    eexists; eexists; split; [reflexivity|].
    repeat split; auto.
    intros j. rewrite modify_layer_nth.
    destruct (Z.eqb_spec layer j) as [<-|]; [rewrite El|]; reflexivity.
Qed.

(** A whole pass over a layer through its own cursor, with what it leaves
    behind. *)
Lemma own_cursor_pass calls fuel it ds layer name sf af l :
  ogr_interleaved_reading it = false ->
  requested_layer it <> layer ->
  nthZ (DS_layers ds) layer = Some l ->
  (length (L_features l) < calls)%nat ->
  exists it' ds',
    read_layer calls fuel it ds layer name sf af
    = Ret (filter (passes l) (L_features l), it', ds') /\
    done it' = true /\ ogr_interleaved_reading it' = false /\
    DS_stream ds' = DS_stream ds /\ DS_rest ds' = DS_rest ds /\
    forall j, nthZ (DS_layers ds') j =
              if layer =? j
              then Some (mkLayer (L_name l) (L_features l) []
                                 (L_spatial l) (L_attr l))
              else nthZ (DS_layers ds) j.
Proof.
  intros Hm Hne El Hc.
  pose proof (nthZ_Some_range _ _ _ El) as Hr.
  set (g := fun l0 : OGRLayer =>
              mkLayer (L_name l0) (L_features l0) (L_features l0)
                      (L_spatial l0) (L_attr l0)).
  assert (Hreset : reset_reading it ds layer sf af
                   = Ret (with_done
                            (with_requested
                               (with_featuredefn
                                  (with_layer (with_curr it layer) (Some layer))
                                  (Some layer)) layer) false,
                          modify_layer ds (Some layer) g)).
  { unfold reset_reading. rewrite Hm. cbn [negb with_curr curr_layer].
    rewrite (getlayer_in_range ds layer Hr). reflexivity. }
  rewrite (read_layer_after_reset calls fuel _ _ _ name _ _ _ _ Hne Hreset).
  destruct (modify_layer_stream ds (Some layer) g) as (Ms & Mr & _).
  destruct (read_layer_own_cursor fuel layer name sf af calls
              (with_done
                 (with_requested
                    (with_featuredefn
                       (with_layer (with_curr it layer) (Some layer))
                       (Some layer)) layer) false)
              (modify_layer ds (Some layer) g) (g l))
    as (it' & ds' & E & H1 & _ & H3 & _ & H5 & H6 & H7).
  - repeat split; cbn; auto.
  - rewrite modify_layer_nth, Z.eqb_refl, El. reflexivity.
  - cbn. assumption.
  - exists it', ds'. split; [exact E|]. repeat split; try congruence.
    intros j. rewrite H7, modify_layer_nth.
    destruct (Z.eqb_spec layer j); reflexivity.
Qed.


(** **** Through the shared cursor (GDAL 2.2+) *)

Lemma filter_none {A : Type} (p : A -> bool) (l : list A) :
  Forall (fun x => p x = false) l -> filter p l = [].
Proof.
  induction 1 as [|x tl P _ IH]; simpl; auto. rewrite P. assumption.
Qed.

Lemma filter_shorter {A : Type} (p : A -> bool) (l : list A) :
  (length (filter p l) <= length l)%nat.
Proof.
  induction l as [|x tl IH]; simpl; auto.
  destruct (p x); simpl; lia.
Qed.

Lemma filter_filter_and {A : Type} (p q : A -> bool) (l : list A) :
  filter q (filter p l) = filter (fun x => p x && q x) l.
Proof.
  induction l as [|x tl IH]; simpl; auto.
  destruct (p x); simpl; [destruct (q x)|]; rewrite IH; reflexivity.
Qed.

Lemma dataset_next_stream ds :
  DS_stream (snd (GDALDatasetGetNextFeature ds)) = DS_stream ds.
Proof.
  unfold GDALDatasetGetNextFeature.
  destruct (next_visible ds (DS_rest ds)); reflexivity.
Qed.

Lemma fetch_dataset_progress fuel name : forall it ds d r it' ds' d',
  fetch_dataset fuel name it ds d = Ret (r, it', ds', d') ->
  DS_stream ds' = DS_stream ds /\
  ogr_interleaved_reading it' = ogr_interleaved_reading it /\
  nlayers it' = nlayers it /\
  (r <> None ->
   done it' = done it /\ (length (DS_rest ds') < length (DS_rest ds))%nat).
Proof.
  induction fuel as [|fuel IH]; intros it ds d r it' ds' d'; simpl.
  - discriminate.
  - pose proof (dataset_next_spec ds) as Hn.
    pose proof (dataset_next_stream ds) as Hs.
    destruct (GDALDatasetGetNextFeature ds) as [[[f o]|] ds1]; cbn [snd] in Hs.
    + destruct Hn as (_ & Hlen & _).
      destruct (owner_matches ds1 o name).
      * intros E; inversion E; subst. cbn. repeat split; auto.
      * intros E. apply IH in E. cbn in E.
        destruct E as (E1 & E2 & E3 & E4).
        repeat split; try congruence.
        -- apply E4; assumption.
        -- apply E4 in H. lia.
    + intros E; inversion E; subst. cbn. repeat split; auto; congruence.
Qed.

Lemma read_layer_shared_cursor fuel layer name sf af : forall calls it ds,
  gdal_ge_2_2 = true ->
  shared_cursor it layer ->
  (length (DS_rest ds) < calls)%nat ->
  (length (DS_rest ds) < fuel)%nat ->
  exists it' ds',
    read_layer calls fuel it ds layer name sf af
    = Ret (map snd (filter (fun e => owner_matches ds (fst e) name) (pending ds)),
           it', ds') /\
    done it' = true /\ requested_layer it' = layer /\
    ogr_interleaved_reading it' = true /\ nlayers it' = nlayers it /\
    DS_stream ds' = DS_stream ds /\ DS_layers ds' = DS_layers ds.
Proof.
  induction calls as [|calls IH]; intros it ds Hg (Hm & Hq & Hd) Hc Hfuel; [lia|].
  cbn [read_layer]. unfold ogr_getnextfeature, fetch.
  rewrite Hq, Z.eqb_refl, Hd, Hm, Hg. cbn [negb].
  destruct (fetch_dataset_terminates fuel name it ds [] Hfuel)
    as ([[[r it1] ds1] d1] & E).
  rewrite E.
  pose proof (fetch_dataset_spec _ _ _ _ _ _ _ _ _ E) as (Hl & Hspec).
  pose proof (fetch_dataset_progress _ _ _ _ _ _ _ _ _ E) as (Hs & Hi & Hn & Hp).
  pose proof (fetch_dataset_requested _ _ _ _ _ _ _ _ _ E) as (Hrq & _).
  destruct r as [f|].
  - destruct Hspec as (pre & o & E1 & E2 & E3 & _).
    destruct Hp as (Hd1 & Hlen); [discriminate|].
    destruct (IH it1 ds1 Hg) as (it' & ds' & E' & H1 & H2 & H3 & H4 & H5 & H6).
    + repeat split; congruence.
    + lia.
    + lia.
    + rewrite E'. exists it', ds'. split.
      * rewrite E1, filter_app. cbn [filter fst]. rewrite E3.
        rewrite (filter_none _ pre) by exact E2. cbn [app map snd].
        assert (Hx : forall e : option Z * Feature,
                   owner_matches ds1 (fst e) name = owner_matches ds (fst e) name).
        { intros e. apply owner_matches_layers. assumption. }
        rewrite (filter_ext _ _ Hx). reflexivity.
      * repeat split; congruence.
  - destruct Hspec as (E1 & _ & _ & E4).
    exists it1, ds1. split.
    + rewrite (filter_none _ (pending ds)) by exact E1. reflexivity.
    + repeat split; congruence.
Qed.

(** The reset block in this mode. *)
Lemma shared_cursor_after_reset it ds layer sf af :
  gdal_ge_2_2 = true -> ogr_interleaved_reading it = true ->
  nlayers it = Z.of_nat (length (DS_layers ds)) ->
  0 <= layer < nlayers it ->
  filter_acceptable af ->
  exists it1 ds1,
    reset_reading it ds layer sf af = Ret (it1, ds1) /\
    shared_cursor it1 layer /\ nlayers it1 = nlayers it /\
    DS_stream ds1 = DS_stream ds /\ DS_rest ds1 = DS_stream ds /\
    length (DS_layers ds1) = length (DS_layers ds) /\
    forall j,
      nthZ (DS_layers ds1) j =
      option_map (fun l => mkLayer (L_name l) (L_features l) (L_rest l)
                                   (if layer =? j then sf else None)
                                   (if layer =? j then af else None))
                 (nthZ (DS_layers ds) j).
Proof.
  intros Hg Hm Hn Hr Haf. unfold reset_reading. rewrite Hm, Hg. cbn [negb].
  assert (Hpos : (0 <? nlayers it) = true) by (apply Z.ltb_lt; lia).
  rewrite Hpos.
  set (ds1 := clear_filters (Z.to_nat (nlayers it)) 0 ds).
  destruct (clear_filters_stream (Z.to_nat (nlayers it)) 0 ds) as (Cs & Cr & Cl).
  fold ds1 in Cs, Cr, Cl.
  set (ds2 := GDALDatasetResetReading ds1).
  assert (Hr2 : 0 <= layer < Z.of_nat (length (DS_layers ds2))).
  { unfold ds2; simpl. lia. }
  destruct (set_filters_state ds2 layer sf af Hr2 Haf)
    as (ds4 & E4 & S4 & R4 & L4 & N4).
  cbn [with_layer with_featuredefn Ogr_layer].
  rewrite E4.
  eexists; eexists; split; [reflexivity|].
  split; [repeat split; cbn; auto|].
  split; [reflexivity|].
  split; [rewrite S4; unfold ds2; cbn; assumption|].
  split; [rewrite R4; unfold ds2; cbn; assumption|].
  split; [rewrite L4; unfold ds2; cbn; assumption|].
  intros j. rewrite N4. unfold ds2; cbn [GDALDatasetResetReading set_rest DS_layers].
  unfold ds1. rewrite clear_filters_nth.
  destruct (nthZ (DS_layers ds) j) as [l0|] eqn:E0.
  - apply nthZ_Some_range in E0.
    destruct (Z.leb_spec 0 j), (Z.ltb_spec j (0 + Z.of_nat (Z.to_nat (nlayers it))));
      try lia.
    cbn. destruct (layer =? j); reflexivity.
  - destruct ((0 <=? j) && (j <? 0 + Z.of_nat (Z.to_nat (nlayers it))));
      destruct (layer =? j); reflexivity.
Qed.

Lemma names_layer_owner ds name layer e :
  names_layer ds name layer ->
  owner_matches ds (fst e) name = owned_by layer e.
Proof.
  intros (Hne & Hnm). destruct e as [[i|] f]; cbn; [|reflexivity].
  unfold name_matches.
  destruct (Z.eqb_spec i layer) as [->|Hi].
  - rewrite (proj2 (Hnm layer) eq_refl). rewrite String.eqb_refl.
    destruct (String.eqb_spec name EmptyString); [contradiction | reflexivity].
  - destruct (String.eqb_spec (OGR_L_GetName ds i) name) as [En|];
      [|apply andb_false_r].
    apply Hnm in En. contradiction.
Qed.

Lemma shared_view ds ds1 name layer sf af :
  names_layer ds name layer ->
  (forall j,
      nthZ (DS_layers ds1) j =
      option_map (fun l => mkLayer (L_name l) (L_features l) (L_rest l)
                                   (if layer =? j then sf else None)
                                   (if layer =? j then af else None))
                 (nthZ (DS_layers ds) j)) ->
  names_layer ds1 name layer /\
  forall e, visible ds1 e && owner_matches ds1 (fst e) name
            = owned_by layer e && accepted sf af (snd e).
Proof.
  intros Hnl Hl.
  assert (Hname : forall i, OGR_L_GetName ds1 i = OGR_L_GetName ds i).
  { intros i. unfold OGR_L_GetName. rewrite Hl.
    destruct (nthZ (DS_layers ds) i); reflexivity. }
  assert (Hnl1 : names_layer ds1 name layer).
  { destruct Hnl as (Hne & Hnm). split; [assumption|].
    intros i. rewrite Hname. apply Hnm. }
  split; [assumption|].
  intros e. rewrite (names_layer_owner ds1 name layer e Hnl1).
  destruct e as [[i|] f]; cbn; [|reflexivity].
  destruct (Z.eqb_spec i layer) as [->|Hi]; [|apply andb_false_r].
  rewrite andb_true_r. cbn [andb]. unfold visible. cbn [fst snd handle_layer].
  rewrite Hl, Z.eqb_refl.
  destruct (nthZ (DS_layers ds) layer) as [l0|] eqn:E0; [reflexivity|].
  exfalso. destruct Hnl as (Hne & Hnm).
  pose proof (proj2 (Hnm layer) eq_refl) as Hn.
  unfold OGR_L_GetName in Hn. rewrite E0 in Hn. congruence.
Qed.

Lemma names_layer_range ds name layer :
  names_layer ds name layer -> 0 <= layer < Z.of_nat (length (DS_layers ds)).
Proof.
  intros (Hne & Hnm). pose proof (proj2 (Hnm layer) eq_refl) as Hn.
  unfold OGR_L_GetName in Hn.
  destruct (nthZ (DS_layers ds) layer) as [l0|] eqn:E0; [|congruence].
  eapply nthZ_Some_range; eassumption.
Qed.

(** A whole pass over a layer through the shared cursor, with what it
    leaves behind. *)
Lemma shared_cursor_pass calls fuel it ds layer name sf af :
  gdal_ge_2_2 = true -> ogr_interleaved_reading it = true ->
  requested_layer it <> layer ->
  nlayers it = Z.of_nat (length (DS_layers ds)) ->
  names_layer ds name layer ->
  filter_acceptable af ->
  (length (DS_stream ds) < calls)%nat ->
  (length (DS_stream ds) < fuel)%nat ->
  exists it' ds',
    read_layer calls fuel it ds layer name sf af
    = Ret (map snd (filter (fun e => owned_by layer e && accepted sf af (snd e))
                           (DS_stream ds)),
           it', ds') /\
    done it' = true /\ ogr_interleaved_reading it' = true /\
    nlayers it' = nlayers it /\
    DS_stream ds' = DS_stream ds /\
    length (DS_layers ds') = length (DS_layers ds) /\
    names_layer ds' name layer.
Proof.
  intros Hg Hm Hne Hn Hnl Haf Hc Hfuel.
  pose proof (names_layer_range _ _ _ Hnl) as Hr.
  destruct (shared_cursor_after_reset it ds layer sf af Hg Hm Hn)
    as (it1 & ds1 & Hreset & Hsh & Hn1 & Hs1 & Hr1 & Hl1 & Hnth); [lia | assumption |].
  rewrite (read_layer_after_reset calls fuel _ _ _ name _ _ _ _ Hne Hreset).
  destruct (shared_view ds ds1 name layer sf af Hnl Hnth) as (Hnl1 & Hview).
  destruct (read_layer_shared_cursor fuel layer name sf af calls it1 ds1 Hg Hsh)
    as (it' & ds' & E & H1 & H2 & H3 & H4 & H5 & H6).
  - rewrite Hr1. assumption.
  - rewrite Hr1. assumption.
  - exists it', ds'. split.
    + rewrite E. unfold pending. rewrite Hr1, filter_filter_and.
      rewrite (filter_ext _ _ Hview). reflexivity.
    + repeat split; try congruence.
      * destruct Hnl1 as (Hne1 & _). assumption.
      * intros En. destruct Hnl1 as (_ & Hnm). apply Hnm.
        unfold OGR_L_GetName in *. rewrite <- H6. assumption.
      * intros ->. destruct Hnl1 as (_ & Hnm).
        unfold OGR_L_GetName. rewrite H6. apply Hnm. reflexivity.
Qed.


(** **** Layer by layer (GDAL before 2.2) *)







(** **** The modes compared, and a pass repeated *)

Lemma filter_map_snd {A B : Type} (p : B -> bool) (l : list (A * B)) :
  filter p (map snd l) = map snd (filter (fun e => p (snd e)) l).
Proof.
  induction l as [|e tl IH]; simpl; auto.
  destruct (p (snd e)); simpl; rewrite IH; reflexivity.
Qed.

(** X3.  When the shared stream and the layers of the data source hold
    the same features, and the layer carries the filters that the calls
    pass, reading a layer to its end returns the same features in the same
    order with independent cursors as through the shared cursor of GDAL
    2.2+. *)
Theorem reading_modes_agree calls fuel it_own it_shared ds layer name sf af l :
  gdal_ge_2_2 = true ->
  ogr_interleaved_reading it_own = false ->
  ogr_interleaved_reading it_shared = true ->
  requested_layer it_own <> layer ->
  requested_layer it_shared <> layer ->
  nlayers it_shared = Z.of_nat (length (DS_layers ds)) ->
  names_layer ds name layer ->
  consistent ds ->
  nthZ (DS_layers ds) layer = Some l ->
  L_spatial l = sf -> L_attr l = af ->
  filter_acceptable af ->
  (length (DS_stream ds) < calls)%nat ->
  (length (DS_stream ds) < fuel)%nat ->
  exists fs it1 ds1 it2 ds2,
    read_layer calls fuel it_own ds layer name sf af = Ret (fs, it1, ds1) /\
    read_layer calls fuel it_shared ds layer name sf af = Ret (fs, it2, ds2).
Proof.
  intros Hg Hown Hsh Hne1 Hne2 Hn Hnl Hcons El Hsf Haf Hok Hc Hfuel.
  pose proof (Hcons layer l El) as Hfs.
  destruct (own_cursor_pass calls fuel it_own ds layer name sf af l Hown Hne1 El)
    as (it1 & ds1 & E1 & _).
  { rewrite Hfs, length_map.
    pose proof (filter_shorter (owned_by layer) (DS_stream ds)). lia. }
  destruct (shared_cursor_pass calls fuel it_shared ds layer name sf af
              Hg Hsh Hne2 Hn Hnl Hok Hc Hfuel) as (it2 & ds2 & E2 & _).
  exists (filter (passes l) (L_features l)), it1, ds1, it2, ds2.
  split; [exact E1|]. rewrite E2. do 3 f_equal.
  rewrite Hfs, filter_map_snd, filter_filter_and.
  unfold passes, accepted. rewrite Hsf, Haf. reflexivity.
Qed.

(** What a pass over a layer needs in order to come to its end: with
    independent cursors only calls enough for the features of the layer;
    through the shared cursor, GDAL 2.2+, an iterator that knows all the
    layers, a name that is that of the layer alone, a where-clause that the
    source accepts, and calls and fuel enough for the stream. *)
Definition pass_possible (it : OGR_iterator) (ds : DataSource) (layer : Z)
    (name : string) (af : option string) (calls fuel : nat) : Prop :=
  if ogr_interleaved_reading it then
    gdal_ge_2_2 = true /\
    nlayers it = Z.of_nat (length (DS_layers ds)) /\
    names_layer ds name layer /\ filter_acceptable af /\
    (length (DS_stream ds) < calls)%nat /\ (length (DS_stream ds) < fuel)%nat
  else
    exists l, nthZ (DS_layers ds) layer = Some l /\
              (length (L_features l) < calls)%nat.

(** X4.  A pass over a layer returns, and when [OGR_iterator_reset] is
    called after it, a second pass over the same layer with the same
    filters returns the same features in the same order: the passes of
    [main] see the same features. *)
Theorem second_pass_reads_the_same calls fuel it ds layer name sf af :
  requested_layer it <> layer ->
  pass_possible it ds layer name af calls fuel ->
  exists fs it1 ds1 it2 ds2,
    read_layer calls fuel it ds layer name sf af = Ret (fs, it1, ds1) /\
    read_layer calls fuel (fst (OGR_iterator_reset it1 ds1))
               (snd (OGR_iterator_reset it1 ds1)) layer name sf af
    = Ret (fs, it2, ds2).
Proof.
  intros Hne Hp. unfold pass_possible in Hp.
  destruct (ogr_interleaved_reading it) eqn:Hm.
  - destruct Hp as (Hg & Hn & Hnl & Hok & Hc & Hfuel).
    destruct (shared_cursor_pass calls fuel it ds layer name sf af
                Hg Hm Hne Hn Hnl Hok Hc Hfuel)
      as (it1 & ds1 & E1 & _ & Hm1 & Hn1 & Hs1 & Hl1 & Hnl1).
    pose proof (names_layer_range _ _ _ Hnl) as Hr.
    destruct (shared_cursor_pass calls fuel (fst (OGR_iterator_reset it1 ds1))
                (snd (OGR_iterator_reset it1 ds1)) layer name sf af)
      as (it2 & ds2 & E2 & _); try assumption.
    + cbn. lia.
    + cbn. rewrite Hg. cbn. lia.
    + cbn. rewrite Hg. cbn. exact Hnl1.
    + cbn. rewrite Hg. cbn. rewrite Hs1. assumption.
    + cbn. rewrite Hg. cbn. rewrite Hs1. assumption.
    + revert E2. cbn. rewrite Hg. cbn [DS_stream GDALDatasetResetReading set_rest].
      rewrite Hs1. intros E2.
      eexists; exists it1, ds1, it2, ds2. split; [exact E1 | exact E2].
  - destruct Hp as (l & El & Hc).
    destruct (own_cursor_pass calls fuel it ds layer name sf af l Hm Hne El Hc)
      as (it1 & ds1 & E1 & _ & Hm1 & _ & _ & Hl1).
    pose proof (nthZ_Some_range _ _ _ El) as Hr.
    destruct (own_cursor_pass calls fuel (fst (OGR_iterator_reset it1 ds1))
                (snd (OGR_iterator_reset it1 ds1)) layer name sf af
                (mkLayer (L_name l) (L_features l) [] (L_spatial l) (L_attr l)))
      as (it2 & ds2 & E2 & _).
    + assumption.
    + cbn. lia.
    + cbn. destruct gdal_ge_2_2; cbn; rewrite Hl1, Z.eqb_refl; reflexivity.
    + cbn. assumption.
    + eexists; exists it1, ds1, it2, ds2. split; [exact E1 | exact E2].
Qed.

End Source.

(** *** A small data source to run the iterator on *)

(** Features are numbers; the spatial filter [g] lets through the features
    up to [g]; every where-clause but ["bad"] is accepted and lets
    everything through. *)
Local Open Scope string_scope.

Definition demo_layers : list (OGRLayer Z Z) :=
  [ mkLayer Z Z "roads" [1; 2] [1; 2] None None;
    mkLayer Z Z "lakes" [10] [10] None None ].

Definition demo_stream : list (option Z * Z) :=
  [ (Some 1, 10); (Some 0, 1); (None, 99); (Some 0, 2) ].

Definition demo_ds : DataSource Z Z := mkDS Z Z demo_layers demo_stream demo_stream.

Definition demo_sf (g f : Z) : bool := Z.leb f g.
Definition demo_af (q : string) (f : Z) : bool := true.
Definition demo_valid (q : string) : bool := negb (String.eqb q "bad").
Definition demo_open (name : string) : option (DataSource Z Z) := Some demo_ds.

Definition demo_next (gdal : bool) :=
  ogr_getnextfeature Z Z demo_sf demo_af demo_valid gdal demo_open.

Definition demo_it (interleaved : bool) : OGR_iterator :=
  OGR_iterator_init "demo" 2 interleaved.

(** The same source with a filter on each layer. *)
Definition demo_filtered : DataSource Z Z :=
  mkDS Z Z
    [ mkLayer Z Z "roads" [1; 2] [2] (Some 1) None;
      mkLayer Z Z "lakes" [10] [] None (Some "kind = 1") ]
    demo_stream [(Some 0, 2)].

(** Independent cursors: the states after the one feature of "lakes" has
    been read, and after the [NULL] that follows. *)
Definition lakes_ds : DataSource Z Z :=
  mkDS Z Z
    [ mkLayer Z Z "roads" [1; 2] [1; 2] None None;
      mkLayer Z Z "lakes" [10] [] None None ]
    demo_stream demo_stream.
Definition lakes_read_it : OGR_iterator :=
  mkIter "demo" 2 false false (Some 1) (Some 1) 1 1 false.
Definition lakes_done_it : OGR_iterator :=
  mkIter "demo" 2 false false None (Some 1) 1 1 true.

Example independent_first_read :
  demo_next true 0 (demo_it false) demo_ds 1 "lakes" None None
  = Ret (Some 10, lakes_read_it, lakes_ds, []).
Proof. reflexivity. Qed.

Example shared_cursor_skips_lakes :
  exists it' ds',
    demo_next true 5 (demo_it true) demo_ds 0 "roads" None None
    = Ret (Some 1, it', ds', [10]) /\
    DS_rest Z Z ds' = [(None, 99); (Some 0, 2)].
Proof. eexists; eexists; split; [vm_compute; reflexivity | reflexivity]. Qed.

Example layer_by_layer_skips_roads :
  exists it' ds',
    demo_next false 5 (demo_it true) demo_ds 1 "lakes" None None
    = Ret (Some 10, it', ds', [1; 2]) /\ curr_layer it' = 1.
Proof. eexists; eexists; split; [vm_compute; reflexivity | reflexivity]. Qed.

Lemma end_of_stream_is_sticky_witness :
  demo_next true 0 lakes_done_it lakes_ds 1 "lakes" None None
  = Ret (None, lakes_done_it, lakes_ds, []).
Proof.
  refine (proj1 (end_of_stream_is_sticky Z Z demo_sf demo_af demo_valid true demo_open
                   0 lakes_read_it lakes_ds 1 "lakes" None None
                   lakes_done_it lakes_ds [] _)
                0%nat "lakes" None None).
  vm_compute. reflexivity.
Defined.

Lemma layer_change_resets_reading_witness :
  exists it1 ds1,
    reset_reading Z Z demo_valid true demo_open (demo_it true) demo_filtered 1
                  (Some 5) (Some "kind = 2") = Ret (it1, ds1) /\
    done it1 = false /\
    (exists l, nthZ (DS_layers Z Z ds1) 1 = Some l /\
               L_spatial Z Z l = Some 5 /\ L_attr Z Z l = Some "kind = 2") /\
    (forall l, nthZ (DS_layers Z Z ds1) 0 = Some l -> no_filters Z Z l) /\
    DS_rest Z Z ds1 = demo_stream.
Proof.
  destruct (layer_change_resets_reading Z Z demo_sf demo_af demo_valid true demo_open
              0 (demo_it true) demo_filtered 1 "lakes" (Some 5)
              (Some "kind = 2"))
    as (it1 & ds1 & H1 & _ & _ & H4 & H5 & H6 & H7 & _).
  - discriminate.
  - reflexivity.
  - cbn; lia.
  - vm_compute. reflexivity.
  - discriminate.
  - exists it1, ds1.
    split; [assumption|]. split; [assumption|]. split; [assumption|].
    split; [|assumption].
    intros l Hl. apply (H5 0 l); [lia | assumption].
Defined.


(** *** Whole passes over the small data source *)

Definition demo_read (gdal : bool) :=
  read_layer Z Z demo_sf demo_af demo_valid gdal demo_open.

Lemma demo_layer_cases (ds : DataSource Z Z) i l :
  length (DS_layers Z Z ds) = 2%nat ->
  nthZ (DS_layers Z Z ds) i = Some l -> i = 0 \/ i = 1.
Proof.
  intros Hlen E. apply nthZ_Some_range in E. rewrite Hlen in E. lia.
Qed.

Lemma demo_names_roads : names_layer Z Z demo_ds "roads" 0.
Proof.
  split; [discriminate|]. intros i. split.
  - unfold OGR_L_GetName.
    destruct (nthZ (DS_layers Z Z demo_ds) i) as [l|] eqn:E; [|discriminate].
    destruct (demo_layer_cases demo_ds i l eq_refl E) as [->| ->]; cbn in E;
      inversion E; subst; cbn; [reflexivity | discriminate].
  - intros ->. reflexivity.
Qed.

Lemma demo_consistent : consistent Z Z demo_ds.
Proof.
  intros i l E.
  destruct (demo_layer_cases demo_ds i l eq_refl E) as [->| ->]; cbn in E;
    inversion E; subst; reflexivity.
Qed.




Lemma reading_modes_agree_witness :
  exists fs it1 ds1 it2 ds2,
    demo_read true 5 5 (demo_it false) demo_ds 0 "roads" None None
    = Ret (fs, it1, ds1) /\
    demo_read true 5 5 (demo_it true) demo_ds 0 "roads" None None
    = Ret (fs, it2, ds2).
Proof.
  apply (reading_modes_agree Z Z demo_sf demo_af demo_valid true demo_open
           5 5 (demo_it false) (demo_it true) demo_ds 0 "roads" None None
           (mkLayer Z Z "roads" [1; 2] [1; 2] None None)).
  - reflexivity.
  - reflexivity.
  - reflexivity.
  - discriminate.
  - discriminate.
  - reflexivity.
  - exact demo_names_roads.
  - exact demo_consistent.
  - reflexivity.
  - reflexivity.
  - reflexivity.
  - exact I.
  - cbn. lia.
  - cbn. lia.
Defined.

Lemma second_pass_reads_the_same_witness :
  exists fs it1 ds1 it2 ds2,
    demo_read true 5 5 (demo_it true) demo_ds 0 "roads" (Some 1) None
    = Ret (fs, it1, ds1) /\
    demo_read true 5 5
      (fst (OGR_iterator_reset Z Z true it1 ds1))
      (snd (OGR_iterator_reset Z Z true it1 ds1)) 0 "roads" (Some 1) None
    = Ret (fs, it2, ds2).
Proof.
  apply (second_pass_reads_the_same Z Z demo_sf demo_af demo_valid true demo_open
           5 5 (demo_it true) demo_ds 0 "roads" (Some 1) None).
  - discriminate.
  - cbn. split; [reflexivity|]. split; [reflexivity|].
    split; [exact demo_names_roads|]. split; [exact I|]. split; lia.
Defined.


End Iterator.

(** ** Calibration of the boundary splitting distance *)

Module SplitDistance.

Local Open Scope R_scope.

(** The two globals the block at "suppress boundary splitting ?" sets. *)
Record calibration : Type := mkCal {
  split_distance : R;
  area_size : R
}.

(** [flag.no_clean->answer || xmin >= xmax || ymin >= ymax] *)
Definition suppress_splitting (no_clean : bool) (xmin ymin xmax ymax : R) : bool :=
  no_clean
  || (if Rge_dec xmin xmax then true else false)
  || (if Rge_dec ymin ymax then true else false).

Definition before_census (no_clean : bool) (xmin ymin xmax ymax : R) : calibration :=
  if suppress_splitting no_clean xmin ymin xmax ymax
  then mkCal (-1) (-1)
  else mkCal 0 (sqrt ((xmax - xmin) * (ymax - ymin))).

(** After the census: [n_polygon_boundaries] is what [poly_count] has
    counted over all features of all layers. *)
Definition after_census (c : calibration) (n_polygon_boundaries : Z) : calibration :=
  if (if Rgt_dec (area_size c) 0 then true else false)
     && (50 <? n_polygon_boundaries)%Z
  then mkCal (area_size c / ln (IZR n_polygon_boundaries) / 16) (area_size c)
  else c.

Definition calibrate (no_clean : bool) (xmin ymin xmax ymax : R)
    (n_polygon_boundaries : Z) : R :=
  split_distance
    (after_census (before_census no_clean xmin ymin xmax ymax) n_polygon_boundaries).

Lemma suppress_false xmin ymin xmax ymax :
  xmin < xmax -> ymin < ymax ->
  suppress_splitting false xmin ymin xmax ymax = false.
Proof.
  intros Hx Hy. unfold suppress_splitting.
  destruct (Rge_dec xmin xmax); [lra|].
  destruct (Rge_dec ymin ymax); [lra|]. reflexivity.
Qed.

Lemma suppress_true no_clean xmin ymin xmax ymax :
  no_clean = true \/ xmin >= xmax \/ ymin >= ymax ->
  suppress_splitting no_clean xmin ymin xmax ymax = true.
Proof.
  unfold suppress_splitting. intros [->|[H|H]]; [reflexivity| |].
  - destruct (Rge_dec xmin xmax); [|contradiction].
    destruct no_clean; reflexivity.
  - destruct (Rge_dec ymin ymax); [|contradiction].
    destruct no_clean, (Rge_dec xmin xmax); reflexivity.
Qed.

Lemma calibrate_with_cleaning xmin ymin xmax ymax n :
  xmin < xmax -> ymin < ymax ->
  calibrate false xmin ymin xmax ymax n
  = if (50 <? n)%Z
    then sqrt ((xmax - xmin) * (ymax - ymin)) / ln (IZR n) / 16
    else 0.
Proof.
  intros Hx Hy. unfold calibrate, before_census.
  rewrite (suppress_false _ _ _ _ Hx Hy). unfold after_census; cbn [area_size].
  assert (Hpos : sqrt ((xmax - xmin) * (ymax - ymin)) > 0).
  { apply Rlt_gt, sqrt_lt_R0, Rmult_lt_0_compat; lra. }
  destruct (Rgt_dec (sqrt ((xmax - xmin) * (ymax - ymin))) 0); [|contradiction].
  cbn [andb]. destruct (50 <? n)%Z; reflexivity.
Qed.

(** Where [-1] comes from: cleaning disabled or a degenerate box, whatever
    the census counts. *)
Lemma splitting_suppressed no_clean xmin ymin xmax ymax n :
  no_clean = true \/ xmin >= xmax \/ ymin >= ymax ->
  calibrate no_clean xmin ymin xmax ymax n = -1.
Proof.
  intros H. unfold calibrate, before_census.
  rewrite (suppress_true _ _ _ _ _ H). unfold after_census; cbn [area_size].
  destruct (Rgt_dec (-1) 0); [lra|]. reflexivity.
Qed.

(** C1, as the code has it.  With cleaning enabled and a selection box of
    positive width and height, the splitting distance after the census is
    [sqrt(area of the box) / log(n_polygon_boundaries) / 16] when more than
    50 polygon boundaries were counted, and [0], the value it was set to
    before the census, when 50 or fewer were counted. *)
Theorem split_distance_calibration no_clean xmin ymin xmax ymax n :
  no_clean = false -> xmin < xmax -> ymin < ymax ->
  ((50 < n)%Z ->
   calibrate no_clean xmin ymin xmax ymax n
   = sqrt ((xmax - xmin) * (ymax - ymin)) / ln (IZR n) / 16) /\
  ((n <= 50)%Z -> calibrate no_clean xmin ymin xmax ymax n = 0).
Proof.
  intros -> Hx Hy. rewrite (calibrate_with_cleaning _ _ _ _ _ Hx Hy).
  split; intros Hn; destruct (Z.ltb_spec 50 n); (reflexivity || lia).
Qed.

(** The calibration scenario of the specification: 800 boundaries over a
    box of 4 by 4 map units. *)
Lemma split_distance_calibration_witness :
  calibrate false 0 0 4 4 800 = sqrt ((4 - 0) * (4 - 0)) / ln (IZR 800) / 16.
Proof.
  apply (split_distance_calibration false 0 0 4 4 800); [reflexivity|lra|lra|lia].
Defined.

(** With 10 boundaries the distance is [0], not [-1]. *)
Lemma ten_boundaries_give_zero :
  calibrate false 0 0 4 4 10 = 0 /\ calibrate false 0 0 4 4 10 <> -1.
Proof.
  assert (H : calibrate false 0 0 4 4 10 = 0).
  { rewrite calibrate_with_cleaning by lra. reflexivity. }
  split; [exact H | rewrite H; lra].
Qed.

(** X23.  After the census the splitting distance is above 0 exactly when
    cleaning is enabled, the box has a width and a height above 0 and more
    than 50 polygon boundaries were counted; it is [-1] exactly when
    cleaning is disabled or the box has no width or no height; and it has
    no value other than [-1], 0 and the numbers above 0. *)
Theorem split_distance_sign no_clean xmin ymin xmax ymax n :
  (0 < calibrate no_clean xmin ymin xmax ymax n <->
   no_clean = false /\ xmin < xmax /\ ymin < ymax /\ (50 < n)%Z) /\
  (calibrate no_clean xmin ymin xmax ymax n = -1 <->
   no_clean = true \/ xmin >= xmax \/ ymin >= ymax) /\
  (calibrate no_clean xmin ymin xmax ymax n = -1 \/
   calibrate no_clean xmin ymin xmax ymax n = 0 \/
   0 < calibrate no_clean xmin ymin xmax ymax n).
Proof.
  destruct no_clean.
  - rewrite (splitting_suppressed true xmin ymin xmax ymax n) by auto.
    split; [split; [lra | intros (H & _); discriminate]|].
    split; [split; auto | auto].
  - destruct (Rge_dec xmin xmax) as [Hx|Hx].
    { rewrite (splitting_suppressed false xmin ymin xmax ymax n) by auto.
      split; [split; [lra | intros (_ & H & _); lra]|].
      split; [split; auto | auto]. }
    destruct (Rge_dec ymin ymax) as [Hy|Hy].
    { rewrite (splitting_suppressed false xmin ymin xmax ymax n) by auto.
      split; [split; [lra | intros (_ & _ & H & _); lra]|].
      split; [split; auto | auto]. }
    rewrite (calibrate_with_cleaning xmin ymin xmax ymax n) by lra.
    destruct (Z.ltb_spec 50 n) as [Hn|Hn].
    + assert (Hs : 0 < sqrt ((xmax - xmin) * (ymax - ymin))).
      { apply sqrt_lt_R0, Rmult_lt_0_compat; lra. }
      assert (Hl : 0 < ln (IZR n)).
      { rewrite <- ln_1. apply ln_increasing; [lra|]. apply IZR_lt. lia. }
      assert (Hpos : 0 < sqrt ((xmax - xmin) * (ymax - ymin)) / ln (IZR n) / 16).
      { apply Rdiv_lt_0_compat; [|lra]. apply Rdiv_lt_0_compat; assumption. }
      split; [split; [intros _; repeat split; (reflexivity || lra || assumption)
                     | intros _; assumption]|].
      split; [|auto].
      split; [intros H; lra | intros [H|[H|H]]; [discriminate | lra | lra]].
    + split; [split; [lra | intros (_ & _ & _ & H); lia]|].
      split; [|auto].
      split; [intros H; lra | intros [H|[H|H]]; [discriminate | lra | lra]].
Qed.

End SplitDistance.

(** ** The boundary cleaning sequence *)

Module Cleaning.

Local Open Scope Z_scope.

(** The levels [main] passes to [Vect_build_partial]; the type is declared
    in the vector library. *)
Inductive build_level : Type :=
| GV_BUILD_NONE
| GV_BUILD_BASE
| GV_BUILD_AREAS
| GV_BUILD_ATTACH_ISLES.

(** The calls [main] makes to the topology library while cleaning, with
    the arguments that vary. *)
Inductive call : Type :=
| Snap_lines (type : Z) (thresh : R)
| Break_polygons (type : Z)
| Remove_duplicates (type : Z)
| Break_lines (type : Z)
| Clean_small_angles_at_nodes (type : Z)
| Merge_lines (type : Z)
| Chtype_dangles (maxlength : R)
| Remove_dangles (type : Z) (maxlength : R)
| Build_partial (level : build_level)
| Chtype_bridges
| Remove_bridges.

Definition is_bridge_call (c : call) : bool :=
  match c with Chtype_bridges | Remove_bridges => true | _ => false end.

Section Engine.

(** The topology library is outside [main.c]: a call turns a map into a map
    and reports a number (the modifications made, for the calls whose
    report [main] reads). *)
Variable Map : Type.
Variable topo : call -> Map -> Map * Z.
(** The type masks [GV_BOUNDARY] and [GV_CENTROID] are constants of the
    vector library, which [main.c] only names. *)
Variables GV_BOUNDARY GV_CENTROID : Z.

(** The temporary map together with the calls made on it so far, each with
    what it reported. *)
Definition state : Type := Map * list (call * Z).

Definition exec (c : call) (st : state) : state * Z :=
  let (m', n) := topo c (fst st) in ((m', snd st ++ [(c, n)]), n).

(** One turn of the [do ... while (nmodif > 0)] loop. *)
Definition angle_pass (st : state) : state * Z :=
  let st1 := fst (exec (Break_lines GV_BOUNDARY) st) in
  let st2 := fst (exec (Remove_duplicates GV_BOUNDARY) st1) in
  exec (Clean_small_angles_at_nodes GV_BOUNDARY) st2.

Fixpoint clean_angles_loop (fuel : nat) (st : state) : result state :=
  match fuel with
  | O => OutOfFuel
  | S fuel' =>
      let (st', nmodif) := angle_pass st in
      if 0 <? nmodif then clean_angles_loop fuel' st' else Ret st'
  end.

(** [type & GV_BOUNDARY]: lines were converted to boundaries. *)
Definition lines_as_boundaries (type : Z) : bool :=
  negb (Z.land type GV_BOUNDARY =? 0).

(** From "Cleaning polygons" to the loop. *)
Definition clean_to_loop (snap : R) (st : state) : state :=
  let st1 :=
    if Rge_dec snap 0 then fst (exec (Snap_lines GV_BOUNDARY snap) st) else st in
  let st2 := fst (exec (Break_polygons GV_BOUNDARY) st1) in
  fst (exec (Remove_duplicates (Z.lor GV_BOUNDARY GV_CENTROID)) st2).

Definition dangle_call (type : Z) : call :=
  if lines_as_boundaries type
  then Chtype_dangles (-1)
  else Remove_dangles GV_BOUNDARY (-1).

Definition bridge_call (type : Z) : call :=
  if lines_as_boundaries type then Chtype_bridges else Remove_bridges.

(** From the loop to [Vect_build_partial(&Tmp, GV_BUILD_AREAS)]. *)
Definition clean_to_areas (fuel : nat) (snap : R) (type : Z) (st : state)
    : result state :=
  match clean_angles_loop fuel (clean_to_loop snap st) with
  | Ret st4 =>
      let st5 := fst (exec (Merge_lines GV_BOUNDARY) st4) in
      let st6 := fst (exec (dangle_call type) st5) in
      Ret (fst (exec (Build_partial GV_BUILD_AREAS) st6))
  | Fatal msg => Fatal msg
  | OutOfFuel => OutOfFuel
  end.

(** From the bridges to [Vect_build_partial(&Tmp, GV_BUILD_ATTACH_ISLES)]. *)
Definition clean_bridges_and_isles (type : Z) (st : state) : state :=
  let (st1, nmodif) := exec (bridge_call type) st in
  let st2 :=
    if negb (nmodif =? 0) then fst (exec (Build_partial GV_BUILD_NONE) st1) else st1 in
  let st3 := fst (exec (Build_partial GV_BUILD_NONE) st2) in
  fst (exec (Build_partial GV_BUILD_ATTACH_ISLES) st3).

Definition clean_polygons (fuel : nat) (snap : R) (type : Z) (st : state)
    : result state :=
  match clean_to_areas fuel snap type st with
  | Ret st' => Ret (clean_bridges_and_isles type st')
  | Fatal msg => Fatal msg
  | OutOfFuel => OutOfFuel
  end.

(** The guard of the cleaning block in [main]:
    [use_tmp_vect && !flag.no_clean->answer &&
     Vect_get_num_primitives(Out, GV_BOUNDARY) > 0]. *)
Definition cleaning_requested (use_tmp_vect no_clean : bool) (n_boundaries : Z) : bool :=
  use_tmp_vect && negb no_clean && (0 <? n_boundaries).

Definition clean_if_requested (use_tmp_vect no_clean : bool) (n_boundaries : Z)
    (fuel : nat) (snap : R) (type : Z) (st : state) : result state :=
  if cleaning_requested use_tmp_vect no_clean n_boundaries
  then clean_polygons fuel snap type st
  else Ret st.

(** *** The loop *)

(** The state after [k] turns, and what the turn that follows reports. *)
Fixpoint after_passes (k : nat) (st : state) : state :=
  match k with
  | O => st
  | S k' => after_passes k' (fst (angle_pass st))
  end.

Definition report (k : nat) (st : state) : Z :=
  snd (angle_pass (after_passes k st)).

(** Turn [k] (counted from 0) is the first to report no modification. *)
Definition first_clean_pass (st : state) (k : nat) : Prop :=
  (forall j, (j < k)%nat -> 0 < report j st) /\ report k st <= 0.

Lemma after_passes_S k st :
  after_passes (S k) st = fst (angle_pass (after_passes k st)).
Proof.
  revert st; induction k as [|k IH]; intros st; [reflexivity|].
  cbn [after_passes] in *. rewrite IH. reflexivity.
Qed.

Lemma loop_stops_at_first_clean_pass k : forall st fuel,
  first_clean_pass st k -> (k < fuel)%nat ->
  clean_angles_loop fuel st = Ret (after_passes (S k) st).
Proof.
  induction k as [|k IH]; intros st fuel [Hbefore Hk] Hf;
    (destruct fuel as [|fuel]; [lia|]); cbn [clean_angles_loop after_passes].
  - unfold report in Hk. cbn [after_passes] in Hk.
    destruct (angle_pass st) as [st' n]. cbn [fst snd] in *.
    destruct (Z.ltb_spec 0 n); [lia | reflexivity].
  - pose proof (Hbefore O ltac:(lia)) as H0. unfold report in H0.
    cbn [after_passes] in H0.
    destruct (angle_pass st) as [st' n] eqn:E. cbn [fst snd] in *.
    destruct (Z.ltb_spec 0 n); [|lia].
    apply (IH st' fuel); [|lia]. split.
    + intros j Hj. specialize (Hbefore (S j) ltac:(lia)).
      unfold report in *. cbn [after_passes] in Hbefore. rewrite E in Hbefore.
      exact Hbefore.
    + unfold report in *. cbn [after_passes] in Hk. rewrite E in Hk. exact Hk.
Qed.

Lemma loop_without_clean_pass fuel : forall st,
  (forall j, 0 < report j st) -> clean_angles_loop fuel st = OutOfFuel.
Proof.
  induction fuel as [|fuel IH]; intros st H; [reflexivity|].
  cbn [clean_angles_loop].
  pose proof (H O) as H0. unfold report in H0. cbn [after_passes] in H0.
  destruct (angle_pass st) as [st' n] eqn:E. cbn [snd] in H0.
  destruct (Z.ltb_spec 0 n); [|lia].
  apply IH. intros j. specialize (H (S j)).
  unfold report in *. cbn [after_passes] in H. rewrite E in H. exact H.
Qed.

(** C2, as the code has it.  The loop goes on exactly until a turn of
    [Vect_clean_small_angles_at_nodes] reports no modification: if turn [k]
    is the first to do so, the loop ends after that turn, given fuel for
    [k + 1] turns.  Nothing bounds the number of turns: on a map where every
    turn reports a modification the loop gives no result, whatever the
    fuel. *)
Theorem angle_loop_runs_until_clean_pass st :
  (forall k fuel, first_clean_pass st k -> (k < fuel)%nat ->
     clean_angles_loop fuel st = Ret (after_passes (S k) st)) /\
  ((forall j, 0 < report j st) ->
     forall fuel, clean_angles_loop fuel st = OutOfFuel).
Proof.
  split.
  - intros k fuel H Hf. apply loop_stops_at_first_clean_pass; assumption.
  - intros H fuel. apply loop_without_clean_pass; assumption.
Qed.

(** *** The order of the calls *)

Definition calls (st : state) : list call := map fst (snd st).

Definition pass_calls : list call :=
  [ Break_lines GV_BOUNDARY; Remove_duplicates GV_BOUNDARY;
    Clean_small_angles_at_nodes GV_BOUNDARY ].

Lemma exec_calls c st : calls (fst (exec c st)) = calls st ++ [c].
Proof.
  unfold calls, exec. destruct (topo c (fst st)) as [m' n]. cbn.
  rewrite map_app. reflexivity.
Qed.

Lemma exec_log c st :
  snd (fst (exec c st)) = snd st ++ [(c, snd (exec c st))].
Proof.
  unfold exec. destruct (topo c (fst st)) as [m' n]. reflexivity.
Qed.

Lemma angle_pass_calls st : calls (fst (angle_pass st)) = calls st ++ pass_calls.
Proof.
  unfold angle_pass. rewrite !exec_calls, <- !app_assoc. reflexivity.
Qed.

Lemma after_passes_calls k : forall st,
  calls (after_passes k st) = calls st ++ concat (repeat pass_calls k).
Proof.
  induction k as [|k IH]; intros st; cbn [after_passes repeat concat].
  - rewrite app_nil_r. reflexivity.
  - rewrite IH, angle_pass_calls, <- app_assoc. reflexivity.
Qed.

Lemma clean_to_loop_calls snap st :
  calls (clean_to_loop snap st) =
  calls st
  ++ (if Rge_dec snap 0 then [Snap_lines GV_BOUNDARY snap] else [])
  ++ [Break_polygons GV_BOUNDARY; Remove_duplicates (Z.lor GV_BOUNDARY GV_CENTROID)].
Proof.
  unfold clean_to_loop. rewrite !exec_calls.
  destruct (Rge_dec snap 0).
  - rewrite exec_calls, <- !app_assoc. reflexivity.
  - rewrite <- !app_assoc. reflexivity.
Qed.

(** What comes after the bridges in a list of calls, and whether it tears
    the topology down and builds it again up to a level that has areas. *)
Fixpoint after_bridges (cs : list call) : list call :=
  match cs with
  | [] => []
  | c :: tl => if is_bridge_call c then tl else after_bridges tl
  end.

Definition resets_topology (c : call) : bool :=
  match c with Build_partial GV_BUILD_NONE => true | _ => false end.

(** A build up to the areas, or up to the attachment of islands, which
    comes after the areas: [main.c] itself puts "build areas" over the
    calls with [GV_BUILD_NONE] and [GV_BUILD_ATTACH_ISLES]. *)
Definition builds_areas (c : call) : bool :=
  match c with
  | Build_partial GV_BUILD_AREAS | Build_partial GV_BUILD_ATTACH_ISLES => true
  | _ => false
  end.

Fixpoint rebuilds_areas (torn_down : bool) (cs : list call) : bool :=
  match cs with
  | [] => false
  | c :: tl =>
      if resets_topology c then rebuilds_areas true tl
      else if torn_down && builds_areas c then true
      else rebuilds_areas torn_down tl
  end.

Lemma after_bridges_app cs1 cs2 :
  forallb (fun c => negb (is_bridge_call c)) cs1 = true ->
  after_bridges (cs1 ++ cs2) = after_bridges cs2.
Proof.
  induction cs1 as [|c tl IH]; cbn [forallb app after_bridges]; auto.
  intros H. apply andb_true_iff in H. destruct H as [Hc Htl].
  destruct (is_bridge_call c); [discriminate|]. auto.
Qed.

Lemma no_bridge_in_passes k :
  forallb (fun c => negb (is_bridge_call c)) (concat (repeat pass_calls k)) = true.
Proof. induction k as [|k IH]; cbn; auto. Qed.

(** The calls of the whole sequence when the loop takes [k + 1] turns and
    the bridge call reports [nb]. *)
Definition expected_calls (snap : R) (type : Z) (k : nat) (nb : Z) : list call :=
  (if Rge_dec snap 0 then [Snap_lines GV_BOUNDARY snap] else [])
  ++ [Break_polygons GV_BOUNDARY; Remove_duplicates (Z.lor GV_BOUNDARY GV_CENTROID)]
  ++ concat (repeat pass_calls (S k))
  ++ [Merge_lines GV_BOUNDARY; dangle_call type; Build_partial GV_BUILD_AREAS;
      bridge_call type]
  ++ (if nb =? 0 then [] else [Build_partial GV_BUILD_NONE])
  ++ [Build_partial GV_BUILD_NONE; Build_partial GV_BUILD_ATTACH_ISLES].

Lemma bridge_call_is_bridge type : is_bridge_call (bridge_call type) = true.
Proof. unfold bridge_call. destruct (lines_as_boundaries type); reflexivity. Qed.

Lemma dangle_call_no_bridge type : is_bridge_call (dangle_call type) = false.
Proof. unfold dangle_call. destruct (lines_as_boundaries type); reflexivity. Qed.

Lemma expected_calls_rebuild snap type k nb :
  rebuilds_areas false (after_bridges (expected_calls snap type k nb)) = true.
Proof.
  unfold expected_calls.
  rewrite after_bridges_app by (destruct (Rge_dec snap 0); reflexivity).
  rewrite (after_bridges_app [_; _]) by reflexivity.
  rewrite after_bridges_app by apply no_bridge_in_passes.
  cbn [app after_bridges is_bridge_call].
  rewrite dangle_call_no_bridge, bridge_call_is_bridge.
  destruct (nb =? 0); reflexivity.
Qed.

Lemma clean_sequence fuel snap type m k :
  first_clean_pass (clean_to_loop snap (m, [])) k -> (k < fuel)%nat ->
  exists m' log nb,
    clean_polygons fuel snap type (m, []) = Ret (m', log) /\
    map fst log = expected_calls snap type k nb /\
    In (bridge_call type, nb) log.
Proof.
  intros Hk Hf. unfold clean_polygons, clean_to_areas.
  rewrite (loop_stops_at_first_clean_pass k _ fuel Hk Hf).
  set (st4 := after_passes (S k) (clean_to_loop snap (m, []))).
  set (st7 := fst (exec (Build_partial GV_BUILD_AREAS)
                     (fst (exec (dangle_call type)
                             (fst (exec (Merge_lines GV_BOUNDARY) st4)))))).
  assert (H7 : calls st7 =
               (if Rge_dec snap 0 then [Snap_lines GV_BOUNDARY snap] else [])
               ++ [Break_polygons GV_BOUNDARY;
                   Remove_duplicates (Z.lor GV_BOUNDARY GV_CENTROID)]
               ++ concat (repeat pass_calls (S k))
               ++ [Merge_lines GV_BOUNDARY; dangle_call type;
                   Build_partial GV_BUILD_AREAS]).
  { unfold st7, st4. rewrite !exec_calls, after_passes_calls, clean_to_loop_calls.
    cbn [calls snd map app]. rewrite <- !app_assoc. reflexivity. }
  unfold clean_bridges_and_isles.
  pose proof (exec_calls (bridge_call type) st7) as Hc.
  pose proof (exec_log (bridge_call type) st7) as Hl.
  destruct (exec (bridge_call type) st7) as [st8 nb]. cbn [fst snd] in Hc, Hl.
  set (st9 := if negb (nb =? 0)
              then fst (exec (Build_partial GV_BUILD_NONE) st8) else st8).
  assert (H9 : calls st9 = calls st8
                           ++ (if nb =? 0 then [] else [Build_partial GV_BUILD_NONE])
               /\ In (bridge_call type, nb) (snd st9)).
  { unfold st9. destruct (nb =? 0); cbn [negb].
    - rewrite app_nil_r. split; [reflexivity|].
      rewrite Hl. apply in_or_app; right; left; reflexivity.
    - rewrite exec_calls. split; [reflexivity|].
      rewrite exec_log, Hl. apply in_or_app; left.
      apply in_or_app; right; left; reflexivity. }
  destruct H9 as [H9 Hin].
  set (st11 := fst (exec (Build_partial GV_BUILD_ATTACH_ISLES)
                      (fst (exec (Build_partial GV_BUILD_NONE) st9)))).
  exists (fst st11), (snd st11), nb. split; [destruct st11; reflexivity|]. split.
  - change (map fst (snd st11)) with (calls st11).
    unfold st11. rewrite !exec_calls, H9, Hc, H7. unfold expected_calls.
    rewrite <- !app_assoc. reflexivity.
  - unfold st11. rewrite !exec_log.
    apply in_or_app; left. apply in_or_app; left. assumption.
Qed.

(** C6, as the code has it.  When the loop ends after [k + 1] turns, the
    calls made on the map are, in this order: snapping if and only if
    [snap >= 0]; breaking polygons; removing duplicates; the [k + 1] turns
    of the loop; merging; the dangles (changed to lines if lines were
    imported as boundaries, removed otherwise); building up to areas; the
    bridges (changed or removed in the same way); a reset of the topology
    if and only if the bridge call reported a modification; and then, in
    every case, a reset of the topology followed by a build up to the
    attachment of islands.  So the areas are built again after the bridges
    whether or not a bridge was modified. *)
Theorem cleaning_sequence_order fuel snap type m k :
  first_clean_pass (clean_to_loop snap (m, [])) k -> (k < fuel)%nat ->
  exists m' log nb,
    clean_polygons fuel snap type (m, []) = Ret (m', log) /\
    In (bridge_call type, nb) log /\
    map fst log =
      (if Rge_dec snap 0 then [Snap_lines GV_BOUNDARY snap] else [])
      ++ [Break_polygons GV_BOUNDARY; Remove_duplicates (Z.lor GV_BOUNDARY GV_CENTROID)]
      ++ concat (repeat [Break_lines GV_BOUNDARY; Remove_duplicates GV_BOUNDARY;
                         Clean_small_angles_at_nodes GV_BOUNDARY] (S k))
      ++ [Merge_lines GV_BOUNDARY;
          (if lines_as_boundaries type
           then Chtype_dangles (-1) else Remove_dangles GV_BOUNDARY (-1));
          Build_partial GV_BUILD_AREAS;
          (if lines_as_boundaries type then Chtype_bridges else Remove_bridges)]
      ++ (if nb =? 0 then [] else [Build_partial GV_BUILD_NONE])
      ++ [Build_partial GV_BUILD_NONE; Build_partial GV_BUILD_ATTACH_ISLES] /\
    rebuilds_areas false (after_bridges (map fst log)) = true.
Proof.
  intros Hk Hf.
  destruct (clean_sequence fuel snap type m k Hk Hf) as (m' & log & nb & E & Hc & Hin).
  exists m', log, nb. split; [assumption|]. split; [assumption|]. split.
  - exact Hc.
  - rewrite Hc. apply expected_calls_rebuild.
Qed.

End Engine.

(** *** Two maps to run the sequence on *)

(** Below [GV_BOUNDARY] is 4 and [GV_CENTROID] is 8; the type of the
    import is 2 (lines, not turned into boundaries) or 4. *)

(** A map that is the number of small angles left in it: a turn of the
    angle cleaning removes one and says so. *)
Definition settling (c : call) (m : Z) : Z * Z :=
  match c with
  | Clean_small_angles_at_nodes _ => if 0 <? m then (m - 1, 1) else (m, 0)
  | _ => (m, 0)
  end.

(** A map in which every turn of the angle cleaning finds something. *)
Definition restless (c : call) (m : unit) : unit * Z :=
  match c with
  | Clean_small_angles_at_nodes _ => (tt, 1)
  | _ => (tt, 0)
  end.

Example two_angles_three_turns :
  clean_angles_loop Z settling 4 3 (2, []) =
  Ret (0, [ (Break_lines 4, 0); (Remove_duplicates 4, 0);
            (Clean_small_angles_at_nodes 4, 1);
            (Break_lines 4, 0); (Remove_duplicates 4, 0);
            (Clean_small_angles_at_nodes 4, 1);
            (Break_lines 4, 0); (Remove_duplicates 4, 0);
            (Clean_small_angles_at_nodes 4, 0) ]).
Proof. reflexivity. Qed.

Lemma angle_loop_runs_until_clean_pass_witness :
  clean_angles_loop Z settling 4 3 (2, []) = Ret (after_passes Z settling 4 3 (2, [])).
Proof.
  apply (proj1 (angle_loop_runs_until_clean_pass Z settling 4 (2, [])) 2%nat 3%nat).
  - split.
    + intros j Hj. destruct j as [|[|j]]; [reflexivity | reflexivity | lia].
    + vm_compute. discriminate.
  - lia.
Defined.

(** No number of turns is enough for the restless map: the loop has no
    cap. *)
Lemma restless_map_never_finishes :
  ~ (exists fuel, clean_angles_loop unit restless 4 fuel (tt, []) <> OutOfFuel).
Proof.
  intros [fuel H]. apply H. apply loop_without_clean_pass.
  intros j. reflexivity.
Qed.

Lemma clean_to_loop_no_snap (Map : Type) (topo : call -> Map -> Map * Z)
    (boundary centroid : Z) st :
  clean_to_loop Map topo boundary centroid (-1) st =
  fst (exec Map topo (Remove_duplicates (Z.lor boundary centroid))
         (fst (exec Map topo (Break_polygons boundary) st))).
Proof.
  unfold clean_to_loop. destruct (Rge_dec (-1) 0) as [H|H]; [lra | reflexivity].
Qed.

(** On a map without small angles and without bridges the bridge call
    reports nothing, and the topology is reset and built again all the
    same. *)
Lemma areas_rebuilt_without_bridge_change :
  clean_polygons Z settling 4 8 1 (-1) 2 (0, []) =
  Ret (0, [ (Break_polygons 4, 0); (Remove_duplicates 12, 0);
            (Break_lines 4, 0); (Remove_duplicates 4, 0);
            (Clean_small_angles_at_nodes 4, 0);
            (Merge_lines 4, 0); (Remove_dangles 4 (-1), 0);
            (Build_partial GV_BUILD_AREAS, 0);
            (Remove_bridges, 0);
            (Build_partial GV_BUILD_NONE, 0);
            (Build_partial GV_BUILD_ATTACH_ISLES, 0) ]) /\
  rebuilds_areas false
    (after_bridges [ Break_polygons 4; Remove_duplicates 12;
                     Break_lines 4; Remove_duplicates 4;
                     Clean_small_angles_at_nodes 4;
                     Merge_lines 4; Remove_dangles 4 (-1);
                     Build_partial GV_BUILD_AREAS;
                     Remove_bridges;
                     Build_partial GV_BUILD_NONE;
                     Build_partial GV_BUILD_ATTACH_ISLES ]) = true.
Proof.
  split; [|reflexivity].
  unfold clean_polygons, clean_to_areas. rewrite clean_to_loop_no_snap.
  reflexivity.
Qed.

Lemma cleaning_sequence_order_witness :
  exists m' log,
    clean_polygons Z settling 4 8 2 (-1) 4 (1, []) = Ret (m', log) /\
    In (Chtype_bridges, 0) log /\
    rebuilds_areas false (after_bridges (map fst log)) = true.
Proof.
  destruct (cleaning_sequence_order Z settling 4 8 2 (-1) 4 1 1)
    as (m' & log & nb & E & Hin & _ & Hre).
  - rewrite clean_to_loop_no_snap. split.
    + intros j Hj. destruct j as [|j]; [reflexivity | lia].
    + vm_compute. discriminate.
  - lia.
  - exists m', log. split; [exact E|]. split; [|exact Hre].
    unfold clean_polygons, clean_to_areas in E.
    rewrite clean_to_loop_no_snap in E. vm_compute in E.
    inversion E; subst. right; right; right; right; right; right; right; right.
    right; right; right. left. reflexivity.
Defined.

End Cleaning.

(** ** Categories in the import pass and in the centroid pass *)

Module Passes.

Local Open Scope Z_scope.

Section Features.

Variable Geometry : Type.
(** [OGR_G_GetLinearGeometry] (GDAL 2.0+; the identity before): the
    geometry with its curves approximated, or [NULL]. *)
Variable OGR_G_GetLinearGeometry : Geometry -> option Geometry.

(** What the passes read of a feature: its FID, its fields as
    [OGR_F_GetFieldAsInteger] gives them, and its geometry fields, [None]
    for [NULL]. *)
Record OGRFeature : Type := mkFeature {
  F_fid : Z;
  F_fields : list Z;
  F_geoms : list (option Geometry)
}.

Definition OGR_F_GetFieldAsInteger (f : OGRFeature) (i : Z) : Z :=
  match nthZ (F_fields f) i with Some v => v | None => 0 end.

Definition linearized (g : option Geometry) : option Geometry :=
  match g with Some g0 => OGR_G_GetLinearGeometry g0 | None => None end.

(** What a pass does with a category. *)
Inductive import_event : Type :=
| Geom (g : Geometry) (field cat : Z)        (* geom(Ogr_geometry, Out, layer + 1, cat, ...) *)
| Insert_row (field cat : Z).                (* insert into <table> values ( cat, ... ) *)

Inductive centroid_event : Type :=
| Centroid_call (g : Geometry) (field cat : Z).  (* centroid(Ogr_geometry, Centr, &si, layer + 1, cat, ...) *)

Definition import_cat (e : import_event) : Z :=
  match e with Geom _ _ c => c | Insert_row _ c => c end.

Definition centroid_cat (e : centroid_event) : Z :=
  match e with Centroid_call _ _ c => c end.

(** [key_idx[layer]]: [-2] when no key column was asked for, [-1] when the
    key is the FID column, the index of the key field otherwise. *)

(** The loop over the geometry fields in the import pass; [i] is the index
    of the head of [gs]. *)
Fixpoint import_geometries (key_idx igeom field : Z) (f : OGRFeature) (i : Z)
    (gs : list (option Geometry)) (cat nogeom : Z)
    : list import_event * Z * Z :=
  match gs with
  | [] => ([], cat, nogeom)
  | g :: tl =>
      if (-1 <? igeom) && negb (i =? igeom)
      then import_geometries key_idx igeom field f (i + 1) tl cat nogeom
      else
        match linearized g with
        | None => import_geometries key_idx igeom field f (i + 1) tl cat (nogeom + 1)
        | Some g' =>
            let cat' :=
              if -1 <? key_idx then OGR_F_GetFieldAsInteger f key_idx
              else if key_idx =? -1 then F_fid f
              else cat in
            let '(evs, c, n) :=
              import_geometries key_idx igeom field f (i + 1) tl cat' nogeom in
            (Geom g' field cat' :: evs, c, n)
        end
  end.

(** The body of the [while] of the import pass, up to [cat++]. *)
Definition import_feature (key_idx igeom : Z) (notab : bool) (field : Z)
    (f : OGRFeature) (cat nogeom : Z) : list import_event * Z * Z :=
  let '(evs, cat1, nogeom1) :=
    import_geometries key_idx igeom field f 0 (F_geoms f) cat nogeom in
  (if notab then evs else evs ++ [Insert_row field cat1], cat1 + 1, nogeom1).

(** The [while] over the features the iterator hands out for the layer, in
    that order; the events are kept feature by feature. *)
Fixpoint import_features (key_idx igeom : Z) (notab : bool) (field : Z)
    (fs : list OGRFeature) (cat nogeom : Z)
    : list (list import_event) * Z * Z :=
  match fs with
  | [] => ([], cat, nogeom)
  | f :: tl =>
      let '(evs, cat1, nogeom1) := import_feature key_idx igeom notab field f cat nogeom in
      let '(rest, c, n) := import_features key_idx igeom notab field tl cat1 nogeom1 in
      (evs :: rest, c, n)
  end.

(** One turn of [for (layer = 0; layer < nlayers; layer++)] in the import
    pass: [cat = 1; nogeom = 0;]. *)
Definition import_layer (key_idx igeom : Z) (notab : bool) (layer : Z)
    (fs : list OGRFeature) : list (list import_event) * Z * Z :=
  import_features key_idx igeom notab (layer + 1) fs 1 0.

(** The loop over the geometry fields in the centroid pass. *)
Fixpoint centroid_geometries (igeom field cat : Z) (i : Z)
    (gs : list (option Geometry)) : list centroid_event :=
  match gs with
  | [] => []
  | g :: tl =>
      if (-1 <? igeom) && negb (i =? igeom)
      then centroid_geometries igeom field cat (i + 1) tl
      else
        match linearized g with
        | None => centroid_geometries igeom field cat (i + 1) tl
        | Some g' =>
            Centroid_call g' field cat :: centroid_geometries igeom field cat (i + 1) tl
        end
  end.

Definition centroid_feature (key_idx igeom field : Z) (f : OGRFeature) (cat : Z)
    : list centroid_event * Z :=
  let cat1 :=
    if -1 <? key_idx then OGR_F_GetFieldAsInteger f key_idx else cat + 1 in
  (centroid_geometries igeom field cat1 0 (F_geoms f), cat1).

Fixpoint centroid_features (key_idx igeom field : Z) (fs : list OGRFeature) (cat : Z)
    : list (list centroid_event) * Z :=
  match fs with
  | [] => ([], cat)
  | f :: tl =>
      let (evs, cat1) := centroid_feature key_idx igeom field f cat in
      let (rest, c) := centroid_features key_idx igeom field tl cat1 in
      (evs :: rest, c)
  end.

(** One turn of the layer loop of the centroid pass: [cat = 0]. *)
Definition centroid_layer (key_idx igeom : Z) (layer : Z) (fs : list OGRFeature)
    : list (list centroid_event) * Z :=
  centroid_features key_idx igeom (layer + 1) fs 0.

(** The geometries of a feature that a pass takes up: of its geometry
    fields in their order, numbered from [s], all of them or the one chosen
    with the option [geometry], those that are there and have a linear
    form. *)
Definition taken_from (igeom : Z) (s : nat) (gs : list (option Geometry))
    : list Geometry :=
  flat_map (fun ig : Z * option Geometry =>
              if (igeom <=? -1) || (fst ig =? igeom)
              then match linearized (snd ig) with Some g' => [g'] | None => [] end
              else [])
           (combine (map Z.of_nat (seq s (length gs))) gs).

Definition taken (igeom : Z) (f : OGRFeature) : list Geometry :=
  taken_from igeom 0 (F_geoms f).

(** *** Without a key column *)

Lemma import_geometries_no_key igeom field f : forall gs i cat nogeom,
  snd (fst (import_geometries (-2) igeom field f i gs cat nogeom)) = cat /\
  Forall (fun e => import_cat e = cat)
         (fst (fst (import_geometries (-2) igeom field f i gs cat nogeom))).
Proof.
  induction gs as [|g tl IH]; intros i cat nogeom; cbn [import_geometries].
  - split; [reflexivity | constructor].
  - destruct ((-1 <? igeom) && negb (i =? igeom)); [apply IH|].
    destruct (linearized g) as [g'|]; [|apply IH].
    change (-1 <? -2) with false. change (-2 =? -1) with false. cbn iota.
    specialize (IH (i + 1) cat nogeom).
    destruct (import_geometries (-2) igeom field f (i + 1) tl cat nogeom)
      as [[evs c] n]. cbn [fst snd] in *. destruct IH as [IH1 IH2].
    split; [assumption|]. constructor; [reflexivity | assumption].
Qed.

Lemma import_feature_no_key igeom notab field f cat nogeom :
  snd (fst (import_feature (-2) igeom notab field f cat nogeom)) = cat + 1 /\
  Forall (fun e => import_cat e = cat)
         (fst (fst (import_feature (-2) igeom notab field f cat nogeom))) /\
  (notab = false ->
   In (Insert_row field cat)
      (fst (fst (import_feature (-2) igeom notab field f cat nogeom)))).
Proof.
  unfold import_feature.
  pose proof (import_geometries_no_key igeom field f (F_geoms f) 0 cat nogeom) as H.
  destruct (import_geometries (-2) igeom field f 0 (F_geoms f) cat nogeom)
    as [[evs c] n]. cbn [fst snd] in *. destruct H as [-> H].
  split; [reflexivity|]. split.
  - destruct notab; [assumption|].
    apply Forall_app; split; [assumption|]. constructor; [reflexivity | constructor].
  - intros ->. apply in_or_app; right; left; reflexivity.
Qed.

Lemma import_features_no_key igeom notab field : forall fs cat nogeom,
  let r := import_features (-2) igeom notab field fs cat nogeom in
  snd (fst r) = cat + Z.of_nat (length fs) /\
  length (fst (fst r)) = length fs /\
  forall k evs, nth_error (fst (fst r)) k = Some evs ->
    Forall (fun e => import_cat e = cat + Z.of_nat k) evs /\
    (notab = false -> In (Insert_row field (cat + Z.of_nat k)) evs).
Proof.
  induction fs as [|f tl IH]; intros cat nogeom; cbn [import_features].
  - cbn. split; [lia|]. split; [reflexivity|]. intros [|k] evs; discriminate.
  - pose proof (import_feature_no_key igeom notab field f cat nogeom) as Hf.
    destruct (import_feature (-2) igeom notab field f cat nogeom) as [[evs0 c1] n1].
    cbn [fst snd] in Hf. destruct Hf as (-> & Hall & Hrow).
    specialize (IH (cat + 1) n1).
    destruct (import_features (-2) igeom notab field tl (cat + 1) n1) as [[rest c] n].
    cbn [fst snd length] in *. destruct IH as (IH1 & IH2 & IH3).
    split; [lia|]. split; [lia|].
    intros [|k] evs; cbn [nth_error].
    + intros E; inversion E; subst evs.
      replace (cat + Z.of_nat 0) with cat by lia. split; assumption.
    + intros E. destruct (IH3 k evs E) as [A B].
      replace (cat + Z.of_nat (S k)) with (cat + 1 + Z.of_nat k) by lia.
      split; assumption.
Qed.

Lemma centroid_geometries_cat igeom field cat : forall gs i,
  Forall (fun e => centroid_cat e = cat) (centroid_geometries igeom field cat i gs).
Proof.
  induction gs as [|g tl IH]; intros i; cbn [centroid_geometries].
  - constructor.
  - destruct ((-1 <? igeom) && negb (i =? igeom)); [apply IH|].
    destruct (linearized g); [|apply IH].
    constructor; [reflexivity | apply IH].
Qed.

(** The centroid pass counts in the same way for every [key_idx] below
    [0], the FID column included. *)
Lemma centroid_features_counting key_idx igeom field : key_idx < 0 ->
  forall fs cat,
  let r := centroid_features key_idx igeom field fs cat in
  snd r = cat + Z.of_nat (length fs) /\
  length (fst r) = length fs /\
  forall k evs, nth_error (fst r) k = Some evs ->
    Forall (fun e => centroid_cat e = cat + 1 + Z.of_nat k) evs.
Proof.
  intros Hk. induction fs as [|f tl IH]; intros cat; cbn [centroid_features].
  - cbn. split; [lia|]. split; [reflexivity|]. intros [|k] evs; discriminate.
  - unfold centroid_feature.
    destruct (Z.ltb_spec (-1) key_idx); [lia|].
    specialize (IH (cat + 1)).
    destruct (centroid_features key_idx igeom field tl (cat + 1)) as [rest c].
    cbn [fst snd length] in *. destruct IH as (IH1 & IH2 & IH3).
    split; [lia|]. split; [lia|].
    intros [|k] evs; cbn [nth_error].
    + intros E; inversion E; subst evs.
      replace (cat + 1 + Z.of_nat 0) with (cat + 1) by lia.
      apply centroid_geometries_cat.
    + intros E. specialize (IH3 k evs E).
      replace (cat + 1 + Z.of_nat (S k)) with (cat + 1 + 1 + Z.of_nat k) by lia.
      assumption.
Qed.

Lemma taken_from_cons igeom s g tl :
  taken_from igeom s (g :: tl)
  = ((if (igeom <=? -1) || (Z.of_nat s =? igeom)
      then match linearized g with Some g' => [g'] | None => [] end
      else []) ++ taken_from igeom (S s) tl)%list.
Proof. reflexivity. Qed.

Lemma skipped_or_taken igeom i :
  (-1 <? igeom) && negb (i =? igeom) = negb ((igeom <=? -1) || (i =? igeom)).
Proof.
  destruct (Z.ltb_spec (-1) igeom), (Z.leb_spec igeom (-1)); try lia;
    destruct (i =? igeom); reflexivity.
Qed.

(** Without a key column the import pass hands every geometry it takes up
    to [geom] with the counter, which it leaves as it is. *)
Lemma import_geometries_taken igeom field f : forall gs s cat nogeom,
  fst (fst (import_geometries (-2) igeom field f (Z.of_nat s) gs cat nogeom))
  = map (fun g => Geom g field cat) (taken_from igeom s gs).
Proof.
  induction gs as [|g tl IH]; intros s cat nogeom; [reflexivity|].
  cbn [import_geometries]. rewrite taken_from_cons, skipped_or_taken.
  replace (Z.of_nat s + 1) with (Z.of_nat (S s)) by lia.
  destruct ((igeom <=? -1) || (Z.of_nat s =? igeom)); cbn [negb]; [|apply IH].
  destruct (linearized g) as [g'|]; [|apply IH].
  change (-1 <? -2) with false. change (-2 =? -1) with false. cbn iota.
  specialize (IH (S s) cat nogeom).
  destruct (import_geometries (-2) igeom field f (Z.of_nat (S s)) tl cat nogeom)
    as [[evs c] n]. cbn [fst snd] in *. rewrite IH. reflexivity.
Qed.

(** The centroid pass hands the same geometries to [centroid]. *)
Lemma centroid_geometries_taken igeom field cat : forall gs s,
  centroid_geometries igeom field cat (Z.of_nat s) gs
  = map (fun g => Centroid_call g field cat) (taken_from igeom s gs).
Proof.
  induction gs as [|g tl IH]; intros s; [reflexivity|].
  cbn [centroid_geometries]. rewrite taken_from_cons, skipped_or_taken.
  replace (Z.of_nat s + 1) with (Z.of_nat (S s)) by lia.
  destruct ((igeom <=? -1) || (Z.of_nat s =? igeom)); cbn [negb]; [|apply IH].
  destruct (linearized g) as [g'|]; [|apply IH].
  cbn [map app]. rewrite IH. reflexivity.
Qed.

(** What the import pass does for the feature at position [k] of a layer
    without key column, and what the centroid pass does for it. *)
Lemma import_features_events igeom notab field : forall fs cat nogeom k f,
  nth_error fs k = Some f ->
  nth_error (fst (fst (import_features (-2) igeom notab field fs cat nogeom))) k
  = Some (map (fun g => Geom g field (cat + Z.of_nat k)) (taken igeom f)
          ++ (if notab then [] else [Insert_row field (cat + Z.of_nat k)]))%list.
Proof.
  induction fs as [|f0 tl IH]; intros cat nogeom k f Hk; [destruct k; discriminate|].
  cbn [import_features]. unfold import_feature.
  pose proof (import_geometries_taken igeom field f0 (F_geoms f0) 0 cat nogeom) as Hev.
  pose proof (import_geometries_no_key igeom field f0 (F_geoms f0) 0 cat nogeom)
    as [Hcat _].
  change (Z.of_nat 0) with 0 in Hev.
  destruct (import_geometries (-2) igeom field f0 0 (F_geoms f0) cat nogeom)
    as [[evs c1] n1]. cbn [fst snd] in Hev, Hcat. subst c1 evs.
  specialize (IH (cat + 1) n1).
  destruct (import_features (-2) igeom notab field tl (cat + 1) n1) as [[rest c] n].
  cbn [fst snd] in *. destruct k as [|k]; cbn [nth_error] in *.
  - inversion Hk; subst f0. replace (cat + Z.of_nat 0) with cat by lia.
    unfold taken. destruct notab; [rewrite app_nil_r|]; reflexivity.
  - rewrite (IH k f Hk).
    replace (cat + 1 + Z.of_nat k) with (cat + Z.of_nat (S k)) by lia. reflexivity.
Qed.

Lemma centroid_features_events key_idx igeom field : key_idx < 0 ->
  forall fs cat k f,
  nth_error fs k = Some f ->
  nth_error (fst (centroid_features key_idx igeom field fs cat)) k
  = Some (map (fun g => Centroid_call g field (cat + 1 + Z.of_nat k)) (taken igeom f)).
Proof.
  intros Hkey. induction fs as [|f0 tl IH]; intros cat k f Hk;
    [destruct k; discriminate|].
  cbn [centroid_features]. unfold centroid_feature.
  destruct (Z.ltb_spec (-1) key_idx); [lia|].
  specialize (IH (cat + 1)).
  destruct (centroid_features key_idx igeom field tl (cat + 1)) as [rest c].
  cbn [fst snd] in *. destruct k as [|k]; cbn [nth_error] in *.
  - inversion Hk; subst f0. replace (cat + 1 + Z.of_nat 0) with (cat + 1) by lia.
    exact (f_equal Some
             (centroid_geometries_taken igeom field (cat + 1) (F_geoms f) 0)).
  - rewrite (IH k f Hk).
    replace (cat + 1 + 1 + Z.of_nat k) with (cat + 1 + Z.of_nat (S k)) by lia.
    reflexivity.
Qed.

(** C10.  For a layer without key column ([key_idx = -2]) the import pass
    and the centroid pass give the feature at position [k] of the stream
    (counted from 0) the same category, [k + 1], whatever its geometry.
    The import pass hands each geometry it takes up of the feature to
    [geom] with [k + 1] and, when tables are written, writes its row with
    [k + 1]; it does nothing else for the feature.  The centroid pass
    hands the same geometries, in the same order, to [centroid] with
    [k + 1], and does nothing else for it.  A feature without geometry
    has no call in either pass and takes its number all the same.  Each
    pass ends with its counter advanced once per feature. *)
Theorem passes_agree_without_key igeom notab layer fs :
  let imp := import_layer (-2) igeom notab layer fs in
  let cen := centroid_layer (-2) igeom layer fs in
  length (fst (fst imp)) = length fs /\
  length (fst cen) = length fs /\
  snd (fst imp) = 1 + Z.of_nat (length fs) /\
  snd cen = Z.of_nat (length fs) /\
  (forall k f,
     nth_error fs k = Some f ->
     nth_error (fst (fst imp)) k
     = Some (map (fun g => Geom g (layer + 1) (Z.of_nat k + 1)) (taken igeom f)
             ++ (if notab then [] else [Insert_row (layer + 1) (Z.of_nat k + 1)]))%list /\
     nth_error (fst cen) k
     = Some (map (fun g => Centroid_call g (layer + 1) (Z.of_nat k + 1))
                 (taken igeom f))) /\
  forall k ievs cevs,
    nth_error (fst (fst imp)) k = Some ievs ->
    nth_error (fst cen) k = Some cevs ->
    Forall (fun e => import_cat e = Z.of_nat k + 1) ievs /\
    Forall (fun e => centroid_cat e = Z.of_nat k + 1) cevs /\
    (notab = false -> In (Insert_row (layer + 1) (Z.of_nat k + 1)) ievs).
Proof.
  cbv zeta. unfold import_layer, centroid_layer.
  destruct (import_features_no_key igeom notab (layer + 1) fs 1 0) as (I1 & I2 & I3).
  destruct (centroid_features_counting (-2) igeom (layer + 1) ltac:(lia) fs 0)
    as (C1 & C2 & C3).
  split; [assumption|]. split; [assumption|]. split; [assumption|].
  split; [rewrite C1; lia|]. split.
  - intros k f Hk.
    rewrite (import_features_events igeom notab (layer + 1) fs 1 0 k f Hk).
    rewrite (centroid_features_events (-2) igeom (layer + 1) ltac:(lia) fs 0 k f Hk).
    replace (1 + Z.of_nat k) with (Z.of_nat k + 1) by lia.
    replace (0 + 1 + Z.of_nat k) with (Z.of_nat k + 1) by lia.
    split; reflexivity.
  - intros k ievs cevs Ei Ec.
    destruct (I3 k ievs Ei) as [A B]. specialize (C3 k cevs Ec).
    replace (Z.of_nat k + 1) with (1 + Z.of_nat k) by lia.
    split; [assumption|]. split; [|assumption].
    replace (1 + Z.of_nat k) with (0 + 1 + Z.of_nat k) by lia. assumption.
Qed.

(** *** With a key column *)

(** In the import pass a geometry is written with the value of the key
    field, or with the FID when the key is the FID column. *)
Lemma import_geometries_key key_idx igeom field f : -1 <= key_idx ->
  forall gs i cat nogeom,
  Forall (fun e => match e with
                   | Geom _ _ c =>
                       c = if key_idx =? -1 then F_fid f
                           else OGR_F_GetFieldAsInteger f key_idx
                   | Insert_row _ _ => True
                   end)
         (fst (fst (import_geometries key_idx igeom field f i gs cat nogeom))).
Proof.
  intros Hk. induction gs as [|g tl IH]; intros i cat nogeom;
    cbn [import_geometries].
  - constructor.
  - destruct ((-1 <? igeom) && negb (i =? igeom)); [apply IH|].
    destruct (linearized g) as [g'|]; [|apply IH].
    set (cat' := if -1 <? key_idx then OGR_F_GetFieldAsInteger f key_idx
                 else if key_idx =? -1 then F_fid f else cat).
    specialize (IH (i + 1) cat' nogeom).
    destruct (import_geometries key_idx igeom field f (i + 1) tl cat' nogeom)
      as [[evs c] n]. cbn [fst snd] in *.
    constructor; [|assumption].
    unfold cat'. destruct (Z.ltb_spec (-1) key_idx), (Z.eqb_spec key_idx (-1));
      try reflexivity; lia.
Qed.

(** *** The two passes side by side *)

(** The calls of [geom] among the events of the import pass, and the
    calls of [centroid], as (geometry, field, category). *)
Definition geom_calls (evs : list import_event) : list (Geometry * Z * Z) :=
  flat_map (fun e => match e with
                     | Geom g field cat => [(g, field, cat)]
                     | Insert_row _ _ => []
                     end) evs.

Definition centroid_calls (evs : list centroid_event) : list (Geometry * Z * Z) :=
  map (fun e => match e with Centroid_call g field cat => (g, field, cat) end) evs.

(** The rows among the events of the import pass. *)
Definition rows (evs : list import_event) : list (Z * Z) :=
  flat_map (fun e => match e with
                     | Geom _ _ _ => []
                     | Insert_row field cat => [(field, cat)]
                     end) evs.

(** The number of geometry fields of a feature that a pass takes up: all
    of them, or the one chosen with the option [geometry] if the feature
    has it. *)
Definition fields_read (igeom : Z) (f : OGRFeature) : Z :=
  if -1 <? igeom
  then (if igeom <? Z.of_nat (length (F_geoms f)) then 1 else 0)
  else Z.of_nat (length (F_geoms f)).

Definition category_of (key_idx : Z) (f : OGRFeature) (cat : Z) : Z :=
  if -1 <? key_idx then OGR_F_GetFieldAsInteger f key_idx else cat.

Lemma import_geometries_calls key_idx igeom field f : key_idx <> -1 ->
  forall gs i cat nogeom,
  geom_calls (fst (fst (import_geometries key_idx igeom field f i gs cat nogeom)))
  = centroid_calls
      (centroid_geometries igeom field (category_of key_idx f cat) i gs) /\
  (key_idx < 0 ->
   snd (fst (import_geometries key_idx igeom field f i gs cat nogeom)) = cat).
Proof.
  intros Hk. induction gs as [|g tl IH]; intros i cat nogeom;
    cbn [import_geometries centroid_geometries].
  - split; reflexivity.
  - destruct ((-1 <? igeom) && negb (i =? igeom)); [apply IH|].
    destruct (linearized g) as [g'|]; [|apply IH].
    set (cat' := if -1 <? key_idx then OGR_F_GetFieldAsInteger f key_idx
                 else if key_idx =? -1 then F_fid f else cat).
    assert (Hc : cat' = category_of key_idx f cat).
    { unfold cat', category_of.
      destruct (-1 <? key_idx); [reflexivity|].
      destruct (Z.eqb_spec key_idx (-1)); [contradiction | reflexivity]. }
    assert (Hc' : category_of key_idx f cat' = category_of key_idx f cat).
    { rewrite Hc. unfold category_of. destruct (-1 <? key_idx); reflexivity. }
    specialize (IH (i + 1) cat' nogeom). rewrite Hc' in IH.
    destruct (import_geometries key_idx igeom field f (i + 1) tl cat' nogeom)
      as [[evs c] n]. cbn [fst snd] in *. destruct IH as (IH1 & IH2).
    split.
    + cbn [geom_calls flat_map app centroid_calls map].
      fold (geom_calls evs). rewrite IH1, Hc. reflexivity.
    + intros Hneg. rewrite (IH2 Hneg). rewrite Hc. unfold category_of.
      destruct (Z.ltb_spec (-1) key_idx); [lia | reflexivity].
Qed.

Lemma geom_calls_app evs evs' :
  geom_calls (evs ++ evs') = (geom_calls evs ++ geom_calls evs')%list.
Proof. unfold geom_calls. apply flat_map_app. Qed.

Lemma import_features_calls key_idx igeom notab field : key_idx <> -1 ->
  forall fs cat_import cat_centroid nogeom,
  (key_idx < 0 -> cat_import = cat_centroid + 1) ->
  map geom_calls
      (fst (fst (import_features key_idx igeom notab field fs cat_import nogeom)))
  = map centroid_calls
      (fst (centroid_features key_idx igeom field fs cat_centroid)).
Proof.
  intros Hk. induction fs as [|f tl IH]; intros ci cc nogeom Hinv;
    cbn [import_features centroid_features]; [reflexivity|].
  unfold import_feature, centroid_feature.
  destruct (import_geometries_calls key_idx igeom field f Hk (F_geoms f) 0 ci nogeom)
    as (Hcalls & Hcat).
  destruct (import_geometries key_idx igeom field f 0 (F_geoms f) ci nogeom)
    as [[evs c1] n1]. cbn [fst snd] in Hcalls, Hcat.
  set (cc1 := if -1 <? key_idx then OGR_F_GetFieldAsInteger f key_idx else cc + 1).
  assert (Hsame : category_of key_idx f ci = cc1).
  { unfold category_of, cc1. destruct (Z.ltb_spec (-1) key_idx); [reflexivity|].
    apply Hinv. lia. }
  assert (Hnext : key_idx < 0 -> c1 + 1 = cc1 + 1).
  { intros Hneg. rewrite (Hcat Hneg). unfold cc1.
    destruct (Z.ltb_spec (-1) key_idx); [lia|]. rewrite (Hinv Hneg). reflexivity. }
  specialize (IH (c1 + 1) cc1 n1 Hnext).
  destruct (import_features key_idx igeom notab field tl (c1 + 1) n1) as [[rest c] n].
  destruct (centroid_features key_idx igeom field tl cc1) as [rest' c'].
  cbn [fst snd map] in *. rewrite IH. f_equal.
  rewrite <- Hsame, <- Hcalls.
  destruct notab; [reflexivity|].
  rewrite geom_calls_app. cbn. apply app_nil_r.
Qed.

(** X18.  Unless the key is the FID column, the import pass and the
    centroid pass hand the same geometries with the same field and the same
    category to [geom] and to [centroid], feature by feature and in the
    same order: with a key field both use the value of that field, without
    key both use the position of the feature in the stream. *)
Theorem passes_write_the_same_geometries key_idx igeom notab layer fs :
  key_idx <> -1 ->
  map geom_calls (fst (fst (import_layer key_idx igeom notab layer fs)))
  = map centroid_calls (fst (centroid_layer key_idx igeom layer fs)).
Proof.
  intros Hk. unfold import_layer, centroid_layer.
  apply import_features_calls; [assumption | lia].
Qed.

Lemma import_geometries_account key_idx igeom field f : forall gs i cat nogeom,
  0 <= i ->
  Z.of_nat (length (geom_calls
                      (fst (fst (import_geometries key_idx igeom field f i gs
                                                   cat nogeom)))))
  + snd (import_geometries key_idx igeom field f i gs cat nogeom)
  = nogeom
    + (if -1 <? igeom
       then (if (i <=? igeom) && (igeom <? i + Z.of_nat (length gs)) then 1 else 0)
       else Z.of_nat (length gs)) /\
  rows (fst (fst (import_geometries key_idx igeom field f i gs cat nogeom))) = [].
Proof.
  induction gs as [|g tl IH]; intros i cat nogeom Hi;
    cbn [import_geometries length].
  - cbn. split; [|reflexivity].
    destruct (-1 <? igeom); [|lia].
    destruct ((i <=? igeom) && (igeom <? i + 0)) eqn:E; [|lia].
    apply andb_prop in E. destruct E as (E1 & E2).
    apply Z.leb_le in E1. apply Z.ltb_lt in E2. lia.
  - assert (Hcount : forall skip : bool,
               skip = (-1 <? igeom) && negb (i =? igeom) ->
               (if -1 <? igeom
                then (if (i <=? igeom) && (igeom <? i + Z.of_nat (S (length tl)))
                      then 1 else 0)
                else Z.of_nat (S (length tl)))
               = (if skip then 0 else 1)
                 + (if -1 <? igeom
                    then (if (i + 1 <=? igeom)
                             && (igeom <? i + 1 + Z.of_nat (length tl))
                          then 1 else 0)
                    else Z.of_nat (length tl))).
    { intros skip ->.
      destruct (Z.ltb_spec (-1) igeom), (Z.eqb_spec i igeom),
        (Z.leb_spec i igeom), (Z.ltb_spec igeom (i + Z.of_nat (S (length tl)))),
        (Z.leb_spec (i + 1) igeom), (Z.ltb_spec igeom (i + 1 + Z.of_nat (length tl)));
        cbn [andb negb]; lia. }
    rewrite (Hcount _ eq_refl).
    destruct ((-1 <? igeom) && negb (i =? igeom)).
    + destruct (IH (i + 1) cat nogeom) as (IH1 & IH2); [lia|].
      split; [lia | assumption].
    + destruct (linearized g) as [g'|].
      * set (cat' := if -1 <? key_idx then OGR_F_GetFieldAsInteger f key_idx
                     else if key_idx =? -1 then F_fid f else cat).
        destruct (IH (i + 1) cat' nogeom) as (IH1 & IH2); [lia|].
        destruct (import_geometries key_idx igeom field f (i + 1) tl cat' nogeom)
          as [[evs c] n]. cbn [fst snd] in *.
        split; [|assumption].
        cbn [geom_calls flat_map app length]. fold (geom_calls evs). lia.
      * destruct (IH (i + 1) cat (nogeom + 1)) as (IH1 & IH2); [lia|].
        split; [lia | assumption].
Qed.

Lemma rows_app evs evs' : rows (evs ++ evs') = (rows evs ++ rows evs')%list.
Proof. unfold rows. apply flat_map_app. Qed.

Lemma import_features_account key_idx igeom notab field : forall fs cat nogeom,
  let r := import_features key_idx igeom notab field fs cat nogeom in
  Z.of_nat (length (concat (map geom_calls (fst (fst r))))) + snd r
  = nogeom + fold_right (fun f n => fields_read igeom f + n) 0 fs /\
  length (fst (fst r)) = length fs /\
  Forall (fun evs => length (rows evs) = if notab then 0%nat else 1%nat)
         (fst (fst r)).
Proof.
  induction fs as [|f tl IH]; intros cat nogeom; cbn [import_features].
  - cbn. split; [lia|]. split; [reflexivity | constructor].
  - unfold import_feature.
    destruct (import_geometries_account key_idx igeom field f (F_geoms f) 0
                cat nogeom (Z.le_refl 0)) as (Hacc & Hrows).
    destruct (import_geometries key_idx igeom field f 0 (F_geoms f) cat nogeom)
      as [[evs c1] n1]. cbn [fst snd] in Hacc, Hrows.
    specialize (IH (c1 + 1) n1).
    destruct (import_features key_idx igeom notab field tl (c1 + 1) n1)
      as [[rest c] n]. cbn [fst snd] in IH. destruct IH as (IH1 & IH2 & IH3).
    cbn [fst snd map concat length fold_right].
    assert (Hf : (if -1 <? igeom
                  then (if (0 <=? igeom) && (igeom <? 0 + Z.of_nat (length (F_geoms f)))
                        then 1 else 0)
                  else Z.of_nat (length (F_geoms f)))
                 = fields_read igeom f).
    { unfold fields_read. destruct (Z.ltb_spec (-1) igeom); [|reflexivity].
      destruct (Z.leb_spec 0 igeom); [|lia]. cbn [andb].
      rewrite Z.add_0_l. reflexivity. }
    rewrite Hf in Hacc.
    assert (Hg : geom_calls (if notab then evs else evs ++ [Insert_row field c1])
                 = geom_calls evs).
    { destruct notab; [reflexivity|]. rewrite geom_calls_app. cbn. apply app_nil_r. }
    rewrite Hg, length_app.
    split; [lia|]. split; [lia|].
    constructor; [|assumption].
    destruct notab.
    + rewrite Hrows. reflexivity.
    + rewrite rows_app, Hrows. reflexivity.
Qed.

(** X19.  The import pass of a layer accounts for every geometry field it
    takes up: the calls of [geom] and the count [nogeom] of the geometries
    that are missing or cannot be made linear add up to the number of
    fields taken up.  Every feature handed out gives one row when tables
    are written, whether it has a geometry or not, and none with [-t]. *)
Theorem import_accounts_for_geometries key_idx igeom notab layer fs :
  let r := import_layer key_idx igeom notab layer fs in
  Z.of_nat (length (concat (map geom_calls (fst (fst r))))) + snd r
  = fold_right (fun f n => fields_read igeom f + n) 0 fs /\
  length (fst (fst r)) = length fs /\
  Forall (fun evs => length (rows evs) = if notab then 0%nat else 1%nat)
         (fst (fst r)).
Proof.
  cbv zeta. unfold import_layer.
  destruct (import_features_account key_idx igeom notab (layer + 1) fs 1 0)
    as (H1 & H2 & H3).
  split; [rewrite H1; lia|]. split; assumption.
Qed.

End Features.

(** *** The passes on small layers *)

(** Geometries are numbers here and none has curves. *)
Definition keep (g : Z) : option Z := Some g.

(** A feature without geometry between two features with one, no key
    column: the middle feature takes the number 2 in both passes. *)
Example missing_geometry_takes_a_number :
  import_layer Z keep (-2) (-1) false 0
    [ mkFeature Z 100 [] [Some 5]; mkFeature Z 101 [] [None];
      mkFeature Z 102 [] [Some 6] ]
  = ([ [Geom Z 5 1 1; Insert_row Z 1 1]; [Insert_row Z 1 2];
       [Geom Z 6 1 3; Insert_row Z 1 3] ], 4, 1) /\
  centroid_layer Z keep (-2) (-1) 0
    [ mkFeature Z 100 [] [Some 5]; mkFeature Z 101 [] [None];
      mkFeature Z 102 [] [Some 6] ]
  = ([ [Centroid_call Z 5 1 1]; []; [Centroid_call Z 6 1 3] ], 3).
Proof. split; reflexivity. Qed.

Lemma passes_agree_without_key_witness :
  (nth_error
     (fst (fst (import_layer Z keep (-2) (-1) false 0
                  [ mkFeature Z 100 [] [Some 5]; mkFeature Z 101 [] [None];
                    mkFeature Z 102 [] [Some 6] ]))) 1
   = Some [Insert_row Z 1 2] /\
   nth_error
     (fst (centroid_layer Z keep (-2) (-1) 0
             [ mkFeature Z 100 [] [Some 5]; mkFeature Z 101 [] [None];
               mkFeature Z 102 [] [Some 6] ])) 1
   = Some []) /\
  Forall (fun e => import_cat Z e = 3) [Geom Z 6 1 3; Insert_row Z 1 3] /\
  Forall (fun e => centroid_cat Z e = 3) [Centroid_call Z 6 1 3] /\
  (false = false -> In (Insert_row Z 1 3) [Geom Z 6 1 3; Insert_row Z 1 3]).
Proof.
  pose proof (passes_agree_without_key Z keep (-1) false 0
                [ mkFeature Z 100 [] [Some 5]; mkFeature Z 101 [] [None];
                  mkFeature Z 102 [] [Some 6] ]) as H.
  cbv zeta in H. destruct H as (_ & _ & _ & _ & Hev & Hcat). split.
  - exact (Hev 1%nat (mkFeature Z 101 [] [None]) eq_refl).
  - apply (Hcat 2%nat); reflexivity.
Defined.

(** C5.  A layer whose key is the FID column ([key_idx = -1]), with one
    polygon feature of FID 7: the import pass writes the geometry and the
    row with category 7, the centroid pass hands category 1 to
    [centroid]. *)
Theorem fid_key_not_used_by_centroid_pass :
  import_layer Z keep (-1) (-1) false 0 [mkFeature Z 7 [] [Some 5]]
  = ([[Geom Z 5 1 7; Insert_row Z 1 7]], 8, 0) /\
  centroid_layer Z keep (-1) (-1) 0 [mkFeature Z 7 [] [Some 5]]
  = ([[Centroid_call Z 5 1 1]], 1).
Proof. split; reflexivity. Qed.

(** A layer whose key is field 0, with a feature of key 10 and a feature of
    key 20 without geometry: the row of the second one is written with
    category 11. *)
Example key_not_read_without_geometry :
  import_layer Z keep 0 (-1) false 0
    [mkFeature Z 1 [10] [Some 5]; mkFeature Z 2 [20] [None]]
  = ([[Geom Z 5 1 10; Insert_row Z 1 10]; [Insert_row Z 1 11]], 12, 1).
Proof. reflexivity. Qed.

Lemma passes_write_the_same_geometries_witness :
  map (geom_calls Z)
      (fst (fst (import_layer Z keep 0 (-1) false 0
                   [mkFeature Z 1 [10] [Some 5]; mkFeature Z 2 [20] [None]])))
  = map (centroid_calls Z)
      (fst (centroid_layer Z keep 0 (-1) 0
              [mkFeature Z 1 [10] [Some 5]; mkFeature Z 2 [20] [None]])).
Proof.
  apply (passes_write_the_same_geometries Z keep 0 (-1) false 0
           [mkFeature Z 1 [10] [Some 5]; mkFeature Z 2 [20] [None]]).
  lia.
Defined.

End Passes.

(** ** Centroids: categories of the areas and their write-out *)

Module Centroids.

Local Open Scope Z_scope.

(** [struct line_cats]: the (field, category) pairs of a feature, in the
    order they were set; [n_cats] is the length. *)
Definition line_cats : Type := list (Z * Z).

Definition n_cats (cs : line_cats) : Z := Z.of_nat (length cs).

Definition has_cat (cs : line_cats) (field cat : Z) : bool :=
  existsb (fun fc => (fst fc =? field) && (snd fc =? cat)) cs.

(** Modelled from the spec: [Vect_cat_set] belongs to the vector library
    and is not in [main.c].  The specification has a record hold "an
    accumulating set of (field, category) pairs": a pair that is there
    already is not added again, a new one is put at the end. *)
Definition Vect_cat_set (cs : line_cats) (field cat : Z) : line_cats :=
  if has_cat cs field cat then cs else cs ++ [(field, cat)].

Section Reattach.

Variable Geometry : Type.
Variable OGR_G_GetLinearGeometry : Geometry -> option Geometry.
Variable Point : Type.
(** The point lies inside the polygons of the geometry ([geom.c], not in
    [main.c]); [false] for a geometry without polygon. *)
Variable inside : Geometry -> Point -> bool.
(** Type masks of the vector library, which [main.c] only names. *)
Variables GV_POINT GV_CENTROID : Z.

(** [CENTR]: [c_point] is [None] as long as [x] and [y] have not been
    set, which is the case exactly when [valid] is 0. *)
Record CENTR : Type := mkCENTR {
  valid : bool;
  c_point : option Point;
  cats : line_cats
}.

(** The loop that makes one record per area: [pts] is what
    [Vect_get_point_in_area] gives for the areas 1, 2, ... ([None] when it
    fails). *)
Definition new_centroid (p : option Point) : CENTR :=
  match p with
  | Some q => mkCENTR true (Some q) []
  | None => mkCENTR false None []
  end.

Definition new_centroids (pts : list (option Point)) : list CENTR :=
  map new_centroid pts.

(** Modelled from the spec: [centroid] is defined in [geom.c], which is not
    among the sources.  The specification has it look up the records whose
    point the polygon contains and add the pair (layer, category) of the
    feature to each of them; records without point are not in the spatial
    index. *)
Definition centroid (g : Geometry) (Centr : list CENTR) (field cat : Z)
    : list CENTR :=
  map (fun c =>
         match c_point c with
         | Some p =>
             if valid c && inside g p
             then mkCENTR (valid c) (c_point c) (Vect_cat_set (cats c) field cat)
             else c
         | None => c
         end) Centr.

Definition apply_event (Centr : list CENTR)
    (e : Passes.centroid_event Geometry) : list CENTR :=
  match e with Passes.Centroid_call _ g field cat => centroid g Centr field cat end.

(** The centroid pass over one layer, on the records. *)
Definition find_centroids (key_idx igeom layer : Z)
    (fs : list (Passes.OGRFeature Geometry)) (Centr : list CENTR) : list CENTR :=
  fold_left apply_event
    (concat (fst (Passes.centroid_layer Geometry OGR_G_GetLinearGeometry
                    key_idx igeom layer fs)))
    Centr.

(** What [Vect_write_line] is called with. *)
Record written : Type := mkWritten {
  w_type : Z;
  w_point : option Point;
  w_cats : line_cats
}.

(** [if (type & GV_POINT) otype = GV_POINT; else otype = GV_CENTROID;] *)
Definition otype (type : Z) : Z :=
  if negb (Z.land type GV_POINT =? 0) then GV_POINT else GV_CENTROID.

(** The loop "Write centroids"; the two counters are [n_overlaps] and
    [n_nocat].  The sums of areas it also keeps are not modelled: they go
    into messages only. *)
Fixpoint write_centroids (nlayers type : Z) (Centr : list CENTR)
    (n_overlaps n_nocat : Z) : list written * Z * Z :=
  match Centr with
  | [] => ([], n_overlaps, n_nocat)
  | c :: tl =>
      if negb (valid c) then write_centroids nlayers type tl n_overlaps n_nocat
      else if n_cats (cats c) =? 0
      then write_centroids nlayers type tl n_overlaps (n_nocat + 1)
      else
        let (cs, n_ov) :=
          if 1 <? n_cats (cats c)
          then (Vect_cat_set (cats c) (nlayers + 1) (n_cats (cats c)), n_overlaps + 1)
          else (cats c, n_overlaps) in
        let '(ws, a, b) := write_centroids nlayers type tl n_ov n_nocat in
        (mkWritten (otype type) (c_point c) cs :: ws, a, b)
  end.

(** *** The category of an overlap *)

Definition fields_within (nlayers : Z) (cs : line_cats) : Prop :=
  Forall (fun fc => fst fc <= nlayers) cs.

Lemma has_cat_beyond nlayers cs cat :
  fields_within nlayers cs -> has_cat cs (nlayers + 1) cat = false.
Proof.
  unfold has_cat. induction 1 as [|fc tl Hfc _ IH]; cbn [existsb]; auto.
  rewrite IH. destruct (Z.eqb_spec (fst fc) (nlayers + 1)); [lia | reflexivity].
Qed.

Lemma write_centroids_in nlayers type c : forall Centr n_ov n_no,
  In c Centr -> valid c = true -> 1 < n_cats (cats c) ->
  fields_within nlayers (cats c) ->
  In (mkWritten (otype type) (c_point c)
        (cats c ++ [(nlayers + 1, n_cats (cats c))]))
     (fst (fst (write_centroids nlayers type Centr n_ov n_no))).
Proof.
  induction Centr as [|c0 tl IH]; intros n_ov n_no Hin Hv Hn Hf; [destruct Hin|].
  cbn [write_centroids].
  assert (Hstep : forall n_ov' n_no', In c tl ->
            In (mkWritten (otype type) (c_point c)
                  (cats c ++ [(nlayers + 1, n_cats (cats c))]))
               (fst (fst (write_centroids nlayers type tl n_ov' n_no')))).
  { intros; apply IH; assumption. }
  destruct Hin as [->|Hin].
  - rewrite Hv. cbn [negb].
    destruct (Z.eqb_spec (n_cats (cats c)) 0); [lia|].
    destruct (Z.ltb_spec 1 (n_cats (cats c))); [|lia].
    destruct (write_centroids nlayers type tl (n_ov + 1) n_no) as [[ws a] b].
    cbn [fst]. left. unfold Vect_cat_set.
    rewrite (has_cat_beyond _ _ _ Hf). reflexivity.
  - destruct (negb (valid c0)); [auto|].
    destruct (n_cats (cats c0) =? 0); [auto|].
    destruct (1 <? n_cats (cats c0)).
    + specialize (Hstep (n_ov + 1) n_no Hin).
      destruct (write_centroids nlayers type tl (n_ov + 1) n_no) as [[ws a] b].
      right. exact Hstep.
    + specialize (Hstep n_ov n_no Hin).
      destruct (write_centroids nlayers type tl n_ov n_no) as [[ws a] b].
      right. exact Hstep.
Qed.

(** The fields the centroid pass sets are those of the layers. *)
Lemma Vect_cat_set_within nlayers cs field cat :
  field <= nlayers -> fields_within nlayers cs ->
  fields_within nlayers (Vect_cat_set cs field cat).
Proof.
  intros Hf H. unfold Vect_cat_set. destruct (has_cat cs field cat); [assumption|].
  apply Forall_app; split; [assumption|]. constructor; [assumption | constructor].
Qed.

Lemma centroid_within nlayers g Centr field cat :
  field <= nlayers ->
  Forall (fun c => fields_within nlayers (cats c)) Centr ->
  Forall (fun c => fields_within nlayers (cats c)) (centroid g Centr field cat).
Proof.
  intros Hf H. unfold centroid. apply Forall_map.
  eapply Forall_impl; [|exact H]. intros c Hc. cbv beta.
  destruct (c_point c) as [p|]; [|assumption].
  destruct (valid c && inside g p); [|assumption].
  cbn [cats]. apply Vect_cat_set_within; assumption.
Qed.

Lemma centroid_nth g Centr field cat k c p :
  nth_error Centr k = Some c -> c_point c = Some p -> valid c = true ->
  inside g p = true ->
  nth_error (centroid g Centr field cat) k
  = Some (mkCENTR true (Some p) (Vect_cat_set (cats c) field cat)).
Proof.
  intros E Hp Hv Hi. unfold centroid. rewrite nth_error_map, E. cbn [option_map].
  rewrite Hp, Hv, Hi. reflexivity.
Qed.

Lemma write_centroids_single nlayers type c : forall Centr n_ov n_no,
  In c Centr -> valid c = true -> n_cats (cats c) = 1 ->
  In (mkWritten (otype type) (c_point c) (cats c))
     (fst (fst (write_centroids nlayers type Centr n_ov n_no))).
Proof.
  induction Centr as [|c0 tl IH]; intros n_ov n_no Hin Hv Hn; [destruct Hin|].
  cbn [write_centroids].
  assert (Hstep : forall n_ov' n_no', In c tl ->
            In (mkWritten (otype type) (c_point c) (cats c))
               (fst (fst (write_centroids nlayers type tl n_ov' n_no')))).
  { intros; apply IH; assumption. }
  destruct Hin as [->|Hin].
  - rewrite Hv. cbn [negb].
    destruct (Z.eqb_spec (n_cats (cats c)) 0); [lia|].
    destruct (Z.ltb_spec 1 (n_cats (cats c))); [lia|].
    destruct (write_centroids nlayers type tl n_ov n_no) as [[ws a] b].
    cbn [fst]. left. reflexivity.
  - destruct (negb (valid c0)); [auto|].
    destruct (n_cats (cats c0) =? 0); [auto|].
    destruct (1 <? n_cats (cats c0)).
    + specialize (Hstep (n_ov + 1) n_no Hin).
      destruct (write_centroids nlayers type tl (n_ov + 1) n_no) as [[ws a] b].
      right. exact Hstep.
    + specialize (Hstep n_ov n_no Hin).
      destruct (write_centroids nlayers type tl n_ov n_no) as [[ws a] b].
      right. exact Hstep.
Qed.

(** *** The categories a record gathers *)

Lemma has_cat_In cs field cat : has_cat cs field cat = true <-> In (field, cat) cs.
Proof.
  unfold has_cat. rewrite existsb_exists. split.
  - intros ([f c] & Hin & H). cbn [fst snd] in H.
    apply andb_true_iff in H. destruct H as [Hf Hc].
    apply Z.eqb_eq in Hf. apply Z.eqb_eq in Hc. subst. assumption.
  - intros Hin. exists (field, cat). split; [assumption|].
    cbn [fst snd]. rewrite !Z.eqb_refl. reflexivity.
Qed.

(** [Vect_cat_set] keeps a list of categories free of repetitions. *)
Lemma Vect_cat_set_spec cs field cat :
  NoDup cs ->
  NoDup (Vect_cat_set cs field cat) /\
  forall x, In x (Vect_cat_set cs field cat) <-> In x cs \/ x = (field, cat).
Proof.
  intros Hnd. unfold Vect_cat_set. destruct (has_cat cs field cat) eqn:Hh.
  - apply has_cat_In in Hh. split; [assumption|]. intros x. split; [auto|].
    intros [H| ->]; assumption.
  - assert (Hnot : ~ In (field, cat) cs).
    { intros Hin. apply has_cat_In in Hin. congruence. }
    split.
    + apply NoDup_app; [assumption | repeat constructor; intros [] |].
      intros x Hx [<-|[]]. contradiction.
    + intros x. rewrite in_app_iff. cbn [In]. split.
      * intros [H|[<-|[]]]; auto.
      * intros [H| ->]; auto.
Qed.

Lemma centroid_nth_outside g Centr field cat k c p :
  nth_error Centr k = Some c -> c_point c = Some p ->
  inside g p = false ->
  nth_error (centroid g Centr field cat) k = Some c.
Proof.
  intros E Hp Hi. unfold centroid. rewrite nth_error_map, E. cbn [option_map].
  rewrite Hp, Hi, andb_false_r. reflexivity.
Qed.

(** After any calls of [centroid], the record of a point holds, each once,
    the pairs it held before and the pairs of the calls whose geometry
    contains the point. *)
Lemma categories_gathered : forall evs Centr k c p,
  nth_error Centr k = Some c -> valid c = true -> c_point c = Some p ->
  NoDup (cats c) ->
  exists c',
    nth_error (fold_left apply_event evs Centr) k = Some c' /\
    valid c' = true /\ c_point c' = Some p /\ NoDup (cats c') /\
    forall field cat,
      In (field, cat) (cats c') <->
      In (field, cat) (cats c) \/
      exists g, In (Passes.Centroid_call Geometry g field cat) evs /\ inside g p = true.
Proof.
  induction evs as [|e evs IH]; intros Centr k c p E Hv Hp Hnd.
  - exists c. cbn [fold_left]. repeat (split; [assumption|]).
    intros field cat. split; [auto|]. intros [H|(g & [] & _)]. assumption.
  - destruct e as [g field0 cat0]. cbn [fold_left apply_event].
    destruct (inside g p) eqn:Hi.
    + pose proof (centroid_nth g Centr field0 cat0 k c p E Hp Hv Hi) as E1.
      destruct (Vect_cat_set_spec (cats c) field0 cat0 Hnd) as [Hnd1 Hin1].
      destruct (IH _ k _ p E1 eq_refl eq_refl Hnd1) as (c' & E' & V' & P' & N' & I').
      cbn [cats] in I'.
      exists c'. repeat (split; [assumption|]).
      intros field cat. rewrite I', Hin1. cbn [In]. split.
      * intros [[H|H]|(g' & Hin & Hg')].
        -- left; assumption.
        -- right. inversion H; subst. exists g. split; [left; reflexivity | assumption].
        -- right. exists g'. split; [right; assumption | assumption].
      * intros [H|(g' & [Heq|Hin] & Hg')].
        -- left; left; assumption.
        -- inversion Heq; subst. left; right; reflexivity.
        -- right. exists g'. split; assumption.
    + pose proof (centroid_nth_outside g Centr field0 cat0 k c p E Hp Hi) as E1.
      destruct (IH _ k _ p E1 Hv Hp Hnd) as (c' & E' & V' & P' & N' & I').
      exists c'. repeat (split; [assumption|]).
      intros field cat. rewrite I'. cbn [In]. split.
      * intros [H|(g' & Hin & Hg')]; [left; assumption|].
        right. exists g'. split; [right; assumption | assumption].
      * intros [H|(g' & [Heq|Hin] & Hg')]; [left; assumption | |].
        -- inversion Heq; subst. congruence.
        -- right. exists g'. split; assumption.
Qed.

(** A list without repetitions has more than one member exactly when it
    has two different ones. *)
Lemma more_than_one (cs : line_cats) :
  NoDup cs ->
  (1 < n_cats cs <-> exists x y, In x cs /\ In y cs /\ x <> y).
Proof.
  intros Hnd. unfold n_cats. split.
  - destruct cs as [|x [|y tl]]; cbn [length]; try lia. intros _.
    exists x, y. split; [left; reflexivity|]. split; [right; left; reflexivity|].
    inversion Hnd as [|? ? Hx _]. intros ->. apply Hx. left. reflexivity.
  - intros (x & y & Hx & Hy & Hne).
    destruct cs as [|a [|b tl]]; cbn [length]; try lia.
    + destruct Hx.
    + destruct Hx as [<-|[]]. destruct Hy as [<-|[]]. contradiction.
Qed.

(** The field of a call of [centroid]. *)
Definition call_field (e : Passes.centroid_event Geometry) : Z :=
  match e with Passes.Centroid_call _ _ field _ => field end.

(** The two calls of the centroid pass for two features with one geometry
    each. *)
Lemma two_polygons_calls key_idx igeom layer f1 f2 g1 g2 h1 h2 :
  igeom <= 0 ->
  Passes.F_geoms Geometry f1 = [Some g1] ->
  Passes.F_geoms Geometry f2 = [Some g2] ->
  OGR_G_GetLinearGeometry g1 = Some h1 ->
  OGR_G_GetLinearGeometry g2 = Some h2 ->
  concat (fst (Passes.centroid_layer Geometry OGR_G_GetLinearGeometry
                 key_idx igeom layer [f1; f2]))
  = [ Passes.Centroid_call Geometry h1 (layer + 1)
        (if -1 <? key_idx then Passes.OGR_F_GetFieldAsInteger Geometry f1 key_idx
         else 1);
      Passes.Centroid_call Geometry h2 (layer + 1)
        (if -1 <? key_idx then Passes.OGR_F_GetFieldAsInteger Geometry f2 key_idx
         else 2) ].
Proof.
  intros Hig G1 G2 L1 L2. unfold Passes.centroid_layer.
  cbn [Passes.centroid_features Passes.centroid_feature]. rewrite G1, G2.
  cbn [Passes.centroid_geometries Passes.linearized].
  assert (Hskip : (-1 <? igeom) && negb (0 =? igeom) = false).
  { destruct (Z.ltb_spec (-1) igeom); [|reflexivity].
    destruct (Z.eqb_spec 0 igeom); [reflexivity | lia]. }
  rewrite Hskip, L1, L2. cbn [fst concat app].
  destruct (-1 <? key_idx); reflexivity.
Qed.

Lemma two_polygons_over_a_point key_idx igeom layer pts k p f1 f2 g1 g2 h1 h2 :
  igeom <= 0 ->
  nth_error pts k = Some (Some p) ->
  Passes.F_geoms Geometry f1 = [Some g1] ->
  Passes.F_geoms Geometry f2 = [Some g2] ->
  OGR_G_GetLinearGeometry g1 = Some h1 ->
  OGR_G_GetLinearGeometry g2 = Some h2 ->
  inside h1 p = true -> inside h2 p = true ->
  let c1 := if -1 <? key_idx then Passes.OGR_F_GetFieldAsInteger Geometry f1 key_idx
            else 1 in
  let c2 := if -1 <? key_idx then Passes.OGR_F_GetFieldAsInteger Geometry f2 key_idx
            else 2 in
  nth_error (find_centroids key_idx igeom layer [f1; f2] (new_centroids pts)) k
  = Some (mkCENTR true (Some p)
            (if c1 =? c2 then [(layer + 1, c1)]
             else [(layer + 1, c1); (layer + 1, c2)])).
Proof.
  intros Hig Hk G1 G2 L1 L2 I1 I2 c1 c2.
  unfold find_centroids.
  rewrite (two_polygons_calls key_idx igeom layer f1 f2 g1 g2 h1 h2 Hig G1 G2 L1 L2).
  fold c1 c2. cbn [fold_left apply_event].
  assert (E0 : nth_error (new_centroids pts) k = Some (mkCENTR true (Some p) [])).
  { unfold new_centroids. rewrite nth_error_map, Hk. reflexivity. }
  pose proof (centroid_nth h1 _ (layer + 1) c1 k _ p E0 eq_refl eq_refl I1) as E1.
  pose proof (centroid_nth h2 _ (layer + 1) c2 k _ p E1 eq_refl eq_refl I2) as E2.
  rewrite E2. cbn [cats]. unfold Vect_cat_set, has_cat. cbn [existsb fst snd app].
  rewrite Z.eqb_refl. cbn [andb orb]. rewrite orb_false_r.
  destruct (c1 =? c2); reflexivity.
Qed.

(** C4, as the code has it.  A valid record with more than one category,
    whose categories all are in fields of the layers, is written with one
    more category: field [nlayers + 1], value the number of its
    categories.  The categories of the record of an area are the pairs
    (field, category) of the calls of [centroid] whose polygon contains the
    point of the area, each pair once: the record has more than one
    category, and is written with the count, exactly when two such calls
    differ in the pair; when they all carry one pair it is written with
    that pair alone.  Two polygon features of a layer that both contain
    the point of an area leave its record with two categories and the
    count 2 when the centroid pass gives them different categories, which
    it does without key column; with a key column and the same key value
    for both, the record keeps the one category and is written without
    a count. *)
Theorem overlap_count_category nlayers type :
  (forall Centr c,
     In c Centr -> valid c = true -> 1 < n_cats (cats c) ->
     fields_within nlayers (cats c) ->
     In (mkWritten (otype type) (c_point c)
           (cats c ++ [(nlayers + 1, n_cats (cats c))]))
        (fst (fst (write_centroids nlayers type Centr 0 0)))) /\
  (forall evs pts k p,
     nth_error pts k = Some (Some p) ->
     Forall (fun e => call_field e <= nlayers) evs ->
     let Centr := fold_left apply_event evs (new_centroids pts) in
     let ws := fst (fst (write_centroids nlayers type Centr 0 0)) in
     exists c,
       nth_error Centr k = Some c /\ valid c = true /\ c_point c = Some p /\
       NoDup (cats c) /\
       (forall field cat,
          In (field, cat) (cats c) <->
          exists g, In (Passes.Centroid_call Geometry g field cat) evs /\
                    inside g p = true) /\
       (1 < n_cats (cats c) <->
        exists g1 field1 cat1 g2 field2 cat2,
          In (Passes.Centroid_call Geometry g1 field1 cat1) evs /\ inside g1 p = true /\
          In (Passes.Centroid_call Geometry g2 field2 cat2) evs /\ inside g2 p = true /\
          (field1, cat1) <> (field2, cat2)) /\
       (1 < n_cats (cats c) ->
        In (mkWritten (otype type) (Some p)
              (cats c ++ [(nlayers + 1, n_cats (cats c))])) ws) /\
       (n_cats (cats c) = 1 -> In (mkWritten (otype type) (Some p) (cats c)) ws)) /\
  (forall key_idx igeom layer pts k p f1 f2 g1 g2 h1 h2,
     igeom <= 0 -> layer + 1 <= nlayers ->
     nth_error pts k = Some (Some p) ->
     Passes.F_geoms Geometry f1 = [Some g1] ->
     Passes.F_geoms Geometry f2 = [Some g2] ->
     OGR_G_GetLinearGeometry g1 = Some h1 ->
     OGR_G_GetLinearGeometry g2 = Some h2 ->
     inside h1 p = true -> inside h2 p = true ->
     let c1 := if -1 <? key_idx
               then Passes.OGR_F_GetFieldAsInteger Geometry f1 key_idx else 1 in
     let c2 := if -1 <? key_idx
               then Passes.OGR_F_GetFieldAsInteger Geometry f2 key_idx else 2 in
     let Centr := find_centroids key_idx igeom layer [f1; f2] (new_centroids pts) in
     let ws := fst (fst (write_centroids nlayers type Centr 0 0)) in
     (c1 <> c2 ->
      nth_error Centr k
      = Some (mkCENTR true (Some p) [(layer + 1, c1); (layer + 1, c2)]) /\
      In (mkWritten (otype type) (Some p)
            [(layer + 1, c1); (layer + 1, c2); (nlayers + 1, 2)]) ws) /\
     (c1 = c2 ->
      nth_error Centr k = Some (mkCENTR true (Some p) [(layer + 1, c1)]) /\
      In (mkWritten (otype type) (Some p) [(layer + 1, c1)]) ws)).
Proof.
  split; [|split].
  - intros Centr c Hin Hv Hn Hf. apply write_centroids_in; assumption.
  - intros evs pts k p Hk Hfields Centr ws.
    assert (E0 : nth_error (new_centroids pts) k = Some (mkCENTR true (Some p) [])).
    { unfold new_centroids. rewrite nth_error_map, Hk. reflexivity. }
    destruct (categories_gathered evs _ k _ p E0 eq_refl eq_refl (NoDup_nil _))
      as (c & E & Hv & Hp & Hnd & Hin).
    cbn [cats In] in Hin.
    assert (Hin' : forall field cat,
              In (field, cat) (cats c) <->
              exists g, In (Passes.Centroid_call Geometry g field cat) evs /\
                        inside g p = true).
    { intros field cat. rewrite Hin. split; [intros [[]|H]; exact H | auto]. }
    assert (Hc : In c Centr) by (eapply nth_error_In; exact E).
    assert (Hw : fields_within nlayers (cats c)).
    { apply Forall_forall. intros [field cat] Hx. apply Hin' in Hx.
      destruct Hx as (g & Hev & _).
      rewrite Forall_forall in Hfields. exact (Hfields _ Hev). }
    exists c. repeat (split; [assumption|]). split; [|split].
    + rewrite (more_than_one (cats c) Hnd). split.
      * intros ([fa ca] & [fb cb] & Ha & Hb & Hne).
        apply Hin' in Ha. apply Hin' in Hb.
        destruct Ha as (ga & Ha & Ia). destruct Hb as (gb & Hb & Ib).
        exists ga, fa, ca, gb, fb, cb. auto.
      * intros (ga & fa & ca & gb & fb & cb & Ha & Ia & Hb & Ib & Hne).
        exists (fa, ca), (fb, cb).
        split; [apply Hin'; exists ga; auto|].
        split; [apply Hin'; exists gb; auto | assumption].
    + intros Hn. rewrite <- Hp.
      apply (write_centroids_in nlayers type c Centr 0 0); assumption.
    + intros Hn. rewrite <- Hp.
      apply (write_centroids_single nlayers type c Centr 0 0); assumption.
  - intros key_idx igeom layer pts k p f1 f2 g1 g2 h1 h2 Hig Hl Hk G1 G2 L1 L2 I1 I2
           c1 c2 Centr ws.
    pose proof (two_polygons_over_a_point key_idx igeom layer pts k p f1 f2 g1 g2 h1 h2
                  Hig Hk G1 G2 L1 L2 I1 I2) as E.
    cbv zeta in E. fold c1 c2 Centr in E.
    split.
    + intros Hne. destruct (Z.eqb_spec c1 c2); [contradiction|].
      split; [assumption|].
      apply (write_centroids_in nlayers type
               (mkCENTR true (Some p) [(layer + 1, c1); (layer + 1, c2)]) Centr 0 0).
      * eapply nth_error_In; eassumption.
      * reflexivity.
      * cbn. lia.
      * repeat constructor; cbn; lia.
    + intros Heq. destruct (Z.eqb_spec c1 c2); [|contradiction].
      split; [assumption|].
      apply (write_centroids_single nlayers type
               (mkCENTR true (Some p) [(layer + 1, c1)]) Centr 0 0).
      * eapply nth_error_In; eassumption.
      * reflexivity.
      * reflexivity.
Qed.

(** *** What the write-out counts *)

(** The records of the three kinds the loop tells apart among the valid
    ones, and those it writes. *)
Definition overlapping (c : CENTR) : bool := valid c && (1 <? n_cats (cats c)).
Definition uncategorised (c : CENTR) : bool := valid c && (n_cats (cats c) =? 0).
Definition to_write (c : CENTR) : bool := valid c && negb (n_cats (cats c) =? 0).

Lemma write_centroids_counts nlayers type : forall Centr n_ov n_no,
  let r := write_centroids nlayers type Centr n_ov n_no in
  snd (fst r) = n_ov + Z.of_nat (length (filter overlapping Centr)) /\
  snd r = n_no + Z.of_nat (length (filter uncategorised Centr)) /\
  Forall2 (fun c w => w_type w = otype type /\ w_point w = c_point c /\
                      (n_cats (cats c) = 1 -> w_cats w = cats c))
          (filter to_write Centr) (fst (fst r)).
Proof.
  induction Centr as [|c tl IH]; intros n_ov n_no; cbn [write_centroids].
  - cbn. split; [lia|]. split; [lia | constructor].
  - cbn [filter].
    assert (Ho : overlapping c = valid c && (1 <? n_cats (cats c))) by reflexivity.
    assert (Hu : uncategorised c = valid c && (n_cats (cats c) =? 0)) by reflexivity.
    assert (Hw : to_write c = valid c && negb (n_cats (cats c) =? 0)) by reflexivity.
    destruct (valid c) eqn:Hv; cbn [negb andb] in *.
    + destruct (Z.eqb_spec (n_cats (cats c)) 0) as [H0|H0]; cbn [negb] in *.
      * destruct (Z.ltb_spec 1 (n_cats (cats c))); [lia|].
        rewrite Ho, Hu, Hw.
        destruct (IH n_ov (n_no + 1)) as (IH1 & IH2 & IH3).
        split; [exact IH1|]. split; [|exact IH3].
        rewrite IH2. cbn [length]. lia.
      * rewrite Hu, Hw.
        destruct (Z.ltb_spec 1 (n_cats (cats c))) as [H1|H1]; rewrite Ho.
        -- destruct (IH (n_ov + 1) n_no) as (IH1 & IH2 & IH3).
           destruct (write_centroids nlayers type tl (n_ov + 1) n_no) as [[ws a] b].
           cbn [fst snd] in *. split; [rewrite IH1; cbn [length]; lia|].
           split; [exact IH2|].
           constructor; [|exact IH3]. cbn. split; [reflexivity|].
           split; [reflexivity|]. lia.
        -- destruct (IH n_ov n_no) as (IH1 & IH2 & IH3).
           destruct (write_centroids nlayers type tl n_ov n_no) as [[ws a] b].
           cbn [fst snd] in *. split; [exact IH1|]. split; [exact IH2|].
           constructor; [|exact IH3]. cbn. auto.
    + rewrite Ho, Hu, Hw. apply IH.
Qed.

Lemma three_kinds (Centr : list CENTR) :
  (length (filter to_write Centr) + length (filter uncategorised Centr)
   + length (filter (fun c => negb (valid c)) Centr) = length Centr)%nat.
Proof.
  induction Centr as [|c tl IH]; [reflexivity|].
  cbn [filter].
  assert (Hu : uncategorised c = valid c && (n_cats (cats c) =? 0)) by reflexivity.
  assert (Hw : to_write c = valid c && negb (n_cats (cats c) =? 0)) by reflexivity.
  destruct (valid c); cbn [negb andb] in *;
    [destruct (n_cats (cats c) =? 0); cbn [negb] in * |];
    rewrite Hu, Hw; cbn [length]; lia.
Qed.

(** X20.  The loop that writes the centroids accounts for every record:
    the centroids written, the records counted in [n_nocat] and the records
    that are not valid add up to the number of records.  [n_overlaps] is
    the number of valid records with more than one category, [n_nocat] that
    of valid records without category.  The centroids written are those of
    the valid records with a category, in the order of the records, each at
    the point of its record, and a record with one category is written
    with that category alone. *)
Theorem every_record_is_accounted_for nlayers type Centr :
  let r := write_centroids nlayers type Centr 0 0 in
  Z.of_nat (length (fst (fst r))) + snd r
  + Z.of_nat (length (filter (fun c => negb (valid c)) Centr))
  = Z.of_nat (length Centr) /\
  snd (fst r) = Z.of_nat (length (filter overlapping Centr)) /\
  snd r = Z.of_nat (length (filter uncategorised Centr)) /\
  Forall2 (fun c w => w_type w = otype type /\ w_point w = c_point c /\
                      (n_cats (cats c) = 1 -> w_cats w = cats c))
          (filter to_write Centr) (fst (fst r)).
Proof.
  cbv zeta.
  destruct (write_centroids_counts nlayers type Centr 0 0) as (H1 & H2 & H3).
  pose proof (three_kinds Centr) as Hk.
  pose proof (Forall2_length H3) as Hl.
  split; [rewrite H2; lia|]. split; [rewrite H1; lia|].
  split; [rewrite H2; lia | exact H3].
Qed.

End Reattach.

(** *** Two overlapping squares *)

(** Geometries are boxes [(xmin, ymin, xmax, ymax)] with whole
    coordinates. *)
Definition box : Type := Z * Z * Z * Z.

Definition in_box (b : box) (p : Z * Z) : bool :=
  let '(xmin, ymin, xmax, ymax) := b in
  (xmin <? fst p) && (fst p <? xmax) && (ymin <? snd p) && (snd p <? ymax).

Definition as_it_is (b : box) : option box := Some b.

(** The squares (0,0)-(4,4) and (2,2)-(6,6); cleaning leaves three areas,
    with points (1,1), (3,3) and (5,5).  [GV_POINT] is 1 and [GV_CENTROID]
    is 8 below, one layer is imported and the type of the import is 4. *)
Definition two_squares : list (Passes.OGRFeature box) :=
  [ Passes.mkFeature box 10 [] [Some (0, 0, 4, 4)];
    Passes.mkFeature box 11 [] [Some (2, 2, 6, 6)] ].

Definition three_points : list (option (Z * Z)) :=
  [Some (1, 1); Some (3, 3); Some (5, 5)].

Example overlap_is_written_with_count :
  write_centroids (Z * Z) 1 8 1 4
    (find_centroids box as_it_is (Z * Z) in_box (-2) (-1) 0 two_squares
       (new_centroids (Z * Z) three_points)) 0 0
  = ([ mkWritten (Z * Z) 8 (Some (1, 1)) [(1, 1)];
       mkWritten (Z * Z) 8 (Some (3, 3)) [(1, 1); (1, 2); (2, 2)];
       mkWritten (Z * Z) 8 (Some (5, 5)) [(1, 2)] ], 1, 0).
Proof. reflexivity. Qed.

(** The same squares in a layer whose key column holds 5 for both. *)
Definition same_key_squares : list (Passes.OGRFeature box) :=
  [ Passes.mkFeature box 10 [5] [Some (0, 0, 4, 4)];
    Passes.mkFeature box 11 [5] [Some (2, 2, 6, 6)] ].

(** Two overlapping polygons with one key value: no record has two
    categories, the area of the overlap at (3,3) is written with the one
    category (1, 5), nothing is written in field [nlayers + 1] and no
    overlap is counted. *)
Lemma same_key_leaves_one_category :
  let Centr := find_centroids box as_it_is (Z * Z) in_box 0 (-1) 0 same_key_squares
                 (new_centroids (Z * Z) three_points) in
  Forall (fun c => n_cats (cats (Z * Z) c) = 1) Centr /\
  write_centroids (Z * Z) 1 8 1 4 Centr 0 0
  = ([ mkWritten (Z * Z) 8 (Some (1, 1)) [(1, 5)];
       mkWritten (Z * Z) 8 (Some (3, 3)) [(1, 5)];
       mkWritten (Z * Z) 8 (Some (5, 5)) [(1, 5)] ], 0, 0).
Proof.
  cbv zeta. split; [|reflexivity].
  repeat constructor.
Qed.

Lemma overlap_count_category_witness :
  (nth_error (find_centroids box as_it_is (Z * Z) in_box (-2) (-1) 0 two_squares
                (new_centroids (Z * Z) three_points)) 1
   = Some (mkCENTR (Z * Z) true (Some (3, 3)) [(1, 1); (1, 2)]) /\
   In (mkWritten (Z * Z) (otype 1 8 4) (Some (3, 3)) [(1, 1); (1, 2); (2, 2)])
      (fst (fst (write_centroids (Z * Z) 1 8 1 4
                   (find_centroids box as_it_is (Z * Z) in_box (-2) (-1) 0 two_squares
                      (new_centroids (Z * Z) three_points)) 0 0)))) /\
  (nth_error (find_centroids box as_it_is (Z * Z) in_box 0 (-1) 0 same_key_squares
                (new_centroids (Z * Z) three_points)) 1
   = Some (mkCENTR (Z * Z) true (Some (3, 3)) [(1, 5)]) /\
   In (mkWritten (Z * Z) (otype 1 8 4) (Some (3, 3)) [(1, 5)])
      (fst (fst (write_centroids (Z * Z) 1 8 1 4
                   (find_centroids box as_it_is (Z * Z) in_box 0 (-1) 0 same_key_squares
                      (new_centroids (Z * Z) three_points)) 0 0)))).
Proof.
  destruct (overlap_count_category box as_it_is (Z * Z) in_box 1 8 1 4) as (_ & _ & H).
  split.
  - refine (proj1 (H (-2) (-1) 0 three_points 1%nat (3, 3)
                     (Passes.mkFeature box 10 [] [Some (0, 0, 4, 4)])
                     (Passes.mkFeature box 11 [] [Some (2, 2, 6, 6)])
                     (0, 0, 4, 4) (2, 2, 6, 6) (0, 0, 4, 4) (2, 2, 6, 6)
                     _ _ _ _ _ _ _ _ _) _);
      first [reflexivity | lia | discriminate].
  - refine (proj2 (H 0 (-1) 0 three_points 1%nat (3, 3)
                     (Passes.mkFeature box 10 [5] [Some (0, 0, 4, 4)])
                     (Passes.mkFeature box 11 [5] [Some (2, 2, 6, 6)])
                     (0, 0, 4, 4) (2, 2, 6, 6) (0, 0, 4, 4) (2, 2, 6, 6)
                     _ _ _ _ _ _ _ _ _) _);
      first [reflexivity | lia | discriminate].
Defined.

End Centroids.

(** ** The estimate of the snapping threshold at the end of the import *)

Module Estimator.

Local Open Scope R_scope.

(** [struct bound_box], of which the estimate reads [N], [S], [E], [W]. *)
Record bound_box : Type := mkBox {
  N : R; S : R; E : R; W : R; T : R; B : R
}.

(** What a C computation comes to: a value, or nothing the language
    defines. *)
Inductive behaviour (A : Type) : Type :=
| Value (a : A)
| Undefined.

Arguments Value {A} a.
Arguments Undefined {A}.

Definition bind {A B : Type} (x : behaviour A) (f : A -> behaviour B) : behaviour B :=
  match x with
  | Value a => f a
  | Undefined => Undefined
  end.

Definition INT_MAX : Z := 2147483647.
Definition INT_MIN : Z := (- INT_MAX - 1)%Z.

(** The whole part of [x], the fraction cut off toward zero. *)
Definition trunc (x : R) : Z :=
  if Rle_dec 0 x then Int_part x else (- Int_part (- x))%Z.

(** [(int) x]: the fraction is cut off; when the whole part is not an
    [int] the conversion has no defined behaviour. *)
Definition int_of_double (x : R) : behaviour Z :=
  let t := trunc x in
  if ((INT_MIN <=? t) && (t <=? INT_MAX))%Z then Value t else Undefined.

(** [abs] of [<stdlib.h>] takes an [int]: the [double] the code passes is
    converted first, and [abs (INT_MIN)] is not defined. *)
Definition abs (x : R) : behaviour Z :=
  bind (int_of_double x) (fun i =>
  if (i =? INT_MIN)%Z then Undefined else Value (Z.abs i)).

(** [frexp]: [x = m * 2^e] with [1/2 <= |m| < 1], and [(0, 0)] at 0. *)
Definition frexp (x : R) : R * Z :=
  if Req_dec_T x 0 then (0, 0%Z)
  else
    let e := (Int_part (ln (Rabs x) / ln 2) + 1)%Z in
    (x / powerRZ 2 e, e).

Definition ldexp (m : R) (e : Z) : R := m * powerRZ 2 e.

(** [log10] where it is a real number, that is above 0. *)
Definition log10 (x : R) : R := ln x / ln 10.

(** The largest of the four absolute values, as the code computes it; the
    four calls of [abs] are made whatever their results. *)
Definition largest_coordinate (b : bound_box) : behaviour R :=
  bind (abs (E b)) (fun e =>
  bind (abs (W b)) (fun w =>
  bind (abs (N b)) (fun n =>
  bind (abs (S b)) (fun s =>
  let xmax := if (w <? e)%Z then IZR e else IZR w in
  let ymax := if (s <? n)%Z then IZR n else IZR s in
  Value (if Rlt_dec xmax ymax then ymax else xmax))))).

(** [frexp], [exp -= bits], [ldexp]. *)
Definition ulp (bits : Z) (xmax : R) : R :=
  let (m, e) := frexp xmax in ldexp m (e - bits).

(** The lines under "human readable".  At 0 [log10] gives minus infinity
    and below 0 not a number, and [(int)] of either is not defined; so is
    [(int) l + 1] when [(int) l] is [INT_MAX].  [log10] and [pow] are taken
    as the functions over the reals. *)
Definition human_readable (v : R) : behaviour R :=
  if Rlt_dec 0 v then
    let l := log10 v in
    bind (int_of_double l) (fun i =>
    if Rlt_dec l 0 then Value (powerRZ 10 i)
    else if (i <? INT_MAX)%Z then Value (powerRZ 10 (i + 1))
    else Undefined)
  else Undefined.

Definition min_snap (b : bound_box) : behaviour R :=
  bind (largest_coordinate b) (fun xmax => human_readable (ulp 52 xmax)).

Definition max_snap (b : bound_box) : behaviour R :=
  bind (largest_coordinate b) (fun xmax => human_readable (ulp 23 xmax)).

(** What is said to the user, each through [G_important_message]. *)
Inductive message : Type :=
| Separator
| Overlapping
| Need_cleaning
| Could_snap
| Estimated_range (lo hi : R)
| Try_at_least (v : R)
| Try_with (v : R)
| Manual_cleaning
| Polygons_lost (n : Z)
| Additional_areas (n : Z)
| Snap_too_large (snap : R).

(** The block [if (n_polygons && nlayers == 1)] at the end of [main];
    [ncentr] is [Vect_get_num_primitives(&Map, GV_CENTROID)].  Both bounds
    are computed before anything is said.  No path of it calls
    [G_fatal_error]. *)
Definition estimate (n_polygons nlayers ncentr n_overlaps : Z) (b : bound_box)
    (snap : R) : behaviour (list message) :=
  if (negb (n_polygons =? 0) && (nlayers =? 1))%Z then
    if (negb (ncentr =? n_polygons) || negb (n_overlaps =? 0))%Z then
      bind (min_snap b) (fun lo =>
      bind (max_snap b) (fun hi =>
      Value (Separator ::
           if negb (n_overlaps =? 0)%Z then
             [Overlapping; Need_cleaning]
             ++ (if Rlt_dec snap hi then [Could_snap; Estimated_range lo hi] else [])
             ++ (if Rlt_dec snap lo then [Try_at_least lo]
                 else if Rlt_dec snap hi then [Try_with (snap * 10)]
                 else [Manual_cleaning])
           else
             (if (ncentr <? n_polygons)%Z then [Polygons_lost (n_polygons - ncentr)] else [])
             ++ (if (n_polygons <? ncentr)%Z then [Additional_areas (ncentr - n_polygons)] else [])
             ++ (if Rgt_dec snap 0
                 then [Snap_too_large snap; Estimated_range lo hi; Manual_cleaning]
                 else [Could_snap; Estimated_range lo hi]))))
    else Value []
  else Value [].

(** The bounds [abs] takes with defined behaviour, those of magnitude 1 or
    more, and those of magnitude below 1. *)
Definition abs_defined (x : R) : Prop := - IZR INT_MAX - 1 < x < IZR INT_MAX + 1.
Definition beyond_unit (x : R) : Prop := x <= -1 \/ 1 <= x.

(** The largest of the four bounds' magnitudes, each with its fraction cut
    off. *)
Definition magnitude (b : bound_box) : Z :=
  Z.max (Z.max (Z.abs (trunc (E b))) (Z.abs (trunc (W b))))
        (Z.max (Z.abs (trunc (N b))) (Z.abs (trunc (S b)))).

(** *** The two bounds *)

Lemma ulp_scales bits x : ulp bits x = x * powerRZ 2 (- bits).
Proof.
  unfold ulp, frexp, ldexp. destruct (Req_dec_T x 0) as [->|Hx].
  - rewrite !Rmult_0_l. reflexivity.
  - set (e := (Int_part (ln (Rabs x) / ln 2) + 1)%Z).
    replace (e - bits)%Z with (e + - bits)%Z by lia.
    rewrite powerRZ_add by lra.
    assert (He : powerRZ 2 e <> 0) by (apply powerRZ_NOR; lra).
    field. assumption.
Qed.

Lemma ln2_pos : 0 < ln 2.
Proof. rewrite <- ln_1. apply ln_increasing; lra. Qed.

(** [frexp] splits a positive number as the C function does. *)
Lemma frexp_spec x :
  0 < x ->
  x = fst (frexp x) * powerRZ 2 (snd (frexp x)) /\ / 2 <= fst (frexp x) < 1.
Proof.
  intros Hx. unfold frexp. destruct (Req_dec_T x 0) as [->|_]; [lra|].
  rewrite (Rabs_pos_eq x) by lra.
  set (l := ln x / ln 2).
  destruct (base_Int_part l) as [H1 H2]. set (ip := Int_part l) in *.
  cbn [fst snd]. pose proof ln2_pos as L2.
  assert (Hpow : Rpower 2 l = x).
  { unfold Rpower, l. replace (ln x / ln 2 * ln 2) with (ln x) by (field; lra).
    apply exp_ln; assumption. }
  assert (Hup : x < powerRZ 2 (ip + 1)).
  { rewrite powerRZ_Rpower by lra. rewrite <- Hpow at 1.
    apply Rpower_lt; [lra|]. rewrite plus_IZR. lra. }
  assert (Hlow : powerRZ 2 ip <= x).
  { rewrite powerRZ_Rpower by lra. rewrite <- Hpow at 1.
    apply Rle_Rpower; lra. }
  assert (Hp : 0 < powerRZ 2 (ip + 1)) by (apply powerRZ_lt; lra).
  assert (Hs : powerRZ 2 (ip + 1) = powerRZ 2 ip * 2).
  { rewrite powerRZ_add by lra. change (powerRZ 2 1) with (2 * 1). lra. }
  split; [field; lra|]. split.
  - apply Rmult_le_reg_r with (powerRZ 2 (ip + 1)); [assumption|].
    replace (x / powerRZ 2 (ip + 1) * powerRZ 2 (ip + 1)) with x by (field; lra).
    rewrite Hs. lra.
  - apply Rmult_lt_reg_r with (powerRZ 2 (ip + 1)); [assumption|].
    replace (x / powerRZ 2 (ip + 1) * powerRZ 2 (ip + 1)) with x by (field; lra).
    lra.
Qed.

Lemma ln10_pos : 0 < ln 10.
Proof. rewrite <- ln_1. apply ln_increasing; lra. Qed.

Lemma Rpower_log10 v : 0 < v -> Rpower 10 (log10 v) = v.
Proof.
  intros Hv. unfold Rpower, log10. pose proof ln10_pos.
  replace (ln v / ln 10 * ln 10) with (ln v) by (field; lra).
  apply exp_ln; assumption.
Qed.

Lemma power10_le k v : 0 < v -> IZR k <= log10 v -> powerRZ 10 k <= v.
Proof.
  intros Hv Hk. rewrite powerRZ_Rpower by lra.
  rewrite <- (Rpower_log10 v Hv) at 1. apply Rle_Rpower; lra.
Qed.

Lemma power10_lt k v : 0 < v -> IZR k < log10 v -> powerRZ 10 k < v.
Proof.
  intros Hv Hk. rewrite powerRZ_Rpower by lra.
  rewrite <- (Rpower_log10 v Hv) at 1. apply Rpower_lt; lra.
Qed.

Lemma power10_ge k v : 0 < v -> log10 v <= IZR k -> v <= powerRZ 10 k.
Proof.
  intros Hv Hk. rewrite powerRZ_Rpower by lra.
  rewrite <- (Rpower_log10 v Hv) at 1. apply Rle_Rpower; lra.
Qed.

Lemma power10_gt k v : 0 < v -> log10 v < IZR k -> v < powerRZ 10 k.
Proof.
  intros Hv Hk. rewrite powerRZ_Rpower by lra.
  rewrite <- (Rpower_log10 v Hv) at 1. apply Rpower_lt; lra.
Qed.

(** [p] is [v] taken up to a power of ten: the least one that is not below
    [v] when [v < 1], the least one above [v] when [v >= 1]. *)
Definition rounded_up (v p : R) : Prop :=
  exists k : Z,
    p = powerRZ 10 k /\
    (v < 1 -> powerRZ 10 (k - 1) < v <= powerRZ 10 k) /\
    (1 <= v -> powerRZ 10 (k - 1) <= v < powerRZ 10 k).

Lemma log10_sign v : 0 < v -> (log10 v < 0 <-> v < 1).
Proof.
  intros Hv. pose proof ln10_pos as H10. unfold log10. split.
  - intros Hl. assert (Hln : ln v < 0).
    { apply Rmult_lt_reg_r with (/ ln 10).
      - apply Rinv_0_lt_compat; assumption.
      - rewrite Rmult_0_l. exact Hl. }
    destruct (Rlt_dec v 1) as [|Hge]; [assumption|].
    exfalso. assert (Hle : 1 <= v) by lra. destruct Hle as [Hlt|<-].
    + apply (ln_increasing 1 v) in Hlt; [|lra]. rewrite ln_1 in Hlt. lra.
    + rewrite ln_1 in Hln. lra.
  - intros Hlt. apply (ln_increasing v 1) in Hlt; [|assumption].
    rewrite ln_1 in Hlt.
    unfold Rdiv. rewrite <- (Rmult_0_l (/ ln 10)).
    apply Rmult_lt_compat_r; [apply Rinv_0_lt_compat; assumption | assumption].
Qed.

Lemma log10_above k v : 0 < v -> powerRZ 10 k <= v -> IZR k <= log10 v.
Proof.
  intros Hv H. destruct (Rle_dec (IZR k) (log10 v)) as [|Hn]; [assumption|].
  exfalso. pose proof (power10_gt k v Hv ltac:(lra)). lra.
Qed.

Lemma log10_below k v : 0 < v -> v < powerRZ 10 k -> log10 v < IZR k.
Proof.
  intros Hv H. destruct (Rlt_dec (log10 v) (IZR k)) as [|Hn]; [assumption|].
  exfalso. pose proof (power10_le k v Hv ltac:(lra)). lra.
Qed.

(** Between two powers of ten whose exponents are [int]s, the lines under
    "human readable" have a result: the value taken up to a power of
    ten. *)
Lemma human_readable_rounds_up v a b :
  0 < v -> (INT_MIN <= a)%Z -> (b <= INT_MAX)%Z ->
  powerRZ 10 a <= v < powerRZ 10 b ->
  exists p, human_readable v = Value p /\ rounded_up v p.
Proof.
  intros Hv Ha Hb [Hlo Hhi].
  pose proof (log10_above a v Hv Hlo) as La.
  pose proof (log10_below b v Hv Hhi) as Lb.
  apply IZR_le in Ha. apply IZR_le in Hb.
  pose proof (log10_sign v Hv) as Hsign.
  unfold human_readable. destruct (Rlt_dec 0 v) as [_|]; [|contradiction].
  unfold int_of_double, trunc.
  destruct (Rle_dec 0 (log10 v)) as [Hpos|Hneg].
  - destruct (base_Int_part (log10 v)) as [H1 H2].
    set (m := Int_part (log10 v)) in *.
    assert (Hm0 : (-1 < m)%Z) by (apply lt_IZR; lra).
    assert (Hm1 : (m < INT_MAX)%Z) by (apply lt_IZR; lra).
    destruct (Z.leb_spec INT_MIN m); [|unfold INT_MIN, INT_MAX in *; lia].
    destruct (Z.leb_spec m INT_MAX); [|lia]. cbn [andb bind].
    destruct (Rlt_dec (log10 v) 0); [lra|].
    destruct (Z.ltb_spec m INT_MAX); [|lia].
    eexists. split; [reflexivity|].
    assert (Hv1 : 1 <= v).
    { destruct (Rlt_dec v 1) as [Hlt|]; [|lra]. apply Hsign in Hlt. lra. }
    exists (m + 1)%Z. split; [reflexivity|]. split.
    + intros Hlt. lra.
    + intros _. split.
      * apply power10_le; [assumption|].
        replace (m + 1 - 1)%Z with m by lia. assumption.
      * apply power10_gt; [assumption|]. rewrite plus_IZR. lra.
  - destruct (base_Int_part (- log10 v)) as [H1 H2].
    set (m := Int_part (- log10 v)) in *.
    assert (Hm0 : (-1 < m)%Z) by (apply lt_IZR; lra).
    assert (Hm1 : (m <= - INT_MIN)%Z) by (apply le_IZR; rewrite opp_IZR; lra).
    destruct (Z.leb_spec INT_MIN (- m)); [|lia].
    destruct (Z.leb_spec (- m) INT_MAX); [|unfold INT_MIN, INT_MAX in *; lia].
    cbn [andb bind].
    destruct (Rlt_dec (log10 v) 0); [|lra].
    eexists. split; [reflexivity|].
    assert (Hv1 : v < 1) by (apply Hsign; assumption).
    exists (- m)%Z. split; [reflexivity|]. split.
    + intros _. split.
      * apply power10_lt; [assumption|]. rewrite minus_IZR, opp_IZR. lra.
      * apply power10_ge; [assumption|]. rewrite opp_IZR. lra.
    + intros Hge. lra.
Qed.


Lemma power10_increasing a b : (a < b)%Z -> powerRZ 10 a < powerRZ 10 b.
Proof.
  intros H. rewrite !powerRZ_Rpower by lra.
  apply Rpower_lt; [lra|]. apply IZR_lt; assumption.
Qed.

Lemma power10_monotone a b : (a <= b)%Z -> powerRZ 10 a <= powerRZ 10 b.
Proof.
  intros H. destruct (Z.eq_dec a b) as [->|Hne]; [lra|].
  left. apply power10_increasing. lia.
Qed.


Lemma power_of_two_neg (p : positive) :
  powerRZ 2 (Z.neg p) = / IZR (2 ^ Z.pos p).
Proof.
  cbn [powerRZ]. rewrite pow_IZR, positive_nat_Z. reflexivity.
Qed.

Lemma power_of_ten_neg (p : positive) :
  powerRZ 10 (Z.neg p) = / IZR (10 ^ Z.pos p).
Proof.
  cbn [powerRZ]. rewrite pow_IZR, positive_nat_Z. reflexivity.
Qed.

Lemma inv_IZR_lt a b : (0 < a)%Z -> (a < b)%Z -> / IZR b < / IZR a.
Proof.
  intros Ha Hab. apply Rinv_lt_contravar.
  - apply Rmult_lt_0_compat; apply IZR_lt; lia.
  - apply IZR_lt; assumption.
Qed.

(** [2^-52] lies between [10^-16] and [10^-15], [2^-23] between [10^-7]
    and [10^-6]. *)
Lemma double_ulp_of_1 : powerRZ 10 (-16) < powerRZ 2 (-52) < powerRZ 10 (-15).
Proof.
  rewrite (power_of_two_neg 52), (power_of_ten_neg 16), (power_of_ten_neg 15).
  split; apply inv_IZR_lt; reflexivity.
Qed.

Lemma single_ulp_of_1 : powerRZ 10 (-7) < powerRZ 2 (-23) < powerRZ 10 (-6).
Proof.
  rewrite (power_of_two_neg 23), (power_of_ten_neg 7), (power_of_ten_neg 6).
  split; apply inv_IZR_lt; reflexivity.
Qed.


(** [Z.abs (trunc x)] is the magnitude of [x] with its fraction cut
    off. *)
Lemma abs_trunc x :
  IZR (Z.abs (trunc x)) <= Rabs x < IZR (Z.abs (trunc x)) + 1.
Proof.
  unfold trunc. destruct (Rle_dec 0 x) as [Hx|Hx].
  - rewrite (Rabs_pos_eq x Hx). destruct (base_Int_part x) as [H1 H2].
    assert (H0 : (-1 < Int_part x)%Z) by (apply lt_IZR; lra).
    rewrite Z.abs_eq by lia. lra.
  - rewrite (Rabs_left x) by lra. destruct (base_Int_part (- x)) as [H1 H2].
    assert (H0 : (-1 < Int_part (- x))%Z) by (apply lt_IZR; lra).
    rewrite Z.abs_opp, Z.abs_eq by lia. lra.
Qed.

Lemma Rabs_cases x : (0 <= x /\ Rabs x = x) \/ (x < 0 /\ Rabs x = - x).
Proof.
  destruct (Rle_dec 0 x) as [H|H].
  - left. split; [assumption | apply Rabs_pos_eq; assumption].
  - right. split; [lra | apply Rabs_left; lra].
Qed.

Lemma abs_trunc_int x : abs_defined x -> (Z.abs (trunc x) <= INT_MAX)%Z.
Proof.
  intros [H1 H2]. destruct (abs_trunc x) as [H3 _].
  apply Z.lt_succ_r. apply lt_IZR. rewrite succ_IZR.
  destruct (Rabs_cases x) as [[_ H]|[_ H]]; rewrite H in H3; lra.
Qed.

Lemma abs_trunc_beyond x : beyond_unit x -> (1 <= Z.abs (trunc x))%Z.
Proof.
  intros Hx. destruct (abs_trunc x) as [_ H3].
  assert (H0 : (0 < Z.abs (trunc x))%Z).
  { apply lt_IZR. destruct (Rabs_cases x) as [[? H]|[? H]]; rewrite H in H3;
      destruct Hx; lra. }
  lia.
Qed.


(** Where [abs] is defined, and what it gives there. *)
Lemma abs_value x : abs_defined x -> abs x = Value (Z.abs (trunc x)).
Proof.
  intros Hx. pose proof (abs_trunc_int x Hx) as Hi.
  unfold abs, int_of_double.
  destruct (Z.leb_spec INT_MIN (trunc x)); [|unfold INT_MIN, INT_MAX in *; lia].
  destruct (Z.leb_spec (trunc x) INT_MAX); [|lia]. cbn [andb bind].
  destruct (Z.eqb_spec (trunc x) INT_MIN); [unfold INT_MIN, INT_MAX in *; lia|].
  reflexivity.
Qed.


Lemma largest_coordinate_value b :
  abs_defined (N b) -> abs_defined (S b) -> abs_defined (E b) -> abs_defined (W b) ->
  largest_coordinate b = Value (IZR (magnitude b)).
Proof.
  intros Hn Hs He Hw. unfold largest_coordinate, magnitude.
  rewrite (abs_value _ Hn), (abs_value _ Hs), (abs_value _ He), (abs_value _ Hw).
  cbn [bind].
  set (e := Z.abs (trunc (E b))). set (w := Z.abs (trunc (W b))).
  set (n := Z.abs (trunc (N b))). set (s := Z.abs (trunc (S b))).
  destruct (Z.ltb_spec w e), (Z.ltb_spec s n);
    match goal with
    | |- context [Rlt_dec (IZR ?x) (IZR ?y)] =>
        destruct (Rlt_dec (IZR x) (IZR y)) as [Hlt|Hge];
        [apply lt_IZR in Hlt | assert (y <= x)%Z by (apply le_IZR; lra)]
    end; do 2 f_equal; lia.
Qed.



Lemma magnitude_bounds b :
  abs_defined (N b) -> abs_defined (S b) -> abs_defined (E b) -> abs_defined (W b) ->
  beyond_unit (N b) \/ beyond_unit (S b) \/ beyond_unit (E b) \/ beyond_unit (W b) ->
  (1 <= magnitude b <= INT_MAX)%Z.
Proof.
  intros Hn Hs He Hw Hb.
  pose proof (abs_trunc_int _ Hn). pose proof (abs_trunc_int _ Hs).
  pose proof (abs_trunc_int _ He). pose proof (abs_trunc_int _ Hw).
  pose proof (Z.abs_nonneg (trunc (N b))). pose proof (Z.abs_nonneg (trunc (S b))).
  pose proof (Z.abs_nonneg (trunc (E b))). pose proof (Z.abs_nonneg (trunc (W b))).
  unfold magnitude.
  destruct Hb as [Hb|[Hb|[Hb|Hb]]]; apply abs_trunc_beyond in Hb; lia.
Qed.



Lemma two_52 : powerRZ 2 (-52) = / 4503599627370496.
Proof. rewrite (power_of_two_neg 52). reflexivity. Qed.

Lemma two_23 : powerRZ 2 (-23) = / 8388608.
Proof. rewrite (power_of_two_neg 23). reflexivity. Qed.

Lemma ten_3 : powerRZ 10 3 = 1000.
Proof. change (powerRZ 10 3) with (10 * (10 * (10 * 1))). lra. Qed.

(** For a box within the reach of [abs] and with a bound of magnitude 1
    or more, both bounds of the range are computed. *)
Lemma snaps_value b :
  abs_defined (N b) -> abs_defined (S b) -> abs_defined (E b) -> abs_defined (W b) ->
  beyond_unit (N b) \/ beyond_unit (S b) \/ beyond_unit (E b) \/ beyond_unit (W b) ->
  exists lo hi,
    largest_coordinate b = Value (IZR (magnitude b)) /\
    min_snap b = Value lo /\ max_snap b = Value hi /\
    rounded_up (IZR (magnitude b) * powerRZ 2 (-52)) lo /\
    rounded_up (IZR (magnitude b) * powerRZ 2 (-23)) hi /\
    1 <= IZR (magnitude b).
Proof.
  intros Hn Hs He Hw Hb.
  pose proof (largest_coordinate_value b Hn Hs He Hw) as HL.
  destruct (magnitude_bounds b Hn Hs He Hw Hb) as [M1 M2].
  apply IZR_le in M1. apply IZR_le in M2. unfold INT_MAX in M2.
  set (x := IZR (magnitude b)) in *.
  pose proof double_ulp_of_1 as [D1 _]. pose proof single_ulp_of_1 as [S1 _].
  destruct (human_readable_rounds_up (x * powerRZ 2 (-52)) (-16) 0) as (lo & Elo & Rlo).
  { rewrite two_52. lra. }
  { unfold INT_MIN, INT_MAX. lia. }
  { unfold INT_MAX. lia. }
  { change (powerRZ 10 0) with 1. rewrite two_52 in *. lra. }
  destruct (human_readable_rounds_up (x * powerRZ 2 (-23)) (-7) 3) as (hi & Ehi & Rhi).
  { rewrite two_23. lra. }
  { unfold INT_MIN, INT_MAX. lia. }
  { unfold INT_MAX. lia. }
  { rewrite ten_3. rewrite two_23 in *. lra. }
  exists lo, hi. unfold min_snap, max_snap. rewrite HL. cbn [bind].
  rewrite !ulp_scales.
  change (Z.opp 52) with (-52)%Z. change (Z.opp 23) with (-23)%Z.
  repeat (split; [assumption || reflexivity|]). assumption.
Qed.



(** The box from (0, 0) to (1, 1). *)
Definition unit_box : bound_box := mkBox 1 0 1 0 0 0.


Lemma unit_box_defined :
  abs_defined (N unit_box) /\ abs_defined (S unit_box) /\
  abs_defined (E unit_box) /\ abs_defined (W unit_box).
Proof. unfold abs_defined, INT_MAX. cbn [N S E W unit_box]. repeat split; lra. Qed.

Lemma unit_box_beyond :
  beyond_unit (N unit_box) \/ beyond_unit (S unit_box) \/
  beyond_unit (E unit_box) \/ beyond_unit (W unit_box).
Proof. left. right. cbn [N unit_box]. lra. Qed.




(** *** What is reported, and when *)

Lemma estimate_silent n_polygons nlayers ncentr n_overlaps b snap :
  n_polygons = 0%Z \/ nlayers <> 1%Z \/ (ncentr = n_polygons /\ n_overlaps = 0%Z) ->
  estimate n_polygons nlayers ncentr n_overlaps b snap = Value [].
Proof.
  unfold estimate. intros [->|[H|[-> ->]]].
  - reflexivity.
  - destruct (Z.eqb_spec nlayers 1); [contradiction|].
    rewrite andb_false_r. reflexivity.
  - rewrite Z.eqb_refl. cbn [negb orb].
    destruct (negb (n_polygons =? 0)%Z && (nlayers =? 1)%Z); reflexivity.
Qed.








(** *** The width of the range, and when nothing is said *)

Lemma power_of_two_pos (p : positive) : powerRZ 2 (Z.pos p) = IZR (2 ^ Z.pos p).
Proof. cbn [powerRZ]. rewrite pow_IZR, positive_nat_Z. reflexivity. Qed.

Lemma power_of_ten_pos (p : positive) : powerRZ 10 (Z.pos p) = IZR (10 ^ Z.pos p).
Proof. cbn [powerRZ]. rewrite pow_IZR, positive_nat_Z. reflexivity. Qed.

(** [2^29], the ratio of the two units, lies between [10^8] and [10^9]. *)
Lemma ratio_of_units : powerRZ 10 8 < powerRZ 2 29 < powerRZ 10 9.
Proof.
  rewrite (power_of_two_pos 29), (power_of_ten_pos 8), (power_of_ten_pos 9).
  split; apply IZR_lt; reflexivity.
Qed.

Lemma rounded_up_bounds v p :
  rounded_up v p ->
  exists k : Z, p = powerRZ 10 k /\ powerRZ 10 (k - 1) <= v <= powerRZ 10 k.
Proof.
  intros (k & Hp & Hlow & Hhigh). exists k. split; [assumption|].
  destruct (Rlt_dec v 1) as [Hv|Hv].
  - destruct (Hlow Hv). lra.
  - destruct (Hhigh ltac:(lra)). lra.
Qed.

Lemma power10_pos k : 0 < powerRZ 10 k.
Proof. apply powerRZ_lt; lra. Qed.

(** X21.  For a map box whose four bounds [abs] takes with defined
    behaviour (magnitude below [2^31]) and of which one has magnitude 1 or
    more, both bounds of the estimated range are computed, the lower bound
    is above 0 and the upper bound is the lower bound times [10^8] or
    times [10^9]: the range always spans eight or nine decades. *)
Theorem snap_range_spans_decades b :
  abs_defined (N b) -> abs_defined (S b) ->
  abs_defined (E b) -> abs_defined (W b) ->
  beyond_unit (N b) \/ beyond_unit (S b) \/ beyond_unit (E b) \/ beyond_unit (W b) ->
  exists lo hi,
    min_snap b = Value lo /\ max_snap b = Value hi /\
    0 < lo /\
    (hi = lo * powerRZ 10 8 \/ hi = lo * powerRZ 10 9).
Proof.
  intros Hn Hs He Hw Hb.
  destruct (snaps_value b Hn Hs He Hw Hb) as (lo & hi & _ & Elo & Ehi & Rlo & Rhi & Hx).
  exists lo, hi. split; [assumption|]. split; [assumption|].
  set (x := IZR (magnitude b)) in *.
  assert (H52 : 0 < x * powerRZ 2 (-52)).
  { apply Rmult_lt_0_compat; [lra | apply powerRZ_lt; lra]. }
  assert (H23 : x * powerRZ 2 (-23) = x * powerRZ 2 (-52) * powerRZ 2 29).
  { rewrite Rmult_assoc, <- powerRZ_add by lra. reflexivity. }
  set (v := x * powerRZ 2 (-52)) in *.
  rewrite H23 in Rhi.
  destruct (rounded_up_bounds _ _ Rlo) as (k1 & -> & L1 & U1).
  destruct (rounded_up_bounds _ _ Rhi) as (k2 & -> & L2 & U2).
  destruct ratio_of_units as (R8 & R9).
  pose proof (power10_pos (k1 - 1)) as P1. pose proof (power10_pos k1) as P2.
  split; [assumption|].
  assert (Hlow : (k1 + 7 < k2)%Z).
  { destruct (Z_lt_le_dec (k1 + 7) k2) as [|Hle]; [assumption|]. exfalso.
    pose proof (power10_monotone k2 (k1 + 7) Hle) as Hm.
    replace (k1 + 7)%Z with (k1 - 1 + 8)%Z in Hm by lia.
    rewrite powerRZ_add in Hm by lra.
    assert (powerRZ 10 (k1 - 1) * powerRZ 10 8 < v * powerRZ 2 29).
    { apply Rle_lt_trans with (v * powerRZ 10 8).
      - apply Rmult_le_compat_r; [left; apply power10_pos | assumption].
      - apply Rmult_lt_compat_l; assumption. }
    lra. }
  assert (Hhigh : (k2 < k1 + 10)%Z).
  { destruct (Z_lt_le_dec k2 (k1 + 10)) as [|Hle]; [assumption|]. exfalso.
    pose proof (power10_monotone (k1 + 9) (k2 - 1) ltac:(lia)) as Hm.
    rewrite powerRZ_add in Hm by lra.
    assert (v * powerRZ 2 29 < powerRZ 10 k1 * powerRZ 10 9).
    { apply Rlt_le_trans with (v * powerRZ 10 9).
      - apply Rmult_lt_compat_l; assumption.
      - apply Rmult_le_compat_r; [left; apply power10_pos | assumption]. }
    lra. }
  assert (Hk : k2 = (k1 + 8)%Z \/ k2 = (k1 + 9)%Z) by lia.
  destruct Hk as [-> | ->]; [left | right]; apply powerRZ_add; lra.
Qed.

Lemma snap_range_spans_decades_witness :
  exists lo hi,
    min_snap unit_box = Value lo /\ max_snap unit_box = Value hi /\
    0 < lo /\
    (hi = lo * powerRZ 10 8 \/ hi = lo * powerRZ 10 9).
Proof.
  destruct unit_box_defined as (Hn & Hs & He & Hw).
  exact (snap_range_spans_decades unit_box Hn Hs He Hw unit_box_beyond).
Defined.

(** X22.  Nothing is said about snapping in these cases and no others:
    no polygon was counted, more or fewer than one layer was imported, or
    the number of centroids is the number of polygons and no overlap was
    found. *)
Theorem estimate_is_silent_iff n_polygons nlayers ncentr n_overlaps b snap :
  estimate n_polygons nlayers ncentr n_overlaps b snap = Value [] <->
  n_polygons = 0%Z \/ nlayers <> 1%Z \/ (ncentr = n_polygons /\ n_overlaps = 0%Z).
Proof.
  split; [|apply estimate_silent].
  unfold estimate.
  destruct (Z.eqb_spec n_polygons 0); [auto|].
  destruct (Z.eqb_spec nlayers 1); [|auto]. cbn [negb andb].
  destruct (Z.eqb_spec ncentr n_polygons), (Z.eqb_spec n_overlaps 0);
    cbn [negb orb]; auto;
    destruct (min_snap b); cbn [bind]; try discriminate;
    destruct (max_snap b); cbn [bind]; discriminate.
Qed.

End Estimator.

(** ** The layers to import *)

Module Selection.

(** [layers[i] = -1; for (j = 0; j < navailable_layers; j++)
    if (strcmp(available_layer_names[j], layer_names[i]) == 0)
    { layers[i] = j; break; }], with [j] the index of the head of
    [available]. *)
Fixpoint find_layer (available : list string) (name : string) (j : Z) : Z :=
  match available with
  | [] => -1
  | a :: tl => if String.eqb a name then j else find_layer tl name (j + 1)
  end.

(** The loop over the names given with [layer=]. *)
Fixpoint find_layers (available answers : list string) : result (list Z) :=
  match answers with
  | [] => Ret []
  | name :: tl =>
      let j := find_layer available name 0 in
      if j =? -1 then Fatal "Layer not available"
      else
        match find_layers available tl with
        | Ret js => Ret (j :: js)
        | Fatal msg => Fatal msg
        | OutOfFuel => OutOfFuel
        end
  end.

(** [for (i = 0; i < nlayers; i++) layers[i] = i;] *)
Definition all_layers (n : nat) : list Z := map Z.of_nat (seq 0 n).

(** The list of layers to import, as [main] makes it once the data source
    is open and [-l] is not given: the names and the indices into the data
    source.  [answers] are the values of the option [layer], none when the
    option is not given. *)
Definition select_layers (available answers : list string)
    : result (list string * list Z) :=
  if Z.of_nat (length available) <? 1 then Fatal "No OGR layers available"
  else
    match answers with
    | [] => Ret (available, all_layers (length available))
    | _ :: _ =>
        match find_layers available answers with
        | Ret js => Ret (answers, js)
        | Fatal msg => Fatal msg
        | OutOfFuel => OutOfFuel
        end
    end.

Lemma find_layer_spec available name : forall j,
  0 <= j ->
  (find_layer available name j = -1 /\ ~ In name available) \/
  (j <= find_layer available name j /\
   nth_error available (Z.to_nat (find_layer available name j - j)) = Some name /\
   forall k, j <= k < find_layer available name j ->
             nth_error available (Z.to_nat (k - j)) <> Some name).
Proof.
  induction available as [|a tl IH]; intros j Hj; simpl.
  - left. split; [reflexivity | tauto].
  - destruct (String.eqb_spec a name) as [->|Hne].
    + right. split; [lia|]. split.
      * replace (j - j) with 0 by lia. reflexivity.
      * intros k Hk. lia.
    + destruct (IH (j + 1)) as [(E & Hn)|(Hle & Hnth & Hfirst)]; [lia | |].
      * left. split; [assumption|]. intros [H|H]; [congruence | contradiction].
      * right. split; [lia|]. split.
        -- replace (Z.to_nat (find_layer tl name (j + 1) - j))
             with (S (Z.to_nat (find_layer tl name (j + 1) - (j + 1)))) by lia.
           exact Hnth.
        -- intros k Hk. destruct (Z.eq_dec k j) as [->|Hkj].
           ++ replace (j - j) with 0 by lia. simpl. congruence.
           ++ replace (Z.to_nat (k - j)) with (S (Z.to_nat (k - (j + 1)))) by lia.
              simpl. apply Hfirst. lia.
Qed.

Lemma find_layer_first available name j' :
  find_layer available name 0 <> -1 ->
  nthZ available (find_layer available name 0) = Some name /\
  (0 <= j' < find_layer available name 0 -> nthZ available j' <> Some name).
Proof.
  intros Hf.
  destruct (find_layer_spec available name 0) as [(E & _)|(Hle & Hnth & Hfirst)];
    [lia | contradiction |].
  rewrite Z.sub_0_r in Hnth. split.
  - unfold nthZ. destruct (Z.leb_spec 0 (find_layer available name 0)); [assumption | lia].
  - intros Hj. specialize (Hfirst j' Hj). rewrite Z.sub_0_r in Hfirst.
    unfold nthZ. destruct (Z.leb_spec 0 j'); [assumption | lia].
Qed.

Lemma find_layers_spec available : forall answers layers,
  find_layers available answers = Ret layers ->
  length layers = length answers /\
  forall i name j,
    nth_error answers i = Some name -> nth_error layers i = Some j ->
    nthZ available j = Some name /\
    forall j', 0 <= j' < j -> nthZ available j' <> Some name.
Proof.
  induction answers as [|a tl IH]; intros layers; simpl.
  - intros E; inversion E; subst. split; [reflexivity|].
    intros [|i] name j; discriminate.
  - destruct (Z.eqb_spec (find_layer available a 0) (-1)) as [|Hf]; [discriminate|].
    destruct (find_layers available tl) as [js| |]; try discriminate.
    intros E; inversion E; subst; clear E.
    destruct (IH js eq_refl) as (Hlen & Hall).
    split; [simpl; congruence|].
    intros [|i] name j; simpl.
    + intros E1 E2; inversion E1; inversion E2; subst.
      split; [apply (find_layer_first available name 0 Hf)|].
      intros j' Hj'. apply (find_layer_first available name j' Hf). assumption.
    + apply Hall.
Qed.

Lemma all_layers_nth n i j :
  nth_error (all_layers n) i = Some j -> j = Z.of_nat i /\ (i < n)%nat.
Proof.
  unfold all_layers. intros E.
  assert (Hi : (i < n)%nat).
  { rewrite <- (length_seq n 0), <- (length_map Z.of_nat).
    apply nth_error_Some. congruence. }
  rewrite (nth_error_map Z.of_nat i (seq 0 n)) in E.
  rewrite (nth_error_nth' (seq 0 n) 0%nat) in E by (rewrite length_seq; assumption).
  rewrite seq_nth in E by assumption. cbn in E. inversion E. split; [reflexivity | assumption].
Qed.

(** X6.  When the list of layers to import is made, there are as many
    indices as names, and the layer of the data source at an index bears
    the name that goes with the index.  With the option [layer] the names
    are those given, in the order given, and the index of a name is that of
    the first available layer of that name; without it all available layers
    are taken, in their order. *)
Theorem selected_layers_bear_their_names available answers names layers :
  select_layers available answers = Ret (names, layers) ->
  length layers = length names /\
  (forall i name j,
      nth_error names i = Some name -> nth_error layers i = Some j ->
      nthZ available j = Some name) /\
  match answers with
  | [] => names = available /\ layers = all_layers (length available)
  | _ :: _ =>
      names = answers /\
      forall i name j j',
        nth_error names i = Some name -> nth_error layers i = Some j ->
        0 <= j' < j -> nthZ available j' <> Some name
  end.
Proof.
  unfold select_layers.
  destruct (Z.of_nat (length available) <? 1); [discriminate|].
  destruct answers as [|a tl].
  - intros E; inversion E; subst; clear E.
    split; [unfold all_layers; rewrite length_map, length_seq; reflexivity|].
    split; [|split; reflexivity].
    intros i name j E1 E2. apply all_layers_nth in E2. destruct E2 as (-> & _).
    unfold nthZ. destruct (Z.leb_spec 0 (Z.of_nat i)); [|lia].
    rewrite Nat2Z.id. assumption.
  - destruct (find_layers available (a :: tl)) as [js| |] eqn:Ef; try discriminate.
    intros E; inversion E; subst; clear E.
    destruct (find_layers_spec available _ _ Ef) as (Hlen & Hall).
    split; [assumption|]. split.
    + intros i name j E1 E2. apply (Hall i name j E1 E2).
    + split; [reflexivity|].
      intros i name j j' E1 E2. apply (Hall i name j E1 E2).
Qed.

Lemma find_layer_missing available name : forall j,
  0 <= j -> (find_layer available name j = -1 <-> ~ In name available).
Proof.
  intros j Hj.
  destruct (find_layer_spec available name j Hj) as [(E & Hn)|(Hle & Hnth & _)].
  - tauto.
  - split; [lia|]. intros Hn. exfalso. apply Hn.
    eapply nth_error_In; eassumption.
Qed.

Lemma find_layers_fails available : forall answers,
  (exists msg, find_layers available answers = Fatal msg) <->
  exists name, In name answers /\ ~ In name available.
Proof.
  induction answers as [|a tl IH]; simpl.
  - split; [intros (msg & E); discriminate | intros (name & [] & _)].
  - pose proof (find_layer_missing available a 0 (Z.le_refl 0)) as Hm.
    destruct (Z.eqb_spec (find_layer available a 0) (-1)) as [Hf|Hf].
    + split; [|eauto]. intros _. exists a. split; [auto | tauto].
    + split.
      * intros (msg & E).
        destruct (find_layers available tl) as [js|m|] eqn:Ef; try discriminate.
        destruct (proj1 IH) as (name & Hin & Hn); [eauto|].
        exists name; auto.
      * intros (name & [<-|Hin] & Hn); [tauto|].
        destruct (proj2 IH) as (msg & E); [eauto|].
        rewrite E. eauto.
Qed.

(** X7.  Making the list of layers stops the program in two cases only:
    the data source has no layer, or a name given with the option [layer]
    is not the name of an available layer. *)
Theorem selection_fails_iff available answers :
  (exists msg, select_layers available answers = Fatal msg) <->
  available = [] \/ exists name, In name answers /\ ~ In name available.
Proof.
  unfold select_layers.
  destruct available as [|a0 tl0].
  - cbn. split; [auto | eauto].
  - replace (Z.of_nat (length (a0 :: tl0)) <? 1) with false
      by (symmetry; apply Z.ltb_ge; cbn [length]; lia).
    destruct answers as [|a tl].
    + split; [intros (msg & E); discriminate|].
      intros [E|(name & [] & _)]. discriminate.
    + rewrite <- find_layers_fails.
      destruct (find_layers (a0 :: tl0) (a :: tl)) as [js|m|].
      * split; [intros (msg & E); discriminate|].
        intros [E|(msg & E)]; discriminate.
      * split; eauto.
      * split; [intros (msg & E); discriminate|].
        intros [E|(msg & E)]; discriminate.
Qed.

Local Open Scope string_scope.

Example second_layer_of_three :
  select_layers ["points"; "lines"; "lines"] ["lines"; "points"]
  = Ret (["lines"; "points"], [1; 0]).
Proof. reflexivity. Qed.

Lemma selected_layers_bear_their_names_witness :
  nthZ ["points"; "lines"; "lines"] 1 = Some "lines".
Proof.
  apply (proj1 (proj2 (selected_layers_bear_their_names
                         ["points"; "lines"; "lines"] ["lines"; "points"]
                         ["lines"; "points"] [1; 0] eq_refl))
               0%nat "lines" 1); reflexivity.
Defined.

End Selection.

(** ** The projections of the layers to import *)

Module Projections.

Section Srs.

(** The layers, their spatial reference systems and what GRASS makes of
    them belong to GDAL and to the GRASS projection library.  [KV] stands
    for the pair of key-value lists [proj_info] and [proj_units]. *)
Variable OGRLayerH : Type.
Variable OGRSpatialReferenceH : Type.
Variable KV : Type.
Variable OGR_L_GetSpatialRef : OGRLayerH -> option OGRSpatialReferenceH.
Variable OGR_FD_GetGeomFieldIndex : OGRLayerH -> string -> Z.
Variable OGR_GFld_GetSpatialRef : OGRLayerH -> Z -> option OGRSpatialReferenceH.
(** [GPJ_osr_to_grass]: the value returned, and what it leaves in
    [cellhd->proj] and in the key-value lists. *)
Variable GPJ_osr_to_grass : option OGRSpatialReferenceH -> Z * Z * KV.
Variable OSRIsProjected OSRIsGeographic : OGRSpatialReferenceH -> bool.
(** [true] for [OGRERR_NONE]. *)
Variable OSRExportToProj4 : OGRSpatialReferenceH -> bool.
(** [true] for [TRUE]. *)
Variable G_compare_projections : KV -> KV -> bool.

(** [get_layer_proj]: the value returned, [cellhd->proj] and the
    key-value lists.  What is printed is left out. *)
Definition get_layer_proj (Ogr_layer : OGRLayerH) (geom_col : option string)
    : result (Z * Z * KV) :=
  match
    match geom_col with
    | Some g =>
        let igeom := OGR_FD_GetGeomFieldIndex Ogr_layer g in
        if igeom <? 0 then Fatal "Geometry column not found in input layer"
        else Ret (OGR_GFld_GetSpatialRef Ogr_layer igeom)
    | None => Ret (OGR_L_GetSpatialRef Ogr_layer)
    end
  with
  | Ret Ogr_projection =>
      let '(st, proj, kv) := GPJ_osr_to_grass Ogr_projection in
      if st <? 0 then Ret (2, proj, kv)
      else
        match Ogr_projection with
        | None => Ret (1, proj, kv)
        | Some srs =>
            if negb (OSRIsProjected srs) && negb (OSRIsGeographic srs)
            then Ret (2, proj, kv)
            else if negb (OSRExportToProj4 srs) then Ret (2, proj, kv)
            else Ret (0, proj, kv)
        end
  | Fatal msg => Fatal msg
  | OutOfFuel => OutOfFuel
  end.

(** The [do ... while (layer < nlayers)] that looks for the first layer
    whose projection can be read: the index at which it breaks, with
    [cellhd1.proj] and the key-value lists of that layer, or [None] when it
    runs to the end ([layer == nlayers]).  [sel] are the layers that
    [ds_getlayerbyindex] gives for [layers[layer]], [layers[layer + 1]],
    ... *)
Fixpoint first_readable (sel : list OGRLayerH) (layer : Z)
    (geom_col : option string) : result (option (Z * Z * KV)) :=
  match sel with
  | [] => Ret None
  | l :: tl =>
      match get_layer_proj l geom_col with
      | Ret (st, proj, kv) =>
          if st =? 0 then Ret (Some (layer, proj, kv))
          else first_readable tl (layer + 1) geom_col
      | Fatal msg => Fatal msg
      | OutOfFuel => OutOfFuel
      end
  end.

(** The [for (layer = 1; layer < nlayers; layer++)] that compares the
    other layers with the first one. *)
Fixpoint same_as_first (proj1 : Z) (kv1 : KV) (others : list OGRLayerH)
    (geom_col : option string) : result Z :=
  match others with
  | [] => Ret 0
  | l :: tl =>
      match get_layer_proj l geom_col with
      | Ret (st, proj2, kv2) =>
          if negb (st =? 0) then Ret 1
          else if negb (proj1 =? proj2) || negb (G_compare_projections kv1 kv2)
          then Ret 1
          else same_as_first proj1 kv1 tl geom_col
      | Fatal msg => Fatal msg
      | OutOfFuel => OutOfFuel
      end
  end.

(** [cmp_layer_srs], for the layers to import in their order; [main]
    calls it with one layer at least. *)
Definition cmp_layer_srs (sel : list OGRLayerH) (geom_col : option string)
    : result Z :=
  if Z.of_nat (length sel) =? 1 then Ret 0
  else
    match first_readable sel 0 geom_col with
    | Ret None => Ret 0
    | Ret (Some (layer, proj1, kv1)) =>
        if 0 <? layer then Ret 1
        else same_as_first proj1 kv1 (tl sel) geom_col
    | Fatal msg => Fatal msg
    | OutOfFuel => OutOfFuel
    end.

(** The projection of the layer can be read, it cannot, and two layers
    whose projections can be read have the same one. *)
Definition readable (geom_col : option string) (l : OGRLayerH) : Prop :=
  exists proj kv, get_layer_proj l geom_col = Ret (0, proj, kv).

Definition unreadable (geom_col : option string) (l : OGRLayerH) : Prop :=
  exists st proj kv, get_layer_proj l geom_col = Ret (st, proj, kv) /\ st <> 0.

Definition agree (geom_col : option string) (l1 l2 : OGRLayerH) : Prop :=
  exists proj1 kv1 proj2 kv2,
    get_layer_proj l1 geom_col = Ret (0, proj1, kv1) /\
    get_layer_proj l2 geom_col = Ret (0, proj2, kv2) /\
    proj1 = proj2 /\ G_compare_projections kv1 kv2 = true.

Lemma first_readable_none geom_col : forall sel layer,
  first_readable sel layer geom_col = Ret None <-> Forall (unreadable geom_col) sel.
Proof.
  induction sel as [|l tl IH]; intros layer; simpl.
  - split; auto.
  - destruct (get_layer_proj l geom_col) as [[[st proj] kv]| |] eqn:E.
    + destruct (Z.eqb_spec st 0) as [->|Hst].
      * split; [discriminate|]. intros H; inversion H; subst.
        destruct H2 as (st & p & k & E' & Hne). congruence.
      * rewrite IH. split.
        -- intros H. constructor; [|assumption]. exists st, proj, kv; auto.
        -- intros H; inversion H; assumption.
    + split; [discriminate|]. intros H; inversion H; subst.
      destruct H2 as (st & p & k & E' & _). congruence.
    + split; [discriminate|]. intros H; inversion H; subst.
      destruct H2 as (st & p & k & E' & _). congruence.
Qed.

Lemma first_readable_some geom_col : forall sel layer0 layer proj kv,
  first_readable sel layer0 geom_col = Ret (Some (layer, proj, kv)) ->
  layer0 <= layer /\
  (layer = layer0 ->
   exists l tl, sel = l :: tl /\ get_layer_proj l geom_col = Ret (0, proj, kv)).
Proof.
  induction sel as [|l tl IH]; intros layer0 layer proj kv; simpl.
  - discriminate.
  - destruct (get_layer_proj l geom_col) as [[[st p] k]| |] eqn:E; try discriminate.
    destruct (Z.eqb_spec st 0) as [->|Hst].
    + intros H; inversion H; subst. split; [lia|]. intros _. eauto.
    + intros H. apply IH in H. destruct H as (Hle & _). split; lia.
Qed.

Lemma first_readable_head geom_col l tl proj kv :
  get_layer_proj l geom_col = Ret (0, proj, kv) ->
  first_readable (l :: tl) 0 geom_col = Ret (Some (0, proj, kv)).
Proof. intros E. simpl. rewrite E. reflexivity. Qed.

Lemma same_as_first_spec geom_col proj1 kv1 : forall others,
  (forall r, same_as_first proj1 kv1 others geom_col = Ret r -> r = 0 \/ r = 1) /\
  (same_as_first proj1 kv1 others geom_col = Ret 0 <->
   Forall (fun l => exists proj2 kv2,
                      get_layer_proj l geom_col = Ret (0, proj2, kv2) /\
                      proj1 = proj2 /\ G_compare_projections kv1 kv2 = true)
          others).
Proof.
  induction others as [|l tl (IH1 & IH2)]; simpl.
  - split; [intros r E; inversion E; auto|]. split; auto.
  - destruct (get_layer_proj l geom_col) as [[[st p] k]| |] eqn:E.
    + destruct (Z.eqb_spec st 0) as [->|Hst]; cbn [negb].
      * destruct (Z.eqb_spec proj1 p) as [->|Hp]; cbn [negb orb].
        -- destruct (G_compare_projections kv1 k) eqn:Hc; cbn [negb].
           ++ split; [assumption|]. rewrite IH2. split.
              ** intros H. constructor; [|assumption]. exists p, k; auto.
              ** intros H; inversion H; assumption.
           ++ split; [intros r Er; inversion Er; auto|].
              split; [discriminate|]. intros H; inversion H; subst.
              destruct H2 as (p2 & k2 & E' & _ & Hc'). congruence.
        -- split; [intros r Er; inversion Er; auto|].
           split; [discriminate|]. intros H; inversion H; subst.
           destruct H2 as (p2 & k2 & E' & Hp' & _). congruence.
      * split; [intros r Er; inversion Er; auto|].
        split; [discriminate|]. intros H; inversion H; subst.
        destruct H2 as (p2 & k2 & E' & _). congruence.
    + split; [discriminate|]. split; [discriminate|].
      intros H; inversion H; subst. destruct H2 as (p2 & k2 & E' & _). congruence.
    + split; [discriminate|]. split; [discriminate|].
      intros H; inversion H; subst. destruct H2 as (p2 & k2 & E' & _). congruence.
Qed.

(** X8.  [cmp_layer_srs] returns 0 or 1 when it returns, and it returns
    0, which lets the import go on, in three cases only: there is a single
    layer, whose projection is not looked at; the projection of no layer
    can be read; the projection of every layer can be read and that of each
    layer after the first is the same as that of the first. *)
Theorem layers_accepted_iff sel geom_col :
  sel <> [] ->
  (forall r, cmp_layer_srs sel geom_col = Ret r -> r = 0 \/ r = 1) /\
  (cmp_layer_srs sel geom_col = Ret 0 <->
   length sel = 1%nat \/
   Forall (unreadable geom_col) sel \/
   exists l0 others,
     sel = l0 :: others /\ readable geom_col l0 /\
     Forall (agree geom_col l0) others).
Proof.
  intros Hne. unfold cmp_layer_srs.
  destruct (Z.eqb_spec (Z.of_nat (length sel)) 1) as [H1|H1].
  - split; [intros r E; inversion E; auto|].
    split; [intros _; left; lia | reflexivity].
  - assert (Hlen : length sel <> 1%nat) by lia.
    destruct (first_readable sel 0 geom_col) as [[[[layer proj1] kv1]|]| |] eqn:Ef.
    + pose proof (first_readable_some _ _ _ _ _ _ Ef) as (Hle & Hhead).
      destruct (Z.ltb_spec 0 layer) as [Hpos|Hzero].
      * split; [intros r E; inversion E; auto|].
        split; [discriminate|].
        intros [H|[H|(l0 & others & -> & (p & k & Er) & _)]].
        -- contradiction.
        -- apply (first_readable_none geom_col sel 0) in H. congruence.
        -- rewrite (first_readable_head geom_col l0 others p k Er) in Ef.
           inversion Ef; subst. lia.
      * destruct Hhead as (l0 & others & -> & El0); [lia|].
        cbn [tl].
        destruct (same_as_first_spec geom_col proj1 kv1 others) as (S1 & S2).
        split; [assumption|]. rewrite S2. split.
        -- intros H. right; right. exists l0, others.
           split; [reflexivity|]. split; [exists proj1, kv1; assumption|].
           eapply Forall_impl; [|exact H].
           intros l (p2 & k2 & E2 & Hp & Hc). exists proj1, kv1, p2, k2. auto.
        -- intros [H|[H|(l0' & others' & Heq & _ & Hall)]].
           ++ contradiction.
           ++ apply (first_readable_none geom_col (l0 :: others) 0) in H. congruence.
           ++ inversion Heq; subst l0' others'.
              eapply Forall_impl; [|exact Hall].
              intros l (p1 & k1 & p2 & k2 & E1 & E2 & Hp & Hc).
              rewrite El0 in E1. inversion E1; subst p1 k1.
              exists p2, k2. auto.
    + split; [intros r E; inversion E; auto|].
      split; [|reflexivity]. intros _. right; left.
      apply (first_readable_none geom_col sel 0). assumption.
    + split; [discriminate|]. split; [discriminate|].
      intros [H|[H|(l0 & others & -> & (p & k & Er) & _)]].
      * contradiction.
      * apply (first_readable_none geom_col sel 0) in H. congruence.
      * rewrite (first_readable_head geom_col l0 others p k Er) in Ef. discriminate.
    + split; [discriminate|]. split; [discriminate|].
      intros [H|[H|(l0 & others & -> & (p & k & Er) & _)]].
      * contradiction.
      * apply (first_readable_none geom_col sel 0) in H. congruence.
      * rewrite (first_readable_head geom_col l0 others p k Er) in Ef. discriminate.
Qed.

End Srs.

(** *** The check against the location *)

(** How the part of [main] that checks the projection ends when it does
    not go on to the import: [exit(EXIT_SUCCESS)] or
    [exit(EXIT_FAILURE)]. *)
Inductive ending : Type := EXIT_SUCCESS | EXIT_FAILURE.

(** From the call of [get_layer_proj] for the first layer to "get output
    name": [Ret None] when [main] goes on, [Ret (Some e)] when it exits.
    [proj_trouble] is what [get_layer_proj] returned, [outloc] tells whether
    the option [location] is given, [make_location] is what
    [G_make_location] returns, [no_import], [over] and [proj] are the flags
    [-i], [-o] and [-j], [loc_proj] and [cellhd_proj] are [loc_wind.proj]
    and [cellhd.proj], and [same] tells whether [G_compare_projections]
    gives [TRUE].  What is printed is left out. *)
Definition projection_check (proj_trouble : Z) (outloc : bool) (make_location : Z)
    (no_import over proj : bool) (loc_proj cellhd_proj : Z) (same : bool)
    : result (option ending) :=
  if outloc then
    if negb (proj_trouble =? 0)
    then Fatal "Unable to convert input map projection to GRASS format; cannot create new location."
    else if negb (0 =? make_location)
    then Fatal "Unable to create new location"
    else if no_import then Ret (Some EXIT_SUCCESS)
    else Ret None
  else
    if negb (proj_trouble =? 0) && negb over
    then Fatal "Unable to convert input map projection information to GRASS format."
    else if over then Ret None
    else if negb (loc_proj =? cellhd_proj) || negb same
    then (if proj then Ret (Some EXIT_FAILURE)
          else Fatal "Projection of dataset does not appear to match current location.")
    else if proj then Ret (Some EXIT_SUCCESS)
    else Ret None.

(** X24.  [main] goes on to the import past the check of the projection
    in three cases only: a new location was made from a projection that
    could be read, and [-i] is not given; [-o] is given and no location is
    to be made, whatever the projections and whether [-j] is given or not;
    or the projection could be read, is that of the location, and [-j] is
    not given.  It exits with success in two cases only: after making the
    location with [-i], and with [-j] when the projections match and [-o]
    is not given. *)
Theorem import_goes_on_iff proj_trouble outloc make_location no_import over proj
    loc_proj cellhd_proj same :
  (projection_check proj_trouble outloc make_location no_import over proj
                    loc_proj cellhd_proj same = Ret None <->
   (outloc = true /\ proj_trouble = 0 /\ make_location = 0 /\ no_import = false) \/
   (outloc = false /\ over = true) \/
   (outloc = false /\ over = false /\ proj_trouble = 0 /\
    loc_proj = cellhd_proj /\ same = true /\ proj = false)) /\
  (projection_check proj_trouble outloc make_location no_import over proj
                    loc_proj cellhd_proj same = Ret (Some EXIT_SUCCESS) <->
   (outloc = true /\ proj_trouble = 0 /\ make_location = 0 /\ no_import = true) \/
   (outloc = false /\ over = false /\ proj_trouble = 0 /\
    loc_proj = cellhd_proj /\ same = true /\ proj = true)).
Proof.
  unfold projection_check.
  destruct outloc, over, no_import, proj, same;
    destruct (Z.eqb_spec proj_trouble 0), (Z.eqb_spec 0 make_location),
      (Z.eqb_spec loc_proj cellhd_proj);
    cbn [negb andb orb];
    (split;
     (split;
      [ try discriminate; intros _; subst;
        first [ left; repeat split; (reflexivity || assumption)
              | right; left; repeat split; (reflexivity || assumption)
              | right; right; repeat split; (reflexivity || assumption)
              | right; repeat split; (reflexivity || assumption) ]
      | intros H; try reflexivity; exfalso;
        decompose [and or] H; try discriminate; congruence ])).
Qed.

(** A layer is the code of its spatial reference system, 0 for none; a
    reference system is readable when its code is positive, and its
    key-value lists are its code. *)
Definition toy_cmp : list Z -> option string -> result Z :=
  cmp_layer_srs Z Z Z
    (fun l => if l =? 0 then None else Some l)
    (fun _ _ => 0) (fun _ _ => None)
    (fun s => match s with Some c => (0, 3, c) | None => (0, 0, 0) end)
    (fun c => 0 <? c) (fun _ => false) (fun _ => true) Z.eqb.

Example unreadable_layers_pass : toy_cmp [0; -4; 0] None = Ret 0.
Proof. reflexivity. Qed.

Example readable_after_unreadable_is_refused : toy_cmp [0; 32633] None = Ret 1.
Proof. reflexivity. Qed.

Example single_layer_is_not_looked_at : toy_cmp [-4] None = Ret 0.
Proof. reflexivity. Qed.

Lemma layers_accepted_iff_witness :
  toy_cmp [32633; 32633] None = Ret 0.
Proof.
  apply (proj2 (proj2 (layers_accepted_iff Z Z Z
                         (fun l => if l =? 0 then None else Some l)
                         (fun _ _ => 0) (fun _ _ => None)
                         (fun s => match s with
                                   | Some c => (0, 3, c)
                                   | None => (0, 0, 0)
                                   end)
                         (fun c => 0 <? c) (fun _ => false) (fun _ => true) Z.eqb
                         [32633; 32633] None ltac:(discriminate)))).
  right; right. exists 32633, [32633].
  split; [reflexivity|]. split; [exists 3, 32633; reflexivity|].
  constructor; [|constructor].
  exists 3, 32633, 3, 32633. repeat split.
Defined.

End Projections.

(** ** The spatial filters of the layers *)

Module SpatialFilter.

Local Open Scope R_scope.

(** The comparisons of C on [double]s, and the macros [MAX] and [MIN]
    of the GRASS headers. *)
Definition Rleb (a b : R) : bool := if Rle_dec a b then true else false.
Definition Rltb (a b : R) : bool := if Rlt_dec a b then true else false.
Definition Rgtb (a b : R) : bool := if Rgt_dec a b then true else false.
Definition MAX (a b : R) : R := if Rgt_dec a b then a else b.
Definition MIN (a b : R) : R := if Rlt_dec a b then a else b.

(** The box [*xmin, *ymin, *xmax, *ymax] of [main]. *)
Record bbox : Type := mkBbox { xmin : R; ymin : R; xmax : R; ymax : R }.

(** [xminl[layer]], [xmaxl[layer]], [yminl[layer]], [ymaxl[layer]]: they
    hold a value once [OGR_L_GetExtent] has given one or the filter loop
    has set one. *)
Record extent : Type := mkExtent { xminl : R; xmaxl : R; yminl : R; ymaxl : R }.

(** What [G_get_window] gives of the current region. *)
Record Cell_head : Type := mkWindow { west : R; east : R; south : R; north : R }.

(** The [while (spat->answers[i])] over the values of the option
    [spatial], which [atof] has read: the box and the final [i]. *)
Fixpoint read_spat (answers : list R) (i : Z) (b : bbox) : bbox * Z :=
  match answers with
  | [] => (b, i)
  | a :: tl =>
      let b1 := if (i =? 0)%Z then mkBbox a (ymin b) (xmax b) (ymax b) else b in
      let b2 := if (i =? 1)%Z then mkBbox (xmin b1) a (xmax b1) (ymax b1) else b1 in
      let b3 := if (i =? 2)%Z then mkBbox (xmin b2) (ymin b2) a (ymax b2) else b2 in
      let b4 := if (i =? 3)%Z then mkBbox (xmin b3) (ymin b3) (xmax b3) a else b3 in
      read_spat tl (i + 1)%Z b4
  end.

(** The part "set spatial filter": the box that the flag [-r] or the
    option [spatial] asks for.  [spat] is empty when the option is not
    given. *)
Definition cut_out (use_region : bool) (cur_wind : Cell_head) (spat : list R)
    (b : bbox) : result bbox :=
  if use_region && negb (match spat with [] => true | _ => false end)
  then Fatal "Select either the current region flag or the spatial option, not both"
  else
    let b1 :=
      if use_region
      then mkBbox (west cur_wind) (south cur_wind) (east cur_wind) (north cur_wind)
      else b in
    match spat with
    | [] => Ret b1
    | _ :: _ =>
        let (b2, i) := read_spat spat 0 b1 in
        if negb (i =? 4)%Z
        then Fatal "4 parameters required for 'spatial' parameter"
        else if Rgtb (xmin b2) (xmax b2)
        then Fatal "xmin is larger than xmax in 'spatial' parameters"
        else if Rgtb (ymin b2) (ymax b2)
        then Fatal "ymin is larger than ymax in 'spatial' parameters"
        else Ret b2
    end.

(** [*xmin <= *xmax && *ymin <= *ymax] *)
Definition selected (b : bbox) : bool :=
  Rleb (xmin b) (xmax b) && Rleb (ymin b) (ymax b).

(** The body of the loop "create spatial filter for each layer", up to
    [have_filter]: the box of the layer when [have_filter] is set, [None]
    when it is not.  [e] is the extent of the layer when
    [have_ogr_extent[layer]] is set. *)
Definition filter_box (b : bbox) (e : option extent) : option extent :=
  match e with
  | Some e =>
      if selected b then
        if Rgtb (xminl e) (xmax b) || Rltb (xmaxl e) (xmin b) ||
           Rgtb (yminl e) (ymax b) || Rltb (ymaxl e) (ymin b)
        then Some (mkExtent (xmin b) (xmax b) (ymin b) (ymax b))
        else Some (mkExtent (MAX (xminl e) (xmin b)) (MIN (xmaxl e) (xmax b))
                            (MAX (yminl e) (ymin b)) (MIN (ymaxl e) (ymax b)))
      else Some e
  | None =>
      if selected b
      then Some (mkExtent (xmin b) (xmax b) (ymin b) (ymax b))
      else None
  end.

(** The ring of the polygon that becomes [poSpatialFilter[layer]]. *)
Definition ring (e : extent) : list (R * R) :=
  [ (xminl e, yminl e); (xminl e, ymaxl e); (xmaxl e, ymaxl e);
    (xmaxl e, yminl e); (xminl e, yminl e) ].

(** The body of the loop "update xmin, xmax, ymin, ymax if possible" for
    a layer with [have_ogr_extent[layer]] set.  The test of the source,
    [xmin > xmax], compares the two pointers, not what they point to:
    [after] is what that comparison gives, the same at every turn. *)
Definition update_with (after : bool) (b : bbox) (e : extent) : bbox :=
  if after then mkBbox (xminl e) (yminl e) (xmaxl e) (ymaxl e)
  else mkBbox (MIN (xminl e) (xmin b)) (MIN (yminl e) (ymin b))
              (MAX (xmaxl e) (xmax b)) (MAX (ymaxl e) (ymax b)).

Fixpoint update (after : bool) (b : bbox)
    (extents boxes : list (option extent)) : bbox :=
  match extents, boxes with
  | Some _ :: et, Some e :: bt => update after (update_with after b e) et bt
  | _ :: et, _ :: bt => update after b et bt
  | _, _ => b
  end.

(** [create_spatial_filter]: the filters of the layers, the box that
    [main] gets back, and the value returned.  [extents] is what
    [OGR_L_GetExtent] gives for the layers to import, [None] where it
    fails.  The reading cursors that the first loop puts back to the start
    are not part of this model, nor is what is printed. *)
Definition create_spatial_filter (after : bool) (extents : list (option extent))
    (b : bbox) (use_region : bool) (cur_wind : Cell_head) (spat : list R)
    : result (list (option (list (R * R))) * bbox * Z) :=
  match cut_out use_region cur_wind spat b with
  | Ret b1 =>
      let boxes := map (filter_box b1) extents in
      Ret (map (option_map ring) boxes,
           update after b1 extents boxes,
           if existsb (fun x => match x with Some _ => true | None => false end) boxes
           then 1%Z else 0%Z)
  | Fatal msg => Fatal msg
  | OutOfFuel => OutOfFuel
  end.

(** [e] lies within [b]. *)
Definition within (b : bbox) (e : extent) : Prop :=
  xmin b <= xminl e <= xmax b /\ xmin b <= xmaxl e <= xmax b /\
  ymin b <= yminl e <= ymax b /\ ymin b <= ymaxl e <= ymax b.

(** [e'] lies within [e], which has its corners in order. *)
Definition shrunk (e e' : extent) : Prop :=
  xminl e <= xminl e' /\ xminl e' <= xmaxl e' /\ xmaxl e' <= xmaxl e /\
  yminl e <= yminl e' /\ yminl e' <= ymaxl e' /\ ymaxl e' <= ymaxl e.

Lemma selected_true b : selected b = true <-> xmin b <= xmax b /\ ymin b <= ymax b.
Proof.
  unfold selected, Rleb.
  destruct (Rle_dec (xmin b) (xmax b)), (Rle_dec (ymin b) (ymax b)); cbn;
    split; try tauto; try discriminate.
Qed.

Lemma filter_box_within b e :
  selected b = true ->
  exists e', filter_box b e = Some e' /\ within b e'.
Proof.
  intros Hs. pose proof (proj1 (selected_true b) Hs) as (Hx & Hy).
  unfold filter_box. rewrite Hs.
  assert (Hsel : within b (mkExtent (xmin b) (xmax b) (ymin b) (ymax b))).
  { unfold within; cbn. lra. }
  destruct e as [e|]; [|eauto].
  unfold Rgtb, Rltb.
  destruct (Rgt_dec (xminl e) (xmax b)); cbn [orb]; [eauto|].
  destruct (Rlt_dec (xmaxl e) (xmin b)); cbn [orb]; [eauto|].
  destruct (Rgt_dec (yminl e) (ymax b)); cbn [orb]; [eauto|].
  destruct (Rlt_dec (ymaxl e) (ymin b)); cbn [orb]; [eauto|].
  eexists; split; [reflexivity|].
  unfold within, MAX, MIN; cbn.
  destruct (Rgt_dec (xminl e) (xmin b)), (Rlt_dec (xmaxl e) (xmax b)),
    (Rgt_dec (yminl e) (ymin b)), (Rlt_dec (ymaxl e) (ymax b)); lra.
Qed.

(** X9.  When a box is selected with [-r] or [spatial], every layer gets
    a spatial filter, and the box of the filter lies within the selected
    box, whatever the extent of the layer; the value returned is 1 as soon
    as there is a layer. *)
Theorem filters_within_selection after extents b use_region cur_wind spat
    b1 filters b' flag :
  cut_out use_region cur_wind spat b = Ret b1 ->
  selected b1 = true ->
  create_spatial_filter after extents b use_region cur_wind spat
  = Ret (filters, b', flag) ->
  Forall (fun f => exists e, f = Some (ring e) /\ within b1 e) filters /\
  length filters = length extents /\
  (extents <> [] -> flag = 1%Z).
Proof.
  intros Hcut Hs. unfold create_spatial_filter. rewrite Hcut.
  intros E; inversion E; subst; clear E.
  split; [|split].
  - apply Forall_forall. intros f Hin.
    apply in_map_iff in Hin. destruct Hin as (x & <- & Hin).
    apply in_map_iff in Hin. destruct Hin as (e & <- & _).
    destruct (filter_box_within b1 e Hs) as (e' & -> & Hw).
    exists e'. split; [reflexivity | assumption].
  - rewrite !length_map. reflexivity.
  - intros Hne. destruct extents as [|e tl]; [congruence|]. cbn.
    destruct (filter_box_within b1 e Hs) as (e' & -> & _). reflexivity.
Qed.

(** The points of an extent and of a box, sides included. *)
Definition in_extent (e : extent) (x y : R) : Prop :=
  xminl e <= x <= xmaxl e /\ yminl e <= y <= ymaxl e.

Definition in_bbox (b : bbox) (x y : R) : Prop :=
  xmin b <= x <= xmax b /\ ymin b <= y <= ymax b.

(** [check for any overlap] *)
Definition no_overlap (b : bbox) (e : extent) : bool :=
  Rgtb (xminl e) (xmax b) || Rltb (xmaxl e) (xmin b) ||
  Rgtb (yminl e) (ymax b) || Rltb (ymaxl e) (ymin b).

Lemma no_overlap_false b e :
  no_overlap b e = false <->
  xminl e <= xmax b /\ xmin b <= xmaxl e /\ yminl e <= ymax b /\ ymin b <= ymaxl e.
Proof.
  unfold no_overlap, Rgtb, Rltb.
  destruct (Rgt_dec (xminl e) (xmax b)), (Rlt_dec (xmaxl e) (xmin b)),
    (Rgt_dec (yminl e) (ymax b)), (Rlt_dec (ymaxl e) (ymin b)); cbn [orb];
    split; try discriminate; try reflexivity; intros; lra.
Qed.

Lemma MAX_cases a b : (b < a /\ MAX a b = a) \/ (a <= b /\ MAX a b = b).
Proof. unfold MAX. destruct (Rgt_dec a b); [left | right]; split; lra. Qed.

Lemma MIN_cases a b : (a < b /\ MIN a b = a) \/ (b <= a /\ MIN a b = b).
Proof. unfold MIN. destruct (Rlt_dec a b); [left | right]; split; lra. Qed.

(** X10.  The test for overlap of the selected box and the extent of a
    layer fails exactly when the two have no point in common.  Where they
    overlap, the filter of the layer is their intersection: on each axis
    it runs from the larger of the two lower bounds to the smaller of the
    two upper bounds, so that it lies within the selected box and within
    the extent of the layer, with its corners in order, and a point lies in
    it exactly when it lies in both.  Where they do not overlap, the filter
    is the selected box itself. *)
Theorem filter_is_intersection b e :
  selected b = true ->
  xminl e <= xmaxl e -> yminl e <= ymaxl e ->
  (no_overlap b e = false <-> exists x y, in_extent e x y /\ in_bbox b x y) /\
  exists e',
    filter_box b (Some e) = Some e' /\
    if Rgtb (xminl e) (xmax b) || Rltb (xmaxl e) (xmin b) ||
       Rgtb (yminl e) (ymax b) || Rltb (ymaxl e) (ymin b)
    then e' = mkExtent (xmin b) (xmax b) (ymin b) (ymax b)
    else e' = mkExtent (MAX (xminl e) (xmin b)) (MIN (xmaxl e) (xmax b))
                       (MAX (yminl e) (ymin b)) (MIN (ymaxl e) (ymax b)) /\
         within b e' /\ shrunk e e' /\
         forall x y, in_extent e' x y <-> in_extent e x y /\ in_bbox b x y.
Proof.
  intros Hs Hex Hey. pose proof (proj1 (selected_true b) Hs) as (Hx & Hy).
  split.
  { rewrite no_overlap_false. unfold in_extent, in_bbox. split.
    - intros (H1 & H2 & H3 & H4).
      exists (MAX (xminl e) (xmin b)), (MAX (yminl e) (ymin b)).
      destruct (MAX_cases (xminl e) (xmin b)) as [[? ->]|[? ->]],
        (MAX_cases (yminl e) (ymin b)) as [[? ->]|[? ->]]; lra.
    - intros (x & y & He & Hb). lra. }
  unfold filter_box. rewrite Hs.
  change (Rgtb (xminl e) (xmax b) || Rltb (xmaxl e) (xmin b) ||
          Rgtb (yminl e) (ymax b) || Rltb (ymaxl e) (ymin b))
    with (no_overlap b e).
  destruct (no_overlap b e) eqn:Ho.
  - eexists; split; reflexivity.
  - eexists; split; [reflexivity|]. split; [reflexivity|].
    apply no_overlap_false in Ho. destruct Ho as (H1 & H2 & H3 & H4).
    unfold within, shrunk, in_extent, in_bbox; cbn [xminl xmaxl yminl ymaxl].
    destruct (MAX_cases (xminl e) (xmin b)) as [[? ->]|[? ->]],
      (MIN_cases (xmaxl e) (xmax b)) as [[? ->]|[? ->]],
      (MAX_cases (yminl e) (ymin b)) as [[? ->]|[? ->]],
      (MIN_cases (ymaxl e) (ymax b)) as [[? ->]|[? ->]];
      (split; [lra|]); (split; [lra|]); intros x y; split; intros; lra.
Qed.

Lemma filter_box_unselected b e :
  selected b = false -> filter_box b e = e.
Proof. intros Hs. unfold filter_box. rewrite Hs. destruct e; reflexivity. Qed.

(** X11.  When no box is selected, the filter of a layer is the extent
    that the layer reports, and a layer that reports none gets no filter;
    in every case the value returned is 1 exactly when some layer has got a
    filter. *)
Theorem filters_without_selection after extents b use_region cur_wind spat
    b1 filters b' flag :
  cut_out use_region cur_wind spat b = Ret b1 ->
  create_spatial_filter after extents b use_region cur_wind spat
  = Ret (filters, b', flag) ->
  (selected b1 = false -> filters = map (option_map ring) extents) /\
  (flag = 1%Z <-> exists r, In (Some r) filters) /\
  (flag = 0%Z <-> Forall (eq None) filters).
Proof.
  intros Hcut. unfold create_spatial_filter. rewrite Hcut.
  intros E; inversion E; subst; clear E.
  split; [|].
  - intros Hs. f_equal. rewrite <- (map_id extents) at 2.
    apply map_ext. intros e. apply filter_box_unselected. assumption.
  - induction (map (filter_box b1) extents) as [|x tl (IH1 & IH0)]; cbn.
    + split; split; try discriminate; auto.
      intros (r & []).
    + destruct x as [e|]; cbn.
      * split; split; auto; try discriminate.
        -- intros _. eauto.
        -- intros H; inversion H; discriminate.
      * split.
        -- rewrite IH1. split.
           ++ intros (r & Hin). eauto.
           ++ intros (r & [Hx|Hin]); [discriminate | eauto].
        -- rewrite IH0. split.
           ++ intros H. constructor; auto.
           ++ intros H; inversion H; assumption.
Qed.

Lemma read_spat_count answers : forall i b,
  snd (read_spat answers i b) = (i + Z.of_nat (length answers))%Z.
Proof.
  induction answers as [|a tl IH]; intros i b; cbn [read_spat length].
  - cbn. lia.
  - rewrite IH. lia.
Qed.

(** X12.  The box asked for is refused, and the program stops, in these
    cases only: [spatial] is given together with [-r]; [spatial] has not
    four values; its first value is larger than its third, or its second
    larger than its fourth.  Four values in order are taken as [xmin],
    [ymin], [xmax], [ymax]. *)
Theorem selection_refused_iff use_region cur_wind spat b :
  ((exists msg, cut_out use_region cur_wind spat b = Fatal msg) <->
   spat <> [] /\
   (use_region = true \/ length spat <> 4%nat \/
    exists x0 y0 x1 y1, spat = [x0; y0; x1; y1] /\ (x0 > x1 \/ y0 > y1))) /\
  (forall x0 y0 x1 y1,
      x0 <= x1 -> y0 <= y1 ->
      cut_out false cur_wind [x0; y0; x1; y1] b = Ret (mkBbox x0 y0 x1 y1)).
Proof.
  split.
  - unfold cut_out. destruct spat as [|a tl].
    + rewrite andb_false_r. split; [intros (msg & E); discriminate|].
      intros (H & _). congruence.
    + cbn [negb]. rewrite andb_true_r. destruct use_region.
      * split; [intros _; split; [discriminate | auto] | eauto].
      * pose proof (read_spat_count (a :: tl) 0 b) as Hn.
        destruct (read_spat (a :: tl) 0 b) as [b2 i] eqn:Er. cbn [snd] in Hn.
        destruct (Z.eqb_spec i 4) as [Hi|Hi]; cbn [negb].
        -- destruct tl as [|y0 [|x1 [|y1 [|z tl]]]]; cbn [length] in Hn; try lia.
           cbn in Er. inversion Er; subst b2; clear Er. cbn [xmin xmax ymin ymax].
           unfold Rgtb.
           destruct (Rgt_dec a x1) as [Hx|Hx].
           ++ split; [|eauto]. intros _. split; [discriminate|].
              right; right. exists a, y0, x1, y1. auto.
           ++ destruct (Rgt_dec y0 y1) as [Hy|Hy].
              ** split; [|eauto]. intros _. split; [discriminate|].
                 right; right. exists a, y0, x1, y1. auto.
              ** split; [intros (msg & E); discriminate|].
                 intros (_ & [H|[H|(x0' & y0' & x1' & y1' & E & H)]]).
                 --- discriminate.
                 --- cbn in H. congruence.
                 --- inversion E; subst. lra.
        -- split; [|eauto]. intros _. split; [discriminate|].
           right; left. intros Hl. rewrite Hl in Hn. cbn in Hn. lia.
  - intros x0 y0 x1 y1 Hx Hy. cbn. unfold Rgtb.
    destruct (Rgt_dec x0 x1); [lra|]. destruct (Rgt_dec y0 y1); [lra|]. reflexivity.
Qed.

Lemma MIN_le a b : MIN a b <= a /\ MIN a b <= b.
Proof. unfold MIN. destruct (Rlt_dec a b); lra. Qed.

Lemma MAX_ge a b : a <= MAX a b /\ b <= MAX a b.
Proof. unfold MAX. destruct (Rgt_dec a b); lra. Qed.

(** [b'] reaches at least as far as [b] on every side. *)
Definition covers (b' b : bbox) : Prop :=
  xmin b' <= xmin b /\ ymin b' <= ymin b /\ xmax b <= xmax b' /\ ymax b <= ymax b'.

Definition box_of (e : extent) : bbox :=
  mkBbox (xminl e) (yminl e) (xmaxl e) (ymaxl e).

Lemma update_expands : forall extents boxes b,
  covers (update false b extents boxes) b /\
  forall i e e',
    nth_error extents i = Some (Some e) -> nth_error boxes i = Some (Some e') ->
    covers (update false b extents boxes) (box_of e').
Proof.
  induction extents as [|x et IH]; intros boxes b.
  - cbn. split; [unfold covers; lra|]. intros [|i] e e'; discriminate.
  - destruct boxes as [|y bt].
    + destruct x; cbn; (split; [unfold covers; lra|]);
        intros [|i] e0 e'; cbn; discriminate.
    + assert (Hskip : update false b (x :: et) (y :: bt) = update false b et bt ->
                      (x = None \/ y = None) ->
                      covers (update false b (x :: et) (y :: bt)) b /\
                      forall i e e',
                        nth_error (x :: et) i = Some (Some e) ->
                        nth_error (y :: bt) i = Some (Some e') ->
                        covers (update false b (x :: et) (y :: bt)) (box_of e')).
      { intros -> Hxy. destruct (IH bt b) as (H1 & H2). split; [assumption|].
        intros [|i] e e'; cbn.
        - intros E1 E2. destruct Hxy; congruence.
        - apply H2. }
      destruct x as [e0|]; [|apply Hskip; auto].
      destruct y as [e1|]; [|apply Hskip; auto].
      cbn [update]. destruct (IH bt (update_with false b e1)) as (H1 & H2).
      assert (Hstep : covers (update_with false b e1) b /\
                      covers (update_with false b e1) (box_of e1)).
      { unfold covers, update_with, box_of; cbn.
        pose proof (MIN_le (xminl e1) (xmin b)). pose proof (MIN_le (yminl e1) (ymin b)).
        pose proof (MAX_ge (xmaxl e1) (xmax b)). pose proof (MAX_ge (ymaxl e1) (ymax b)).
        lra. }
      destruct Hstep as (Hs1 & Hs2).
      split.
      * unfold covers in *. lra.
      * intros [|i] e e'; cbn [nth_error].
        -- intros _ E; inversion E; subst. unfold covers in *. lra.
        -- apply H2.
Qed.

(** X13.  The box that [create_spatial_filter] hands back to [main] is
    made without a look at whether a box was selected, because the test
    that decides how it is made compares the addresses of [xmin] and [xmax]
    and not their values.  When the comparison gives false, the box handed
    back covers the box it started from and the filter box of every layer
    that reports an extent; when it gives true and the last layer reports
    an extent, the box handed back is the filter box of that layer. *)
Theorem returned_box after extents b use_region cur_wind spat b1 filters b' flag :
  cut_out use_region cur_wind spat b = Ret b1 ->
  create_spatial_filter after extents b use_region cur_wind spat
  = Ret (filters, b', flag) ->
  if after then
    forall front e, extents = (front ++ [Some e])%list ->
      exists e', filter_box b1 (Some e) = Some e' /\ b' = box_of e'
  else
    covers b' b1 /\
    forall e e', In (Some e) extents -> filter_box b1 (Some e) = Some e' ->
                 covers b' (box_of e').
Proof.
  intros Hcut. unfold create_spatial_filter. rewrite Hcut.
  intros E; inversion E; subst; clear E.
  destruct after.
  - intros front e ->.
    assert (He : exists e', filter_box b1 (Some e) = Some e').
    { cbn. destruct (selected b1); [|eauto].
      destruct (Rgtb (xminl e) (xmax b1) || Rltb (xmaxl e) (xmin b1) ||
                Rgtb (yminl e) (ymax b1) || Rltb (ymaxl e) (ymin b1)); eauto. }
    destruct He as (e' & He). exists e'. split; [assumption|].
    rewrite map_app. cbn [map]. rewrite He.
    generalize b1 at 1. clear Hcut.
    induction front as [|x ft IH]; intros b0.
    + reflexivity.
    + cbn [app map update]. destruct x as [e0|].
      * destruct (filter_box b1 (Some e0)); apply IH.
      * destruct (filter_box b1 None); apply IH.
  - destruct (update_expands extents (map (filter_box b1) extents) b1) as (H1 & H2).
    split; [assumption|].
    intros e e' Hin He. apply In_nth_error in Hin. destruct Hin as (i & Hi).
    apply (H2 i e e' Hi).
    rewrite nth_error_map, Hi. cbn [option_map]. rewrite He. reflexivity.
Qed.

(** X14.  When no box is selected and no layer reports an extent, no layer
    gets a filter, 0 is returned, the box of [main] is as it was, and the
    splitting of boundaries is suppressed whatever the census counts.
    This is the case of the box that [main] starts with, from 1 to 0 on
    both axes, when neither [-r] nor [spatial] is given. *)
Theorem no_extent_no_selection after extents b no_clean n :
  selected b = false ->
  Forall (eq None) extents ->
  exists filters,
    create_spatial_filter after extents b false (mkWindow 0 0 0 0) []
    = Ret (filters, b, 0%Z) /\
    Forall (eq None) filters /\
    SplitDistance.calibrate no_clean (xmin b) (ymin b) (xmax b) (ymax b) n = -1.
Proof.
  intros Hs Hall. unfold create_spatial_filter. cbn [cut_out andb].
  assert (Hmap : map (filter_box b) extents = extents).
  { rewrite <- (map_id extents) at 2. apply map_ext.
    intros e. apply filter_box_unselected. assumption. }
  rewrite Hmap.
  assert (Hup : update after b extents extents = b).
  { clear Hmap. induction Hall as [|x tl <- _ IH]; cbn; auto. }
  assert (Hex : existsb (fun x : option extent =>
                           match x with Some _ => true | None => false end)
                        extents = false).
  { clear Hmap Hup. induction Hall as [|x tl <- _ IH]; cbn; auto. }
  rewrite Hup, Hex. eexists; split; [reflexivity|]. split.
  - clear Hmap Hup Hex. induction Hall as [|x tl <- _ IH]; cbn; constructor; auto.
  - apply SplitDistance.splitting_suppressed. right.
    unfold selected, Rleb in Hs.
    destruct (Rle_dec (xmin b) (xmax b)); [|left; lra].
    destruct (Rle_dec (ymin b) (ymax b)); [discriminate | right; lra].
Qed.

Definition initial_box : bbox := mkBbox 1 1 0 0.

Lemma initial_box_not_selected : selected initial_box = false.
Proof.
  unfold selected, Rleb, initial_box; cbn.
  destruct (Rle_dec 1 0); [lra | reflexivity].
Qed.

(** A layer far from the origin, no box selected, the comparison of the
    addresses false: the box handed back starts at 1, not at the layer. *)
Example box_reaches_back_to_one :
  exists filters,
    create_spatial_filter false [Some (mkExtent 500 600 500 600)]
                          initial_box false (mkWindow 0 0 0 0) []
    = Ret (filters, mkBbox 1 1 600 600, 1%Z).
Proof.
  unfold create_spatial_filter. cbn [cut_out andb map].
  rewrite (filter_box_unselected _ _ initial_box_not_selected).
  cbn. unfold MIN, MAX.
  destruct (Rlt_dec 500 1); [lra|]. destruct (Rgt_dec 600 0); [|lra].
  eexists; reflexivity.
Qed.

Definition demo_extents : list (option extent) :=
  [Some (mkExtent 0 10 0 10); None].

Lemma selection_cut :
  cut_out false (mkWindow 0 0 0 0) [2; 3; 20; 5] initial_box = Ret (mkBbox 2 3 20 5).
Proof.
  cbn. unfold Rgtb.
  destruct (Rgt_dec 2 20); [lra|]. destruct (Rgt_dec 3 5); [lra|]. reflexivity.
Qed.

Lemma selection_valid : selected (mkBbox 2 3 20 5) = true.
Proof. apply selected_true; cbn; lra. Qed.

Lemma no_selection_cut :
  cut_out false (mkWindow 0 0 0 0) [] initial_box = Ret initial_box.
Proof. reflexivity. Qed.

Lemma demo_filters_run after spat b1 :
  cut_out false (mkWindow 0 0 0 0) spat initial_box = Ret b1 ->
  create_spatial_filter after demo_extents initial_box false (mkWindow 0 0 0 0) spat
  = Ret (map (option_map ring) (map (filter_box b1) demo_extents),
         update after b1 demo_extents (map (filter_box b1) demo_extents),
         if existsb (fun x : option extent =>
                       match x with Some _ => true | None => false end)
                    (map (filter_box b1) demo_extents)
         then 1%Z else 0%Z).
Proof. intros H. unfold create_spatial_filter. rewrite H. reflexivity. Qed.

Lemma filters_within_selection_witness :
  Forall (fun f => exists e, f = Some (ring e) /\ within (mkBbox 2 3 20 5) e)
         (map (option_map ring) (map (filter_box (mkBbox 2 3 20 5)) demo_extents)).
Proof.
  apply (filters_within_selection false demo_extents initial_box false
           (mkWindow 0 0 0 0) [2; 3; 20; 5] (mkBbox 2 3 20 5) _ _ _
           selection_cut selection_valid
           (demo_filters_run false [2; 3; 20; 5] (mkBbox 2 3 20 5) selection_cut)).
Defined.

Lemma filter_is_intersection_witness :
  (no_overlap (mkBbox 2 3 20 5) (mkExtent 0 10 0 10) = false <->
   exists x y, in_extent (mkExtent 0 10 0 10) x y /\ in_bbox (mkBbox 2 3 20 5) x y) /\
  exists e',
    filter_box (mkBbox 2 3 20 5) (Some (mkExtent 0 10 0 10)) = Some e' /\
    if Rgtb 0 20 || Rltb 10 2 || Rgtb 0 5 || Rltb 10 3
    then e' = mkExtent 2 20 3 5
    else e' = mkExtent (MAX 0 2) (MIN 10 20) (MAX 0 3) (MIN 10 5) /\
         within (mkBbox 2 3 20 5) e' /\ shrunk (mkExtent 0 10 0 10) e' /\
         forall x y, in_extent e' x y <->
                     in_extent (mkExtent 0 10 0 10) x y /\ in_bbox (mkBbox 2 3 20 5) x y.
Proof.
  apply (filter_is_intersection (mkBbox 2 3 20 5) (mkExtent 0 10 0 10)
           selection_valid); cbn; lra.
Defined.

(** The filter of the layer with extent (0,0)-(10,10) under the selection
    (2,3)-(20,5) is the box (2,3)-(10,5). *)
Example filter_of_the_overlap :
  filter_box (mkBbox 2 3 20 5) (Some (mkExtent 0 10 0 10)) = Some (mkExtent 2 10 3 5).
Proof.
  unfold filter_box. rewrite selection_valid.
  unfold Rgtb, Rltb; cbn [xminl xmaxl yminl ymaxl xmin xmax ymin ymax].
  destruct (Rgt_dec 0 20); [lra|]. destruct (Rlt_dec 10 2); [lra|].
  destruct (Rgt_dec 0 5); [lra|]. destruct (Rlt_dec 10 3); [lra|]. cbn [orb].
  unfold MAX, MIN.
  destruct (Rgt_dec 0 2); [lra|]. destruct (Rlt_dec 10 20); [|lra].
  destruct (Rgt_dec 0 3); [lra|]. destruct (Rlt_dec 10 5); [lra|]. reflexivity.
Qed.

Lemma filters_without_selection_witness :
  map (option_map ring) (map (filter_box initial_box) demo_extents)
  = map (option_map ring) demo_extents.
Proof.
  apply (proj1 (filters_without_selection false demo_extents initial_box false
                  (mkWindow 0 0 0 0) [] initial_box _ _ _
                  no_selection_cut
                  (demo_filters_run false [] initial_box no_selection_cut))).
  exact initial_box_not_selected.
Defined.

Lemma selection_refused_iff_witness :
  cut_out false (mkWindow 0 0 0 0) [2; 3; 20; 5] initial_box = Ret (mkBbox 2 3 20 5).
Proof.
  apply (proj2 (selection_refused_iff false (mkWindow 0 0 0 0) [] initial_box)); lra.
Defined.

Lemma returned_box_witness :
  covers (update false initial_box demo_extents
                 (map (filter_box initial_box) demo_extents))
         initial_box.
Proof.
  apply (proj1 (returned_box false demo_extents initial_box false
                  (mkWindow 0 0 0 0) [] initial_box _ _ _
                  no_selection_cut
                  (demo_filters_run false [] initial_box no_selection_cut))).
Defined.

Lemma no_extent_no_selection_witness :
  exists filters,
    create_spatial_filter true [None; None] initial_box false (mkWindow 0 0 0 0) []
    = Ret (filters, initial_box, 0%Z) /\
    Forall (eq None) filters /\
    SplitDistance.calibrate false 1 1 0 0 1000 = -1.
Proof.
  apply (no_extent_no_selection true [None; None] initial_box false 1000
           initial_box_not_selected).
  repeat constructor.
Defined.

End SpatialFilter.

(** ** The attribute tables *)

Module Tables.

Local Open Scope string_scope.
Local Open Scope Z_scope.

(** [OGRFieldType], as the comment in the table loop lists it. *)
Inductive OGRFieldType : Type :=
| OFTInteger | OFTIntegerList | OFTReal | OFTRealList | OFTString
| OFTStringList | OFTWideString | OFTWideStringList | OFTBinary
| OFTDate | OFTTime | OFTDateTime | OFTInteger64 | OFTInteger64List.

(** What the program reads of a field definition: [OGR_Fld_GetNameRef],
    [OGR_Fld_GetType], [OGR_Fld_GetWidth]. *)
Record OGRFieldDefn : Type := mkField {
  Fld_name : string;
  Fld_type : OGRFieldType;
  Fld_width : Z
}.

(** [%d] of [sprintf]. *)
Definition sprintf_d (z : Z) : string := NilZero.string_of_int (Z.to_int z).

(** [datetime_type], from the name of the default database driver
    ([None] for [NULL]). *)
Definition datetime_type (driver_name : option string) : string :=
  match driver_name with
  | Some d =>
      if String.eqb d "pg" then "timestamp"
      else if String.eqb d "dbf" then "varchar(22)"
      else "datetime"
  | None => "datetime"
  end.

Definition OFTIntegerListlength : Z := 255.

Section Sql.

(** Of the GRASS libraries: the name of the category column, and the
    functions on strings that the table code calls. *)
Variable GV_KEY_COLUMN : string.
Variable G_str_to_sql : string -> string.
Variable G_str_to_lower : string -> string.
Variable db_double_quote_string : string -> string.
Variable G_str_replace : string -> string -> string -> string.

(** The name of the column for field [i]: [cnames] are the values of the
    option [columns], the first of which names the key column. *)
Definition column_name (tolower : bool) (cnames : list string) (i : Z)
    (fld : OGRFieldDefn) : string :=
  let ncnames := Z.of_nat (length cnames) in
  let name0 :=
    if i <? ncnames - 1 then nth (Z.to_nat (i + 1)) cnames ""
    else G_str_to_sql (Fld_name fld) in
  let name1 :=
    if String.eqb name0 GV_KEY_COLUMN then name0 ++ "_" else name0 in
  if tolower then G_str_to_lower name1 else name1.

(** What is appended to [create table ... (key integer] for a field:
    [buf] after the chain of tests on [Ogr_ftype], for a build with GDAL
    2.0 or later.  [driver] is [Fi->driver]; what is printed is left
    out. *)
Definition column_def (driver dt_type name : string) (fld : OGRFieldDefn) : string :=
  match Fld_type fld with
  | OFTInteger => ", " ++ name ++ " integer"
  | OFTInteger64 =>
      if String.eqb driver "pg" then ", " ++ name ++ " bigint"
      else ", " ++ name ++ " integer"
  | OFTIntegerList | OFTInteger64List =>
      ", " ++ name ++ " varchar ( " ++ sprintf_d OFTIntegerListlength ++ " )"
  | OFTReal => ", " ++ name ++ " double precision"
  | OFTDate => ", " ++ name ++ " date"
  | OFTTime => ", " ++ name ++ " time"
  | OFTDateTime => ", " ++ name ++ " " ++ dt_type
  | OFTString =>
      let fwidth := if Fld_width fld =? 0 then 255 else Fld_width fld in
      ", " ++ name ++ " varchar ( " ++ sprintf_d fwidth ++ " )"
  | OFTStringList =>
      ", " ++ name ++ " varchar ( " ++ sprintf_d OFTIntegerListlength ++ " )"
  | _ => ""
  end.

(** The loop over the fields of the layer in the table creation: what is
    appended for each field that is not the key, from field [i] on. *)
Fixpoint column_defs (driver dt_type : string) (tolower : bool)
    (cnames : list string) (key_idx : Z) (i : Z) (fields : list OGRFieldDefn)
    : list string :=
  match fields with
  | [] => []
  | fld :: tl =>
      let rest := column_defs driver dt_type tolower cnames key_idx (i + 1) tl in
      if (-1 <? key_idx) && (key_idx =? i) then rest
      else column_def driver dt_type (column_name tolower cnames i fld) fld :: rest
  end.

Definition create_table (table key_column driver dt_type : string)
    (tolower : bool) (cnames : list string) (key_idx : Z)
    (fields : list OGRFieldDefn) : string :=
  "create table " ++ table ++ " (" ++ key_column ++ " integer"
  ++ String.concat "" (column_defs driver dt_type tolower cnames key_idx 0 fields)
  ++ ")".

(** What is appended to [insert into ... values ( cat] for a field:
    [Ogr_fstring] is the value of the field as a string, [None] when the
    field is not set. *)
Definition column_value (fld : OGRFieldDefn) (Ogr_fstring : option string) : string :=
  if match Ogr_fstring with
     | Some s => negb (String.eqb s "")
     | None => false
     end
  then
    let s := match Ogr_fstring with Some s => s | None => "" end in
    match Fld_type fld with
    | OFTInteger | OFTInteger64 | OFTReal => ", " ++ s
    | OFTDate | OFTTime | OFTDateTime =>
        G_str_replace (", '" ++ db_double_quote_string s ++ "'") "/" "-"
    | OFTString | OFTStringList | OFTIntegerList | OFTInteger64List =>
        ", '" ++ db_double_quote_string s ++ "'"
    | _ => ""
    end
  else
    match Fld_type fld with
    | OFTInteger | OFTInteger64 | OFTReal => ", NULL"
    | OFTDate | OFTTime | OFTDateTime => ", NULL"
    | OFTString | OFTStringList | OFTIntegerList | OFTInteger64List => ", NULL"
    | _ => ""
    end.

(** The loop over the fields of a feature in the import pass;
    [values i] is the value of field [i] of the feature. *)
Fixpoint column_values (key_idx : Z) (i : Z) (fields : list OGRFieldDefn)
    (values : Z -> option string) : list string :=
  match fields with
  | [] => []
  | fld :: tl =>
      let rest := column_values key_idx (i + 1) tl values in
      if (-1 <? key_idx) && (key_idx =? i) then rest
      else column_value fld (values i) :: rest
  end.

Definition insert_row (table : string) (cat : Z) (key_idx : Z)
    (fields : list OGRFieldDefn) (values : Z -> option string) : string :=
  "insert into " ++ table ++ " values ( " ++ sprintf_d cat
  ++ String.concat "" (column_values key_idx 0 fields values)
  ++ " )".

(** The types for which a column is made. *)
Definition supported (t : OGRFieldType) : bool :=
  match t with
  | OFTRealList | OFTWideString | OFTWideStringList | OFTBinary => false
  | _ => true
  end.

Lemma column_def_empty driver dt_type name fld :
  column_def driver dt_type name fld = "" <-> supported (Fld_type fld) = false.
Proof.
  unfold column_def. destruct (Fld_type fld); cbn;
    try (split; [discriminate | discriminate]);
    try (split; reflexivity).
  destruct (String.eqb driver "pg"); split; discriminate.
Qed.

(** Replacing "/" by "-" in a string that is not empty does not give the
    empty string. *)
Hypothesis G_str_replace_keeps :
  forall s, s <> "" -> G_str_replace s "/" "-" <> "".

Lemma column_value_empty fld v :
  column_value fld v = "" <-> supported (Fld_type fld) = false.
Proof.
  unfold column_value.
  destruct (match v with Some s => negb (String.eqb s "") | None => false end);
    destruct (Fld_type fld); cbn;
    try (split; [discriminate | discriminate]);
    try (split; reflexivity);
    (split; [|discriminate]); intros H; exfalso;
    revert H; apply G_str_replace_keeps; discriminate.
Qed.

(** X15.  The table made for a layer and the rows written into it go
    together: field by field, a value is appended to the [insert]
    statement of a feature exactly when a column was appended to the
    [create table] statement, whatever the feature holds.  In both, the
    field chosen as key is passed over, and a field of a type that is not
    supported gives nothing.  Of [G_str_replace] this takes that replacing
    "/" by "-" in a string that is not empty does not give the empty
    string. *)
Theorem rows_fit_the_table driver dt_type tolower cnames key_idx fields values :
  Forall2 (fun column value => column = "" <-> value = "")
          (column_defs driver dt_type tolower cnames key_idx 0 fields)
          (column_values key_idx 0 fields values) /\
  length (column_defs driver dt_type tolower cnames key_idx 0 fields)
  = (length fields
     - if ((0 <=? key_idx) && (key_idx <? Z.of_nat (length fields)))%Z
       then 1 else 0)%nat.
Proof.
  assert (H : forall i,
             0 <= i ->
             Forall2 (fun column value => column = "" <-> value = "")
                     (column_defs driver dt_type tolower cnames key_idx i fields)
                     (column_values key_idx i fields values) /\
             length (column_defs driver dt_type tolower cnames key_idx i fields)
             = (length fields
                - if ((i <=? key_idx) && (key_idx <? i + Z.of_nat (length fields)))%Z
                  then 1 else 0)%nat).
  { induction fields as [|fld tl IH]; intros i Hi.
    - cbn. split; [constructor|].
      destruct ((i <=? key_idx) && (key_idx <? i + 0)); reflexivity.
    - cbn [column_defs column_values length].
      destruct (IH (i + 1)) as (IH1 & IH2); [lia|].
      destruct (Z.ltb_spec (-1) key_idx) as [Hk|Hk];
        destruct (Z.eqb_spec key_idx i) as [He|He]; cbn [andb].
      + split; [assumption|]. rewrite IH2.
        destruct (Z.leb_spec (i + 1) key_idx); [lia|]. cbn [andb].
        destruct (Z.leb_spec i key_idx); [|lia].
        destruct (Z.ltb_spec key_idx (i + Z.of_nat (S (length tl)))); [|lia].
        cbn [andb]. lia.
      + split.
        * constructor; [|assumption].
          rewrite column_def_empty, column_value_empty. tauto.
        * cbn [length]. rewrite IH2.
          destruct (Z.leb_spec (i + 1) key_idx), (Z.leb_spec i key_idx),
            (Z.ltb_spec key_idx (i + 1 + Z.of_nat (length tl))),
            (Z.ltb_spec key_idx (i + Z.of_nat (S (length tl))));
            cbn [andb]; lia.
      + lia.
      + split.
        * constructor; [|assumption].
          rewrite column_def_empty, column_value_empty. tauto.
        * cbn [length]. rewrite IH2.
          destruct (Z.leb_spec (i + 1) key_idx), (Z.leb_spec i key_idx),
            (Z.ltb_spec key_idx (i + 1 + Z.of_nat (length tl))),
            (Z.ltb_spec key_idx (i + Z.of_nat (S (length tl))));
            cbn [andb]; lia. }
  apply (H 0). lia.
Qed.


(** [key_column[layer]] when the table is made: the first value of the
    option [columns] if there is one, else what the choice of the key has
    left ([GV_KEY_COLUMN], the FID column, or the key field). *)
Definition table_key_column (key_column : string) (cnames : list string) : string :=
  match cnames with
  | c :: _ => c
  | [] => key_column
  end.


End Sql.

(** With [-w], a field whose name is the name of the category column in
    capitals gets that very name. *)
Definition upper_cat_to_lower (s : string) : string :=
  if String.eqb s "CAT" then "cat" else s.

Example lower_case_brings_the_name_back :
  column_name "cat" (fun s => s) upper_cat_to_lower true [] 0
              (mkField "CAT" OFTString 10) = "cat".
Proof. reflexivity. Qed.

Definition demo_fields : list OGRFieldDefn :=
  [ mkField "id" OFTInteger 0; mkField "cat" OFTString 0;
    mkField "blob" OFTBinary 0; mkField "made" OFTDate 0 ].

Definition demo_values (i : Z) : option string :=
  if i =? 1 then Some "oak" else if i =? 3 then Some "2001/10/21" else None.

(** A replacement of every occurrence of [a] in [s] by [b], from left to
    right, to stand for [G_str_replace]; [skip] counts the characters of an
    occurrence still to be passed over. *)
Fixpoint str_replace (skip : nat) (s a b : string) : string :=
  match s with
  | EmptyString => EmptyString
  | String c tl =>
      match skip with
      | S k => str_replace k tl a b
      | O =>
          if negb (String.eqb a "") && String.prefix a s
          then b ++ str_replace (String.length a - 1) tl a b
          else String c (str_replace 0 tl a b)
      end
  end.

Lemma str_replace_keeps s : s <> "" -> str_replace 0 s "/" "-" <> "".
Proof.
  destruct s as [|c tl]; [congruence|]. intros _. cbn [str_replace].
  change (String.eqb "/" "") with false. cbn [negb andb].
  destruct (String.prefix "/" (String c tl)); [cbn [append]|]; discriminate.
Qed.

Example dates_get_dashes : str_replace 0 ", '2001/10/21'" "/" "-" = ", '2001-10-21'".
Proof. reflexivity. Qed.

Example demo_create_table :
  create_table "cat" (fun s => s) (fun s => s) "trees" "id" "sqlite"
               (datetime_type (Some "sqlite")) false [] 0 demo_fields
  = "create table trees (id integer, cat_ varchar ( 255 ), made date)".
Proof. reflexivity. Qed.

Example demo_insert_row :
  insert_row (fun s => s) (str_replace 0) "trees" 7 0 demo_fields demo_values
  = "insert into trees values ( 7, 'oak', '2001-10-21' )".
Proof. reflexivity. Qed.

(** With [columns=id] the category column of the table is [id], and a
    field of that name is given a column of the same name. *)
Example category_column_named_twice :
  create_table "cat" (fun s => s) (fun s => s) "t" (table_key_column "cat" ["id"])
               "sqlite" "datetime" false ["id"] (-2) [mkField "id" OFTInteger 0]
  = "create table t (id integer, id integer)".
Proof. reflexivity. Qed.

Lemma rows_fit_the_table_witness :
  Forall2 (fun column value => column = "" <-> value = "")
    (column_defs "cat" (fun s => s) (fun s => s) "sqlite" "datetime"
                 false [] 0 0 demo_fields)
    (column_values (fun s => s) (str_replace 0) 0 0 demo_fields demo_values) /\
  length (column_defs "cat" (fun s => s) (fun s => s) "sqlite" "datetime"
                      false [] 0 0 demo_fields) = 3%nat.
Proof.
  apply (rows_fit_the_table "cat" (fun s => s) (fun s => s) (fun s => s)
           (str_replace 0) str_replace_keeps
           "sqlite" "datetime" false [] 0 demo_fields demo_values).
Defined.


End Tables.
